(** * XML export of an OPC-UA address space: a model of
      [asyncua/common/xmlexporter.py]

    The exporter walks a list of nodes, renumbers the namespace indices
    they use, serialises every node and its value to an element tree and
    finally emits the alias table.  The development follows the source
    method by method; every definition carries the name of the method it
    embeds. *)

From Stdlib Require Import ZArith NArith Lia.
From Stdlib Require Import Strings.Byte Strings.Ascii Strings.String.
From stdpp Require Import base decidable option list sorting countable.
From stdpp Require Import strings pretty gmap fin_maps fin_sets.

Set Warnings "-register-all".

Local Open Scope string_scope.
Local Open Scope list_scope.
Local Open Scope nat_scope.

(** ** Exceptions and the result monad *)

(** The Python exceptions the modelled code can raise. *)
Inductive exn : Type :=
  | TypeError | KeyError | AttributeError | IndexError
  | UnicodeDecodeError | UaError.

Inductive result (A : Type) : Type :=
  | Ok (a : A)
  | Raise (e : exn).
Arguments Ok {A} a.
Arguments Raise {A} e.

Global Instance result_bind : MBind result := fun A B k m =>
  match m with Ok a => k a | Raise e => Raise e end.
Global Instance result_ret : MRet result := fun A a => Ok a.

(** [d[k]] on a Python dict, [getattr]: a missing key raises. *)
Definition or_raise {A} (e : exn) (o : option A) : result A :=
  match o with Some a => Ok a | None => Raise e end.

(** A [for] loop that threads a value and stops at the first exception. *)
Definition foldM {A B} (f : B → A → result B) : B → list A → result B :=
  fix go b l :=
    match l with
    | [] => Ok b
    | x :: l' => b' ← f b x ; go b' l'
    end.

(** The results of [f] on the items of [l], one after the other. *)
Fixpoint collect {A B} (f : A → result (list B)) (l : list A) : result (list B) :=
  match l with
  | [] => Ok []
  | x :: l' => ys ← f x; zs ← collect f l'; Ok (ys ++ zs)
  end.

(** ** Data model *)

(** The identifier of a NodeId: numeric, string, GUID or opaque bytes. *)
Inductive Identifier : Type :=
  | Numeric (z : Z)
  | StringId (s : string)
  | GuidId (g : string)
  | OpaqueId (b : list byte).

Record NodeId : Type := mkNodeId {
  NamespaceIndex : nat;
  Identifier_ : Identifier
}.

Record QualifiedName : Type := mkQualifiedName {
  qn_NamespaceIndex : nat;
  qn_Name : string
}.

(** One entry of [node.get_references()]. *)
Record ReferenceDescription : Type := mkRef {
  ReferenceTypeId : NodeId;
  IsForward : bool;
  ref_NodeId : NodeId
}.

Global Instance byte_eq_dec : EqDecision byte := Byte.byte_eq_dec.

Global Instance Identifier_eq_dec : EqDecision Identifier.
Proof. solve_decision. Defined.

Global Instance NodeId_eq_dec : EqDecision NodeId.
Proof. solve_decision. Defined.

Global Instance QualifiedName_eq_dec : EqDecision QualifiedName.
Proof. solve_decision. Defined.

Definition Identifier_to_sum (i : Identifier) : Z + string + string + list N :=
  match i with
  | Numeric z => inl (inl (inl z))
  | StringId s => inl (inl (inr s))
  | GuidId g => inl (inr g)
  | OpaqueId b => inr (Byte.to_N <$> b)
  end.

Definition Identifier_of_sum (s : Z + string + string + list N) : Identifier :=
  match s with
  | inl (inl (inl z)) => Numeric z
  | inl (inl (inr s)) => StringId s
  | inl (inr g) => GuidId g
  | inr b => OpaqueId ((fun n => default Byte.x00 (Byte.of_N n)) <$> b)
  end.

Global Instance Identifier_countable : Countable Identifier.
Proof.
  refine (inj_countable' Identifier_to_sum Identifier_of_sum _).
  intros [z|s|g|b]; simpl; try reflexivity.
  f_equal. induction b as [|x b IH]; simpl; [reflexivity|].
  rewrite Byte.of_to_N. simpl. f_equal. exact IH.
Defined.

Global Instance NodeId_countable : Countable NodeId :=
  inj_countable' (fun n => (NamespaceIndex n, Identifier_ n))
                 (fun p => mkNodeId p.1 p.2)
                 (fun n => match n with mkNodeId _ _ => eq_refl end).

Inductive NodeClass : Type :=
  | Object | ObjectType | Variable_ | VariableType
  | ReferenceType | DataType | Method | Unspecified.

Global Instance NodeClass_eq_dec : EqDecision NodeClass.
Proof. solve_decision. Defined.

(** ** Element trees *)

(** An [xml.etree.ElementTree.Element]: tag, attribute dictionary (in
    insertion order), text and children. *)
Inductive Element : Type :=
  mkElement (tag : string) (attrib : list (string * string))
            (text : option string) (children : list Element).

Definition tag (e : Element) : string :=
  match e with mkElement t _ _ _ => t end.
Definition attrib (e : Element) : list (string * string) :=
  match e with mkElement _ a _ _ => a end.
Definition text (e : Element) : option string :=
  match e with mkElement _ _ x _ => x end.
Definition children (e : Element) : list Element :=
  match e with mkElement _ _ _ c => c end.

(** [Et.Element(tag)] *)
Definition Element_new (t : string) : Element := mkElement t [] None [].

(** [Et.SubElement(parent, ...)] creates a child and appends it; the
    caller then fills the child in place.  No one else touches the parent
    meanwhile, so the model appends the child once it is complete. *)
Definition append (parent child : Element) : Element :=
  match parent with mkElement t a x c => mkElement t a x (c ++ [child]) end.

(** [d[k] = v] on an insertion-ordered dict. *)
Fixpoint dict_set (d : list (string * string)) (k v : string)
  : list (string * string) :=
  match d with
  | [] => [(k, v)]
  | (k', v') :: d' =>
      if decide (k' = k) then (k, v) :: d' else (k', v') :: dict_set d' k v
  end.

Fixpoint dict_get (d : list (string * string)) (k : string) : option string :=
  match d with
  | [] => None
  | (k', v') :: d' => if decide (k' = k) then Some v' else dict_get d' k
  end.

(** [el.attrib[k] = v] *)
Definition set_attrib (e : Element) (k v : string) : Element :=
  match e with mkElement t a x c => mkElement t (dict_set a k v) x c end.

(** [el.text = s] *)
Definition set_text (e : Element) (s : string) : Element :=
  match e with mkElement t a _ c => mkElement t a (Some s) c end.

(** [el] with the elements [kids] after its children. *)
Definition add_children (el : Element) (kids : list Element) : Element :=
  match el with mkElement t a x c => mkElement t a x (c ++ kids) end.

(** ** Values *)

(** A value read from a variable node.  A list or tuple is [VList]; an
    object that has [ua_types] is [VStruct], given by its members in the
    order of [ua_types], each with its name, its type name and the
    attribute of that name; [VOther] is any other object, given by what
    [str] prints for it. *)
Inductive Value : Type :=
  | VNone
  | VBool (b : bool)
  | VInt (z : Z)
  | VStr (s : string)
  | VBytes (b : list byte)
  | VNodeId (n : NodeId)
  | VGuid (g : string)
  | VOther (s : string)
  | VList (vs : list Value)
  | VStruct (members : list (string * string * Value)).

(** Python truth value, as used by [... if val else ...]. *)
Definition truthy (v : Value) : bool :=
  match v with
  | VNone => false
  | VBool b => b
  | VInt z => negb (z =? 0)%Z
  | VStr s => negb (String.eqb s EmptyString)
  | VBytes b => match b with [] => false | _ => true end
  | VList vs => match vs with [] => false | _ => true end
  | VNodeId _ | VGuid _ | VOther _ | VStruct _ => true
  end.

(** ** Nodes *)

Record LocalizedText : Type := mkLocalizedText { Text : option string }.

Record StructureField : Type := mkStructureField {
  sf_Name : string;
  sf_DataType : NodeId;
  sf_ValueRank : Z;
  sf_ArrayDimensions : list Z;
  sf_IsOptional : bool
}.

Record EnumField : Type := mkEnumField {
  ef_Name : string;
  ef_Value : Z
}.

(** The value of the [DataTypeDefinition] attribute. *)
Inductive DataTypeDefinition : Type :=
  | StructureDefinition (Fields : list StructureField)
  | EnumDefinition (Fields : list EnumField)
  | OtherDefinition.

(** What the exporter reads from one node of the address space; every
    read is given by its result.  [get_parent] is the NodeId of the
    parent node, [read_description] is [None] or a text, and the
    definition is [None] when the attribute holds no value. *)
Record Node : Type := mkNode {
  nodeid : NodeId;
  read_node_class : NodeClass;
  read_browse_name : QualifiedName;
  read_display_name : LocalizedText;
  read_description : option LocalizedText;
  get_parent : option NodeId;
  get_references : list ReferenceDescription;
  read_DataTypeDefinition : option DataTypeDefinition;
  read_data_type : NodeId;
  read_value_rank : Z;
  read_ArrayDimensions : list Z;
  read_data_value : Value
}.

(** ** Namespace remapping *)

Module Namespaces.

(** [node_idxs] before duplicates are removed. *)
Definition node_idxs (node : Node) : list nat :=
  [NamespaceIndex (nodeid node)]
    ++ [qn_NamespaceIndex (read_browse_name node)]
    ++ ((fun ref => NamespaceIndex (ref_NodeId ref)) <$> get_references node).

(** [if i != 0 and i not in idxs: idxs.append(i)] *)
Definition append_new (idxs : list nat) (i : nat) : list nat :=
  if decide (i ≠ 0 ∧ i ∉ idxs) then idxs ++ [i] else idxs.

(** [list(set(node_idxs))]: the iteration order of a Python set is that
    of its hash table; [elements] of a [gset] is likewise one fixed
    enumeration without duplicates. *)
Definition list_set (l : list nat) : list nat :=
  elements (list_to_set l : gset nat).

Definition _get_ns_idxs_of_nodes (nodes : list Node) : list nat :=
  foldl (fun idxs node => foldl append_new idxs (list_set (node_idxs node)))
        [] nodes.

(** [ns_array.index(uri)] *)
Definition index (ns_array : list string) (uri : string) : option nat :=
  fst <$> list_find (fun u => u = uri) ns_array.

Definition _add_idxs_from_uris (idxs : list nat) (uris ns_array : list string)
  : list nat :=
  foldl (fun idxs uri =>
           match index ns_array uri with
           | Some i => if decide (i ∉ idxs) then idxs ++ [i] else idxs
           | None => idxs
           end) idxs uris.

(** The [for xml_idx, addr_idx in enumerate(idxs)] loop with its [break]. *)
Fixpoint make_idx_loop (len : nat) (d : gmap nat nat) (xml_idx : nat)
    (idxs : list nat) : gmap nat nat :=
  match idxs with
  | [] => d
  | addr_idx :: rest =>
      if decide (len ≤ addr_idx) then d
      else make_idx_loop len (<[addr_idx := xml_idx + 1]> d) (S xml_idx) rest
  end.

Definition _make_idx_dict (idxs : list nat) (ns_array : list string)
  : gmap nat nat :=
  make_idx_loop (length ns_array) {[0 := 0]} 0 (merge_sort Nat.le idxs).

(** [sorted(list(d.keys()))] *)
Definition sorted_keys (d : gmap nat nat) : list nat :=
  merge_sort Nat.le (elements (dom d)).

(** The list [idxs] of [_add_namespaces] when [_make_idx_dict] is called.
    [uris] is [None] or a list; [if uris:] skips the empty list too. *)
Definition idxs_to_export (nodes : list Node) (uris : option (list string))
    (ns_array : list string) : list nat :=
  let idxs := _get_ns_idxs_of_nodes nodes in
  match uris with
  | Some (u :: us) => _add_idxs_from_uris idxs (u :: us) ns_array
  | _ => idxs
  end.

(** [_add_namespaces]: the index map and the list [ns_to_export] handed to
    [_add_namespace_uri_els]. *)
Definition _add_namespaces (nodes : list Node) (uris : option (list string))
    (ns_array : list string) : result (gmap nat nat * list string) :=
  let idxs := idxs_to_export nodes uris ns_array in
  let d := _make_idx_dict idxs ns_array in
  ns_to_export ←
    foldM (fun acc i => uri ← or_raise IndexError (ns_array !! i); Ok (acc ++ [uri]))
          [] (filter (fun i => i ≠ 0) (sorted_keys d));
  Ok (d, ns_to_export).

(** The loop of [_get_ns_idxs_of_nodes] over the nodes, from any list of
    indices found so far. *)
Definition harvest_from (idxs : list nat) (nodes : list Node) : list nat :=
  foldl (fun idxs node => foldl append_new idxs (list_set (node_idxs node)))
        idxs nodes.

(** [keys] are the source indices other than 0 that [d] renumbers: [d]
    sends 0 to 0 and the keys, in ascending order, to 1, 2, ... *)
Definition remaps (keys : list nat) (d : gmap nat nat) : Prop :=
  d !! 0 = Some 0 ∧
  (∀ i, is_Some (d !! i) ↔ i = 0 ∨ i ∈ keys) ∧
  (∀ x, (∃ i, d !! i = Some x) ↔ x ≤ length keys) ∧
  (∀ i j x, d !! i = Some x → d !! j = Some x → i = j) ∧
  (∀ i j x y, d !! i = Some x → d !! j = Some y → i < j → x < y).

(** The indices below the length of the namespace table. *)
Definition in_range (len : nat) (idxs : list nat) : list nat :=
  filter (fun i => i < len) idxs.

(** The harvest as the specification words it: the reference-type ids
    count too. *)
Definition harvest_as_stated (nodes : list Node) (idxs : list nat) : Prop :=
  NoDup idxs ∧
  ∀ i, i ∈ idxs ↔
    i ≠ 0 ∧ ∃ node, node ∈ nodes ∧
      (i = NamespaceIndex (nodeid node) ∨
       i = qn_NamespaceIndex (read_browse_name node) ∨
       ∃ ref, ref ∈ get_references node ∧
         (i = NamespaceIndex (ReferenceTypeId ref) ∨
          i = NamespaceIndex (ref_NodeId ref))).

End Namespaces.

(** ** What the exporter takes from the rest of the library *)

(** [ua] and the address space are not part of this file: string forms,
    the id tables, the base-type resolver, [str] and UTF-8 decoding are
    taken as they come. *)
Record Env : Type := mkEnv {
  NodeId_to_string : NodeId → string;
  QualifiedName_to_string : QualifiedName → string;
  (** [a < b] on NodeIds, which [list.sort] uses *)
  NodeId_lt : NodeId → NodeId → bool;
  (** [o_ids.ObjectIdNames], a dict from numeric ids to names *)
  ObjectIdNames : Z → option string;
  (** [getattr(ua.ObjectIds, name)] *)
  ObjectIds : string → option Z;
  (** [(await get_base_data_type(server.get_node(dtype))).nodeid] *)
  get_base_data_type : NodeId → result NodeId;
  (** [str(val)] *)
  py_str : Value → string;
  (** [val.decode("utf-8")] *)
  utf8_decode : list byte → result string
}.

(** The numeric ids the exporter names, as the OPC-UA standard fixes them. *)
Module ObjectIds_.
Definition Boolean : Z := 1.
Definition Int32 : Z := 6.
Definition Guid : Z := 14.
Definition ByteString : Z := 15.
Definition NodeId_ : Z := 17.
Definition Enumeration : Z := 29.
Definition Argument : Z := 296.
End ObjectIds_.

(** [ua.NodeId(i)]: a numeric id in namespace 0. *)
Definition ua_NodeId (i : Z) : NodeId := mkNodeId 0 (Numeric i).

(** [k in o_ids.ObjectIdNames] / [o_ids.ObjectIdNames[k]] for an identifier
    of any kind: the keys of the table are integers. *)
Definition ObjectIdNames_get (env : Env) (i : Identifier) : option string :=
  match i with Numeric z => ObjectIdNames env z | _ => None end.

(** [ident <= n] for an integer [n]: comparing a string, a GUID or bytes
    with an integer raises. *)
Definition le_int (i : Identifier) (n : Z) : result bool :=
  match i with Numeric z => Ok (z <=? n)%Z | _ => Raise TypeError end.

(** [dtype.NamespaceIndex == 0 and dtype.Identifier <= 21] *)
Definition is_builtin (dtype : NodeId) : result bool :=
  if decide (NamespaceIndex dtype = 0) then le_int (Identifier_ dtype) 21
  else Ok false.

(** ** Base64, as [base64.b64encode] computes it (RFC 4648) *)

Module Base64.

Definition alphabet : list ascii :=
  list_ascii_of_string
    "ABCDEFGHIJKLMNOPQRSTUVWXYZabcdefghijklmnopqrstuvwxyz0123456789+/".

Definition pad : ascii := "="%char.

(** The character of a 6-bit group. *)
Definition char_of (n : N) : ascii := nth (N.to_nat n) alphabet pad.

(** The 6-bit group of a character of the alphabet. *)
Definition index_of (c : ascii) : option N :=
  N.of_nat <$> (fst <$> list_find (fun a => a = c) alphabet).

(** Three bytes are four 6-bit groups. *)
Definition sextets3 (a b c : N) : N * N * N * N :=
  (a / 4, (a mod 4) * 16 + b / 16, (b mod 16) * 4 + c / 64, c mod 64)%N.

Fixpoint encode_chars (bs : list byte) : list ascii :=
  match bs with
  | [] => []
  | [a] =>
      let '(s1, s2, _, _) := sextets3 (Byte.to_N a) 0 0 in
      [char_of s1; char_of s2; pad; pad]
  | [a; b] =>
      let '(s1, s2, s3, _) := sextets3 (Byte.to_N a) (Byte.to_N b) 0 in
      [char_of s1; char_of s2; char_of s3; pad]
  | a :: b :: c :: rest =>
      let '(s1, s2, s3, s4) :=
        sextets3 (Byte.to_N a) (Byte.to_N b) (Byte.to_N c) in
      char_of s1 :: char_of s2 :: char_of s3 :: char_of s4 :: encode_chars rest
  end.

(** [base64.b64encode(val).decode("utf-8")] *)
Definition b64encode (bs : list byte) : string :=
  string_of_list_ascii (encode_chars bs).

(** Four 6-bit groups back to three bytes. *)
Definition bytes3 (s1 s2 s3 s4 : N) : N * N * N :=
  (s1 * 4 + s2 / 16, (s2 mod 16) * 16 + s3 / 4, (s3 mod 4) * 64 + s4)%N.

Fixpoint decode_chars (cs : list ascii) : option (list byte) :=
  match cs with
  | [] => Some []
  | c1 :: c2 :: c3 :: c4 :: rest =>
      s1 ← index_of c1; s2 ← index_of c2;
      if decide (c3 = pad ∧ c4 = pad ∧ rest = []) then
        let '(a, _, _) := bytes3 s1 s2 0 0 in
        a' ← Byte.of_N a; Some [a']
      else
        s3 ← index_of c3;
        if decide (c4 = pad ∧ rest = []) then
          let '(a, b, _) := bytes3 s1 s2 s3 0 in
          a' ← Byte.of_N a; b' ← Byte.of_N b; Some [a'; b']
        else
          s4 ← index_of c4;
          let '(a, b, c) := bytes3 s1 s2 s3 s4 in
          a' ← Byte.of_N a; b' ← Byte.of_N b; c' ← Byte.of_N c;
          tl ← decode_chars rest;
          Some (a' :: b' :: c' :: tl)
  | _ => None
  end.

(** The inverse, in the manner of [base64.b64decode]: [None] on text
    that is not padded base64. *)
Definition b64decode (s : string) : option (list byte) :=
  decode_chars (list_ascii_of_string s).

End Base64.

(** ** The value codec *)

Module Codec.
Import Base64.

Section codec.
Context (env : Env).

(** [vtype[6:] if vtype.startswith("ListOf") else vtype] *)
Definition strip_ListOf (vtype : string) : string :=
  if String.prefix "ListOf" vtype
  then String.substring 6 (String.length vtype - 6) vtype
  else vtype.

(** [ua.NodeId(getattr(ua.ObjectIds, vtype))] *)
Definition NodeId_of_typename (vtype : string) : result NodeId :=
  i ← or_raise AttributeError (ObjectIds env vtype); Ok (ua_NodeId i).

(** The body of [_val_to_etree]; [member_to_etree] is the method it calls
    on the members of a structure. *)
Definition val_to_etree_body
    (member_to_etree : Value → Element → string → NodeId → result Element)
    (val : Value) (el : Element) (dtype : NodeId) : result Element :=
  if decide (dtype = ua_NodeId ObjectIds_.NodeId_) then
    s ← match val with
        | VNodeId n => Ok (NodeId_to_string env n)
        | _ => Raise AttributeError
        end;
    Ok (append el (set_text (Element_new "uax:Identifier") s))
  else if decide (dtype = ua_NodeId ObjectIds_.Guid) then
    Ok (append el (set_text (Element_new "uax:String") (py_str env val)))
  else if decide (dtype = ua_NodeId ObjectIds_.Boolean) then
    Ok (set_text el (if truthy val then "true" else "false"))
  else if decide (dtype = ua_NodeId ObjectIds_.ByteString) then
    data ← match val with
           | VNone => Ok (b64encode [])
           | VBytes b => Ok (b64encode b)
           | _ => Raise TypeError
           end;
    Ok (set_text el data)
  else
    match val with
    | VStruct members =>
        foldM (fun el '(name, vtype, v) =>
                 dt ← NodeId_of_typename vtype;
                 member_to_etree v el name dt)
              el members
    | VBytes b => s ← utf8_decode env b; Ok (set_text el s)
    | VNone => Ok el
    | _ => Ok (set_text el (py_str env val))
    end.

(** The body of [_extobj_to_etree]. *)
Definition extobj_to_etree_body
    (member_to_etree : Value → Element → string → NodeId → result Element)
    (val : Value) (val_el : Element) (name : string) (dtype : NodeId)
  : result Element :=
  let id_el := set_text (Element_new "uax:Identifier") (NodeId_to_string env dtype) in
  let type_el := append (Element_new "uax:TypeId") id_el in
  struct_el ←
    match val with
    | VStruct members =>
        foldM (fun el '(name, vtype, v) =>
                 dt ← NodeId_of_typename (strip_ListOf vtype);
                 member_to_etree v el name dt)
              (Element_new ("uax:" +:+ name)) members
    | _ => Raise AttributeError
    end;
  let body_el := append (Element_new "uax:Body") struct_el in
  let obj_el := append (append (Element_new "uax:ExtensionObject") type_el) body_el in
  Ok (append val_el obj_el).

(** [member_to_etree], [_value_to_etree], and [_val_to_etree] and
    [_extobj_to_etree] through their bodies.  The value comes first: the
    recursion is on it. *)
Fixpoint member_to_etree (val : Value) (el : Element) (name : string)
    (dtype : NodeId) {struct val} : result Element :=
  member_el ←
    match val with
    | VList vs =>
        foldM (fun member_el v =>
                 type_name ← or_raise KeyError (ObjectIdNames_get env (Identifier_ dtype));
                 _value_to_etree v member_el type_name dtype)
              (Element_new ("uax:" +:+ name)) vs
    | _ => val_to_etree_body member_to_etree val (Element_new ("uax:" +:+ name)) dtype
    end;
  Ok (append el member_el)

with _value_to_etree (val : Value) (el : Element) (type_name : string)
    (dtype : NodeId) {struct val} : result Element :=
  match val with
  | VNone => Ok el
  | VList vs =>
      builtin ← is_builtin dtype;
      let elname := if builtin : bool then "uax:ListOf" +:+ type_name
                    else "uax:ListOfExtensionObject" in
      list_el ← foldM (fun list_el nval => _value_to_etree nval list_el type_name dtype)
                      (Element_new elname) vs;
      Ok (append el list_el)
  | _ =>
      dtype_base ← get_base_data_type env dtype;
      '(dtype_base, type_name) ←
        (if decide (dtype_base = ua_NodeId ObjectIds_.Enumeration) then
           n ← or_raise KeyError (ObjectIdNames env ObjectIds_.Int32);
           Ok (ua_NodeId ObjectIds_.Int32, n)
         else Ok (dtype_base, type_name));
      builtin ← is_builtin dtype_base;
      if builtin : bool then
        type_name ← or_raise KeyError (ObjectIdNames_get env (Identifier_ dtype_base));
        val_el ← val_to_etree_body member_to_etree val
                   (Element_new ("uax:" +:+ type_name)) dtype_base;
        Ok (append el val_el)
      else extobj_to_etree_body member_to_etree val el type_name dtype
  end.

Definition _val_to_etree (val : Value) (el : Element) (dtype : NodeId)
  : result Element :=
  val_to_etree_body member_to_etree val el dtype.

Definition _extobj_to_etree (val : Value) (val_el : Element) (name : string)
    (dtype : NodeId) : result Element :=
  extobj_to_etree_body member_to_etree val val_el name dtype.

(** [value_to_etree]: [var] is [(await node.read_data_value()).Value.Value]. *)
Definition value_to_etree (el : Element) (dtype_name : string) (dtype : NodeId)
    (var : Value) : result Element :=
  match var with
  | VNone => Ok el
  | _ =>
      val_el ← _value_to_etree var (Element_new "Value") dtype_name dtype;
      Ok (append el val_el)
  end.

(** The children that [_value_to_etree] adds to an element. *)
Definition value_children (val : Value) (type_name : string) (dtype : NodeId)
  : result (list Element) :=
  e ← _value_to_etree val (Element_new EmptyString) type_name dtype;
  Ok (children e).

End codec.






End Codec.

(** ** The node serialiser and the alias table *)

Module Serializer.

(** The state of an [XmlExporter]: the alias dict, the index map and the
    root of the element tree. *)
Record Exporter : Type := mkExporter {
  aliases : gmap NodeId string;
  _addr_idx_to_xml_idx : gmap nat nat;
  etree : Element
}.

Definition node_write_attributes : list (string * string) :=
  [("xmlns:xsi", "http://www.w3.org/2001/XMLSchema-instance");
   ("xmlns:uax", "http://opcfoundation.org/UA/2008/02/Types.xsd");
   ("xmlns:xsd", "http://www.w3.org/2001/XMLSchema");
   ("xmlns", "http://opcfoundation.org/UA/2011/03/UANodeSet.xsd")].

(** [__init__] *)
Definition XmlExporter_init : Exporter :=
  mkExporter ∅ ∅ (mkElement "UANodeSet" node_write_attributes None []).

(** [parent.insert(i, child)] on the children of an element. *)
Definition insert_child (i : nat) (parent child : Element) : Element :=
  match parent with
  | mkElement t a x c => mkElement t a x (take i c ++ [child] ++ drop i c)
  end.

(** A sequence of registrations [self.aliases[k] = v]. *)
Definition register_all (regs : list (NodeId * string))
    (aliases : gmap NodeId string) : gmap NodeId string :=
  foldl (fun aliases '(k, v) => <[k := v]> aliases) aliases regs.

(** [lt] is a strict total order. *)
Definition strict_total (lt : NodeId → NodeId → bool) : Prop :=
  (∀ a, lt a a = false) ∧
  (∀ a b c, lt a b = true → lt b c = true → lt a c = true) ∧
  (∀ a b, a ≠ b → lt a b = true ∨ lt b a = true).

Section serializer.
Context (env : Env).

Definition _add_sub_el (el : Element) (name : string) (text : option string)
  : Element :=
  append el (mkElement name [] text []).

Definition _node_to_string (d : gmap nat nat) (nodeid : NodeId) : string :=
  match d !! NamespaceIndex nodeid with
  | Some xml_idx => NodeId_to_string env (mkNodeId xml_idx (Identifier_ nodeid))
  | None => NodeId_to_string env nodeid
  end.

Definition _bname_to_string (d : gmap nat nat) (bname : QualifiedName) : string :=
  match d !! qn_NamespaceIndex bname with
  | Some xml_idx => QualifiedName_to_string env (mkQualifiedName xml_idx (qn_Name bname))
  | None => QualifiedName_to_string env bname
  end.

(** [_add_node_common]: the element of the node, which the caller goes on
    to fill. *)
Definition _add_node_common (self : Exporter) (nodetype : string) (node : Node)
  : Element :=
  let d := _addr_idx_to_xml_idx self in
  let desc := match read_description node with
              | Some lt => Text lt
              | None => None
              end in
  let node_el := Element_new nodetype in
  let node_el := set_attrib node_el "NodeId" (_node_to_string d (nodeid node)) in
  let node_el := set_attrib node_el "BrowseName"
                   (_bname_to_string d (read_browse_name node)) in
  let node_el :=
    match get_parent node with
    | Some parent =>
        if decide (read_node_class node ∈ [Object; Variable_; Method])
        then set_attrib node_el "ParentNodeId" (_node_to_string d parent)
        else node_el
    | None => node_el
    end in
  let node_el := _add_sub_el node_el "DisplayName" (Text (read_display_name node)) in
  match desc with
  | None | Some EmptyString => node_el
  | Some _ => _add_sub_el node_el "Description" desc
  end.

(** [ref_name] in [_add_ref_els], for the reference-type id [id]: the
    name of the identifier in [ObjectIdNames], else the string form. *)
Definition ref_name (id : NodeId) : string :=
  match ObjectIdNames_get env (Identifier_ id) with
  | Some name => name
  | None => NodeId_to_string env id
  end.

(** The [Reference] element of one reference. *)
Definition reference_el (d : gmap nat nat) (ref : ReferenceDescription)
  : Element :=
  let ref_el := set_attrib (Element_new "Reference") "ReferenceType"
                  (ref_name (ReferenceTypeId ref)) in
  let ref_el := if IsForward ref then ref_el
                else set_attrib ref_el "IsForward" "false" in
  set_text ref_el (_node_to_string d (ref_NodeId ref)).

(** One turn of the loop of [_add_ref_els]: the element is added and
    [self.aliases[ref.ReferenceTypeId] = ref_name]. *)
Definition add_ref_el (d : gmap nat nat)
    (st : Element * gmap NodeId string) (ref : ReferenceDescription)
  : Element * gmap NodeId string :=
  let '(refs_el, aliases) := st in
  (append refs_el (reference_el d ref),
   <[ReferenceTypeId ref := ref_name (ReferenceTypeId ref)]> aliases).

(** [_add_ref_els]: the parent with its [References] child, and the
    alias dict. *)
Definition _add_ref_els (self : Exporter) (parent_el : Element) (obj : Node)
  : Element * gmap NodeId string :=
  let '(refs_el, aliases) :=
    foldl (add_ref_el (_addr_idx_to_xml_idx self))
          (Element_new "References", aliases self) (get_references obj) in
  (append parent_el refs_el, aliases).

(** The references of [obj] as the specification words them: the
    [ReferenceType] attribute of a type that the id table does not know
    is the remapped string of the type, and the alias dict is left as
    it was at that id. *)
Definition reference_as_stated (self : Exporter) (obj : Node) : Prop :=
  ∀ i ref,
    get_references obj !! i = Some ref →
    ObjectIdNames_get env (Identifier_ (ReferenceTypeId ref)) = None →
    ∃ refs_el ref_el,
      children (_add_ref_els self (Element_new "UAObject") obj).1 = [refs_el]
      ∧ children refs_el !! i = Some ref_el
      ∧ dict_get (attrib ref_el) "ReferenceType"
          = Some (_node_to_string (_addr_idx_to_xml_idx self) (ReferenceTypeId ref))
      ∧ (_add_ref_els self (Element_new "UAObject") obj).2 !! ReferenceTypeId ref
          = aliases self !! ReferenceTypeId ref.

(** The [Field] element of one member of a structure definition. *)
Definition structure_field_el (field : StructureField) : Element :=
  let field_el := Element_new "Field" in
  let field_el := set_attrib field_el "Name" (sf_Name field) in
  let field_el := set_attrib field_el "Datatype"
                    (NodeId_to_string env (sf_DataType field)) in
  let field_el :=
    if decide (sf_ValueRank field ≠ (-1)%Z)
    then set_attrib field_el "ValueRank" (pretty (sf_ValueRank field))
    else field_el in
  let field_el :=
    match sf_ArrayDimensions field with
    | [] => field_el
    | dims => set_attrib field_el "ArrayDimensions"
                (String.concat ", " (pretty <$> dims))
    end in
  if sf_IsOptional field
  then set_attrib field_el "IsOptional" "true"
  else field_el.

Definition _structure_fields_to_etree (sdef_el : Element)
    (Fields : list StructureField) : Element :=
  foldl (fun sdef_el field => append sdef_el (structure_field_el field))
        sdef_el Fields.

Definition _enum_fields_to_etree (sdef_el : Element) (Fields : list EnumField)
  : Element :=
  foldl (fun sdef_el field =>
           let field_el := Element_new "Field" in
           let field_el := set_attrib field_el "Name" (ef_Name field) in
           let field_el := set_attrib field_el "Value" (pretty (ef_Value field)) in
           append sdef_el field_el)
        sdef_el Fields.

(** The [Definition] child that [add_etree_datatype] builds. *)
Definition definition_el (bname : QualifiedName) (sdef : DataTypeDefinition)
  : Element :=
  let sdef_el := set_attrib (Element_new "Definition") "Name" (qn_Name bname) in
  match sdef with
  | StructureDefinition Fields => _structure_fields_to_etree sdef_el Fields
  | EnumDefinition Fields => _enum_fields_to_etree sdef_el Fields
  | OtherDefinition => sdef_el
  end.

Definition add_etree_datatype (self : Exporter) (obj : Node) : Exporter :=
  let obj_el := _add_node_common self "UADataType" obj in
  let obj_el :=
    match read_DataTypeDefinition obj with
    | Some sdef => append obj_el (definition_el (read_browse_name obj) sdef)
    | None => obj_el
    end in
  let '(obj_el, aliases) := _add_ref_els self obj_el obj in
  mkExporter aliases (_addr_idx_to_xml_idx self) (append (etree self) obj_el).

(** [add_variable_common]: the element [el] filled in, and the state. *)
Definition add_variable_common (self : Exporter) (node : Node) (el : Element)
  : result (Exporter * Element) :=
  let dtype := read_data_type node in
  let '(dtype_name, aliases) :=
    match (if decide (NamespaceIndex dtype = 0)
           then ObjectIdNames_get env (Identifier_ dtype) else None) with
    | Some dtype_name => (dtype_name, <[dtype := dtype_name]> (aliases self))
    | None => (_node_to_string (_addr_idx_to_xml_idx self) dtype, aliases self)
    end in
  let rank := read_value_rank node in
  let el := if decide (rank ≠ (-1)%Z)
            then set_attrib el "ValueRank" (pretty rank) else el in
  let el := match read_ArrayDimensions node with
            | [] => el
            | dim => set_attrib el "ArrayDimensions"
                       (String.concat "," (pretty <$> dim))
            end in
  let el := set_attrib el "DataType" dtype_name in
  el ← Codec.value_to_etree env el dtype_name dtype (read_data_value node);
  Ok (mkExporter aliases (_addr_idx_to_xml_idx self) (etree self), el).

(** [a <= b], that is [not b < a]: the order [ordered_keys.sort()] sorts by. *)
Definition NodeId_le (a b : NodeId) : Prop := NodeId_lt env b a = false.

Global Instance NodeId_le_dec : RelDecision NodeId_le.
Proof. intros a b. unfold NodeId_le. apply _. Defined.

(** [list(self.aliases.keys())] sorted. *)
Definition ordered_keys (aliases : gmap NodeId string) : list NodeId :=
  merge_sort NodeId_le (elements (dom aliases)).

(** The [Aliases] element that [_add_alias_els] builds. *)
Definition aliases_el (aliases : gmap NodeId string) : result Element :=
  foldM (fun aliases_el nodeid =>
           name ← or_raise KeyError (aliases !! nodeid);
           let ref_el := set_attrib (Element_new "Alias") "Alias" name in
           let ref_el := set_text ref_el (NodeId_to_string env nodeid) in
           Ok (append aliases_el ref_el))
        (Element_new "Aliases") (ordered_keys aliases).

Definition _add_alias_els (self : Exporter) : result Exporter :=
  el ← aliases_el (aliases self);
  Ok (mkExporter (aliases self) (_addr_idx_to_xml_idx self)
                 (insert_child 1 (etree self) el)).

End serializer.
End Serializer.

(** ** Objects and copies *)

(** [_node_to_string] and [_bname_to_string] work on objects: they take a
    reference, copy the object and assign to an attribute of the copy.
    Here the objects live in a store and the two methods are given once
    more, on references. *)
Module Store.

Inductive PyObject : Type :=
  | ONodeId (n : NodeId)
  | OQualifiedName (q : QualifiedName)
  | ONode (nodeid : nat).

(** [copy(x)]: a new object with the attributes of the old one. *)
Definition copy (h : gmap nat PyObject) (l : nat)
  : result (nat * gmap nat PyObject) :=
  o ← or_raise AttributeError (h !! l);
  let l' := fresh (dom h) in
  Ok (l', <[l' := o]> h).

(** [x.NamespaceIndex = i] *)
Definition set_NamespaceIndex (h : gmap nat PyObject) (l : nat) (i : nat)
  : result (gmap nat PyObject) :=
  o ← or_raise AttributeError (h !! l);
  match o with
  | ONodeId n => Ok (<[l := ONodeId (mkNodeId i (Identifier_ n))]> h)
  | OQualifiedName q => Ok (<[l := OQualifiedName (mkQualifiedName i (qn_Name q))]> h)
  | ONode _ => Raise AttributeError
  end.

(** [x.NamespaceIndex] *)
Definition get_NamespaceIndex (o : PyObject) : result nat :=
  match o with
  | ONodeId n => Ok (NamespaceIndex n)
  | OQualifiedName q => Ok (qn_NamespaceIndex q)
  | ONode _ => Raise AttributeError
  end.

Section store.
Context (env : Env).

(** [x.to_string()] *)
Definition to_string (o : PyObject) : result string :=
  match o with
  | ONodeId n => Ok (NodeId_to_string env n)
  | OQualifiedName q => Ok (QualifiedName_to_string env q)
  | ONode _ => Raise AttributeError
  end.

(** The two lines under [if x.NamespaceIndex in self._addr_idx_to_xml_idx]. *)
Definition remapped_copy (d : gmap nat nat) (h : gmap nat PyObject) (x : nat)
  : result (nat * gmap nat PyObject) :=
  o ← or_raise AttributeError (h !! x);
  ns ← get_NamespaceIndex o;
  match d !! ns with
  | Some xml_idx =>
      '(x, h) ← copy h x;
      h ← set_NamespaceIndex h x xml_idx;
      Ok (x, h)
  | None => Ok (x, h)
  end.

Definition _node_to_string (d : gmap nat nat) (h : gmap nat PyObject)
    (nodeid : nat) : result (string * gmap nat PyObject) :=
  o ← or_raise AttributeError (h !! nodeid);
  nodeid ← match o with
           | ONodeId _ => Ok nodeid
           | ONode l => Ok l
           | OQualifiedName _ => Raise AttributeError
           end;
  '(nodeid, h) ← remapped_copy d h nodeid;
  o ← or_raise AttributeError (h !! nodeid);
  s ← to_string o;
  Ok (s, h).

Definition _bname_to_string (d : gmap nat nat) (h : gmap nat PyObject)
    (bname : nat) : result (string * gmap nat PyObject) :=
  '(bname, h) ← remapped_copy d h bname;
  o ← or_raise AttributeError (h !! bname);
  s ← to_string o;
  Ok (s, h).

End store.
End Store.

(** ** A small address space to run the exporter on *)

Module Example.
Import Base64.

(** Modelled from the spec: the [ua] types are not part of this file.
    The string form of a NodeId is its namespace prefix, left out for
    namespace 0, and the identifier after the letter of its kind. *)
Definition NodeId_to_string (n : NodeId) : string :=
  (if decide (NamespaceIndex n = 0) then EmptyString
   else "ns=" +:+ pretty (NamespaceIndex n) +:+ ";")
  +:+ match Identifier_ n with
      | Numeric z => "i=" +:+ pretty z
      | StringId s => "s=" +:+ s
      | GuidId g => "g=" +:+ g
      | OpaqueId b => "b=" +:+ b64encode b
      end.

(** Modelled from the spec: the string form of a QualifiedName, its
    namespace index and its name. *)
Definition QualifiedName_to_string (q : QualifiedName) : string :=
  pretty (qn_NamespaceIndex q) +:+ ":" +:+ qn_Name q.

(** Modelled from the spec: NodeIds are ordered by namespace index, then
    by identifier; numeric identifiers by their value and before the
    others. *)
Definition NodeId_key (n : NodeId) : nat * Z * positive :=
  match Identifier_ n with
  | Numeric z => (NamespaceIndex n, z, 1%positive)
  | i => (NamespaceIndex n, 0%Z, (1 + encode i)%positive)
  end.

Definition key_lt (a b : nat * Z * positive) : bool :=
  let '(a1, a2, a3) := a in
  let '(b1, b2, b3) := b in
  (a1 <? b1) || ((a1 =? b1) && ((a2 <? b2)%Z || ((a2 =? b2)%Z && (a3 <? b3)%positive))).

Definition NodeId_lt (a b : NodeId) : bool := key_lt (NodeId_key a) (NodeId_key b).

(** A part of the standard id table. *)
Definition ids : list (Z * string) :=
  [(1, "Boolean"); (2, "SByte"); (3, "Byte"); (4, "Int16"); (5, "UInt16");
   (6, "Int32"); (7, "UInt32"); (8, "Int64"); (9, "UInt64"); (10, "Float");
   (11, "Double"); (12, "String"); (13, "DateTime"); (14, "Guid");
   (15, "ByteString"); (16, "XmlElement"); (17, "NodeId");
   (18, "ExpandedNodeId"); (19, "StatusCode"); (20, "QualifiedName");
   (21, "LocalizedText"); (22, "Structure"); (24, "BaseDataType");
   (29, "Enumeration"); (35, "Organizes"); (40, "HasTypeDefinition");
   (45, "HasSubtype"); (46, "HasProperty"); (47, "HasComponent");
   (296, "Argument")]%Z.

Definition ObjectIdNames (i : Z) : option string :=
  '(_, (_, name)) ← list_find (fun p => p.1 = i) ids; Some name.

Definition ObjectIds (name : string) : option Z :=
  '(_, (i, _)) ← list_find (fun p => p.2 = name) ids; Some i.

(** The built-in types are their own base; Argument is a Structure. *)
Definition get_base_data_type (dtype : NodeId) : result NodeId :=
  match dtype with
  | mkNodeId 0 (Numeric z) =>
      if decide (1 ≤ z ≤ 25)%Z then Ok dtype
      else if decide (z = 296)%Z then Ok (ua_NodeId 22)
      else Raise UaError
  | _ => Raise UaError
  end.

Definition py_str (v : Value) : string :=
  match v with
  | VInt z => pretty z
  | VStr s => s
  | VBool true => "True"
  | VBool false => "False"
  | VGuid g => g
  | VOther s => s
  | VNodeId n => NodeId_to_string n
  | _ => EmptyString
  end.

(** ASCII text only. *)
Definition utf8_decode (b : list byte) : result string :=
  if decide (Forall (fun x => (Byte.to_N x < 128)%N) b)
  then Ok (string_of_list_byte b) else Raise UnicodeDecodeError.

Definition env : Env :=
  mkEnv NodeId_to_string QualifiedName_to_string NodeId_lt
        ObjectIdNames ObjectIds get_base_data_type py_str utf8_decode.

(** A node with nothing but its id, browse name and references. *)
Definition plain_node (n : NodeId) (bn : QualifiedName)
    (refs : list ReferenceDescription) : Node :=
  mkNode n Object bn (mkLocalizedText (Some (qn_Name bn))) None None refs
         None (ua_NodeId 24) (-1) [] VNone.


Definition LocalizedText_value (locale text : string) : Value :=
  VStruct [("Encoding", "Byte", VInt 3);
           ("Locale", "String", VStr locale);
           ("Text", "String", VStr text)].



(** A value of the members of [Argument] that declares the description
    first. *)
Definition members_description_first : list (string * string * Value) :=
  [("Description", "LocalizedText", LocalizedText_value "en" "d");
   ("Name", "String", VStr "x");
   ("DataType", "NodeId", VNodeId (ua_NodeId 6));
   ("ValueRank", "Int32", VInt (-1));
   ("ArrayDimensions", "ListOfUInt32", VList [])].

Definition argument_description_first : Value :=
  VStruct members_description_first.

(** The Objects folder with one reference whose type lives in namespace 2. *)
Definition objects_folder : Node :=
  plain_node (ua_NodeId 85) (mkQualifiedName 0 "Objects")
    [mkRef (mkNodeId 2 (Numeric 1001)) true (ua_NodeId 84)].

(** An exporter whose index map sends namespace 2 to 1. *)
Definition exporter_2_to_1 : Serializer.Exporter :=
  Serializer.mkExporter ∅ (<[2 := 1]> {[0 := 0]})
    (Serializer.etree Serializer.XmlExporter_init).

(** An inverse reference of a type of namespace 2 that the id table does
    not know. *)
Definition custom_ref : ReferenceDescription :=
  mkRef (mkNodeId 2 (Numeric 1001)) false (mkNodeId 2 (Numeric 5)).

Definition custom_node : Node :=
  plain_node (mkNodeId 2 (Numeric 1)) (mkQualifiedName 2 "Pump") [custom_ref].

(** The definition [Name: String, Value: Int32 (optional)]. *)
Definition name_value_fields : list StructureField :=
  [mkStructureField "Name" (ua_NodeId 12) (-1) [] false;
   mkStructureField "Value" (ua_NodeId 6) (-1) [] true].

Definition name_value_type : Node :=
  mkNode (mkNodeId 2 (Numeric 3000)) DataType (mkQualifiedName 2 "NameValue")
         (mkLocalizedText (Some "NameValue")) None None []
         (Some (StructureDefinition name_value_fields)) (ua_NodeId 24) (-1) [] VNone.

(** A store with a NodeId of namespace 2 at 0, a QualifiedName of
    namespace 2 at 1, and a NodeId of namespace 7 at 2. *)
Definition heap : gmap nat Store.PyObject :=
  <[2 := Store.ONodeId (mkNodeId 7 (Numeric 9))]>
    (<[1 := Store.OQualifiedName (mkQualifiedName 2 "Pump")]>
       {[0 := Store.ONodeId (mkNodeId 2 (Numeric 5))]}).

End Example.

(** ** Values written with [str] *)

(** A value that is not [None], bytes, a list or tuple, or an object
    with [ua_types]: what [_val_to_etree] writes with [str]. *)
Definition is_plain (val : Value) : bool :=
  match val with
  | VBool _ | VInt _ | VStr _ | VNodeId _ | VGuid _ | VOther _ => true
  | VNone | VBytes _ | VList _ | VStruct _ => false
  end.

(** ** The node classes and the whole export *)

Module NodeSet.
Import Serializer.

(** The attributes that the [add_etree_...] methods read with
    [node.read_attribute]. *)
Inductive AttributeIds : Type :=
  | EventNotifier | IsAbstract | AccessLevel | UserAccessLevel
  | MinimumSamplingInterval | Historizing | Executable | UserExecutable.

(** A node with its attributes: [read_attribute a] is
    [(await node.read_attribute(a)).Value.Value], and [read_InverseName]
    is the [InverseName], [None] when [var] or [var.Value.Value] is. *)
Record AttrNode : Type := mkAttrNode {
  node :> Node;
  read_attribute : AttributeIds → Value;
  read_InverseName : option LocalizedText
}.

(** [v == n] for an integer [n]: [True] is 1 and [False] is 0; a string,
    bytes, a list, a structure and [None] equal no integer, and neither
    does a [VOther], which stands for no number. *)
Definition py_eq_int (v : Value) (n : Z) : bool :=
  match v with
  | VInt z => (z =? n)%Z
  | VBool b => (Z.b2z b =? n)%Z
  | _ => false
  end.

(** [v is False] *)
Definition is_False (v : Value) : bool :=
  match v with VBool false => true | _ => false end.

(** [ua.AccessLevel.CurrentRead.mask] *)
Definition CurrentRead_mask : Z := 1.

(** The tag of the element of a node class; [None] for a class that
    [node_to_etree] does not export. *)
Definition class_tag (c : NodeClass) : option string :=
  match c with
  | Object => Some "UAObject"
  | ObjectType => Some "UAObjectType"
  | Variable_ => Some "UAVariable"
  | VariableType => Some "UAVariableType"
  | ReferenceType => Some "UAReferenceType"
  | DataType => Some "UADataType"
  | Method => Some "UAMethod"
  | Unspecified => None
  end.

(** What a method that adds a node leaves behind: one more child of the
    root, with the tag [t]; the index map as it was; no alias lost. *)
Definition added (t : string) (self self' : Exporter) : Prop :=
  _addr_idx_to_xml_idx self' = _addr_idx_to_xml_idx self
  ∧ (∀ k, is_Some (aliases self !! k) → is_Some (aliases self' !! k))
  ∧ ∃ node_el, etree self' = append (etree self) node_el ∧ tag node_el = t.

Section export.
Context (env : Env).

(** The end of every [add_etree_...]: the node element is a child of the
    root, and the alias dict is the one the method has reached. *)
Definition finish (self : Exporter) (aliases : gmap NodeId string)
    (node_el : Element) : Exporter :=
  mkExporter aliases (_addr_idx_to_xml_idx self) (append (etree self) node_el).

Definition add_etree_object (self : Exporter) (node : AttrNode) : Exporter :=
  let obj_el := _add_node_common env self "UAObject" node in
  let var := read_attribute node EventNotifier in
  let obj_el := if py_eq_int var 0 then obj_el
                else set_attrib obj_el "EventNotifier" (py_str env var) in
  let '(obj_el, aliases) := _add_ref_els env self obj_el node in
  finish self aliases obj_el.

Definition add_etree_object_type (self : Exporter) (node : AttrNode) : Exporter :=
  let obj_el := _add_node_common env self "UAObjectType" node in
  let obj_el := if truthy (read_attribute node IsAbstract)
                then set_attrib obj_el "IsAbstract" "true" else obj_el in
  let '(obj_el, aliases) := _add_ref_els env self obj_el node in
  finish self aliases obj_el.

(** [accesslevel not in (0, ua.AccessLevel.CurrentRead.mask)] *)
Definition not_default (accesslevel : Value) : bool :=
  negb (py_eq_int accesslevel 0 || py_eq_int accesslevel CurrentRead_mask).

Definition add_etree_variable (self : Exporter) (node : AttrNode)
  : result Exporter :=
  let var_el := _add_node_common env self "UAVariable" node in
  let '(var_el, aliases) := _add_ref_els env self var_el node in
  let self1 := mkExporter aliases (_addr_idx_to_xml_idx self) (etree self) in
  '(self2, var_el) ← add_variable_common env self1 node var_el;
  let accesslevel := read_attribute node AccessLevel in
  let useraccesslevel := read_attribute node UserAccessLevel in
  let var_el := if not_default accesslevel
                then set_attrib var_el "AccessLevel" (py_str env accesslevel)
                else var_el in
  let var_el := if not_default useraccesslevel
                then set_attrib var_el "UserAccessLevel" (py_str env useraccesslevel)
                else var_el in
  let var := read_attribute node MinimumSamplingInterval in
  let var_el := if truthy var
                then set_attrib var_el "MinimumSamplingInterval" (py_str env var)
                else var_el in
  let var_el := if truthy (read_attribute node Historizing)
                then set_attrib var_el "Historizing" "true" else var_el in
  Ok (finish self (Serializer.aliases self2) var_el).

Definition add_etree_variable_type (self : Exporter) (node : AttrNode)
  : result Exporter :=
  let var_el := _add_node_common env self "UAVariableType" node in
  '(self1, var_el) ← add_variable_common env self node var_el;
  let var_el := if truthy (read_attribute node IsAbstract)
                then set_attrib var_el "IsAbstract" "true" else var_el in
  let '(var_el, aliases) := _add_ref_els env self1 var_el node in
  Ok (finish self aliases var_el).

Definition add_etree_method (self : Exporter) (node : AttrNode) : Exporter :=
  let obj_el := _add_node_common env self "UAMethod" node in
  let obj_el := if is_False (read_attribute node Executable)
                then set_attrib obj_el "Executable" "false" else obj_el in
  let obj_el := if is_False (read_attribute node UserExecutable)
                then set_attrib obj_el "UserExecutable" "false" else obj_el in
  let '(obj_el, aliases) := _add_ref_els env self obj_el node in
  finish self aliases obj_el.

Definition add_etree_reference_type (self : Exporter) (obj : AttrNode)
  : Exporter :=
  let obj_el := _add_node_common env self "UAReferenceType" obj in
  let '(obj_el, aliases) := _add_ref_els env self obj_el obj in
  let obj_el :=
    match read_InverseName obj with
    | Some (mkLocalizedText (Some text)) => _add_sub_el obj_el "InverseName" (Some text)
    | _ => obj_el
    end in
  finish self aliases obj_el.

Definition node_to_etree (self : Exporter) (node : AttrNode) : result Exporter :=
  match read_node_class node with
  | Object => Ok (add_etree_object self node)
  | ObjectType => Ok (add_etree_object_type self node)
  | Variable_ => add_etree_variable self node
  | VariableType => add_etree_variable_type self node
  | ReferenceType => Ok (add_etree_reference_type self node)
  | DataType => Ok (add_etree_datatype env self node)
  | Method => Ok (add_etree_method self node)
  | Unspecified => Ok self
  end.

Definition _add_namespace_uri_els (self : Exporter) (uris : list string)
  : Exporter :=
  let nuris_el :=
    foldl (fun nuris_el uri => _add_sub_el nuris_el "Uri" (Some uri))
          (Element_new "NamespaceUris") uris in
  mkExporter (aliases self) (_addr_idx_to_xml_idx self)
             (insert_child 0 (etree self) nuris_el).

(** [_add_namespaces] on the exporter; [ns_array] is
    [await self.server.get_namespace_array()]. *)
Definition _add_namespaces (self : Exporter) (nodes : list AttrNode)
    (uris : option (list string)) (ns_array : list string) : result Exporter :=
  '(d, ns_to_export) ← Namespaces._add_namespaces (node <$> nodes) uris ns_array;
  Ok (_add_namespace_uri_els (mkExporter (aliases self) d (etree self)) ns_to_export).

Definition build_etree (self : Exporter) (node_list : list AttrNode)
    (uris : option (list string)) (ns_array : list string) : result Exporter :=
  self ← _add_namespaces self node_list uris ns_array;
  self ← foldM node_to_etree self node_list;
  _add_alias_els env self.

End export.
End NodeSet.

(** ** Pretty printing: [indent] *)

Module Pretty.

(** An element as [indent] sees it: with the [tail], the text after the
    end tag. *)
Inductive Elem : Type :=
  mkElem (e_tag : string) (e_attrib : list (string * string))
         (e_text e_tail : option string) (e_children : list Elem).

Definition e_tail (e : Elem) : option string :=
  match e with mkElem _ _ _ tl _ => tl end.

(** The element of the exporter, which has no tails yet. *)
Fixpoint of_Element (e : Element) : Elem :=
  match e with
  | mkElement t a x c => mkElem t a x None (of_Element <$> c)
  end.

(** ["\n"] *)
Definition newline : string := String (Ascii.ascii_of_nat 10) EmptyString.

(** [level * "  "] *)
Fixpoint spaces (level : nat) : string :=
  match level with
  | 0 => EmptyString
  | S n => "  " +:+ spaces n
  end.

(** [f] on the last item of a list. *)
Fixpoint on_last {A} (f : A → A) (l : list A) : list A :=
  match l with
  | [] => []
  | [x] => [f x]
  | x :: l' => x :: on_last f l'
  end.

Section indent.
(** [str.strip] *)
Context (strip : string → string).

(** [not s or not s.strip()] *)
Definition blank (s : option string) : bool :=
  match s with
  | None => true
  | Some s => bool_decide (s = EmptyString) || bool_decide (strip s = EmptyString)
  end.

(** [if not elem.tail or not elem.tail.strip(): elem.tail = i] *)
Definition set_blank_tail (i : string) (elem : Elem) : Elem :=
  match elem with
  | mkElem t a x tl c => mkElem t a x (if blank tl then Some i else tl) c
  end.

(** [indent(elem, level)]: after the loop over the children, [elem] is
    the last child, and it is the tail of that child that the last test
    sets. *)
Fixpoint indent (elem : Elem) (level : nat) {struct elem} : Elem :=
  match elem with
  | mkElem t a x tl c =>
      let i := newline +:+ spaces level in
      match c with
      | [] => mkElem t a x (if negb (level =? 0) && blank tl then Some i else tl) []
      | _ :: _ =>
          let x := if blank x then Some (i +:+ "  ") else x in
          let tl := if blank tl then Some i else tl in
          let c := (fun child => indent child (S level)) <$> c in
          mkElem t a x tl (on_last (set_blank_tail i) c)
      end
  end.

(** An element without the texts and tails that are empty or white
    space only. *)
Fixpoint content (e : Elem) : Elem :=
  match e with
  | mkElem t a x tl c =>
      mkElem t a (if blank x then None else x) (if blank tl then None else tl)
             (content <$> c)
  end.

(** The strings that [indent] writes are white space: [strip] leaves
    nothing of them. *)
Definition strips_indentation : Prop :=
  ∀ level, strip (newline +:+ spaces level) = EmptyString
           ∧ strip ((newline +:+ spaces level) +:+ "  ") = EmptyString.

End indent.
End Pretty.

(** ** More of the example address space *)

Module ExampleMore.

(** The type [ns=2;i=3001] is an enumeration; the other types are as in
    [Example]. *)
Definition get_base_data_type (dtype : NodeId) : result NodeId :=
  if decide (dtype = mkNodeId 2 (Numeric 3001))
  then Ok (ua_NodeId ObjectIds_.Enumeration)
  else Example.get_base_data_type dtype.

Definition env : Env :=
  mkEnv Example.NodeId_to_string Example.QualifiedName_to_string Example.NodeId_lt
        Example.ObjectIdNames Example.ObjectIds get_base_data_type
        Example.py_str Example.utf8_decode.

(** White space as [str.isspace] has it on ASCII: tab to carriage
    return, the four separators and the space. *)
Definition is_space (c : ascii) : bool :=
  let n := Ascii.nat_of_ascii c in
  ((9 <=? n) && (n <=? 13)) || ((28 <=? n) && (n <=? 32)).

Fixpoint lstrip (l : list ascii) : list ascii :=
  match l with
  | c :: l' => if is_space c then lstrip l' else l
  | [] => []
  end.

(** [s.strip()] on ASCII text. *)
Definition strip (s : string) : string :=
  string_of_list_ascii (rev (lstrip (rev (lstrip (list_ascii_of_string s))))).

(** The attributes of a node that has the default of every attribute. *)
Definition default_attributes (a : NodeSet.AttributeIds) : Value :=
  match a with
  | NodeSet.EventNotifier | NodeSet.MinimumSamplingInterval => VInt 0
  | NodeSet.AccessLevel | NodeSet.UserAccessLevel => VInt 1
  | NodeSet.IsAbstract | NodeSet.Historizing => VBool false
  | NodeSet.Executable | NodeSet.UserExecutable => VBool true
  end.

(** The object [Example.custom_node] with its attributes. *)
Definition pump : NodeSet.AttrNode :=
  NodeSet.mkAttrNode Example.custom_node default_attributes None.

(** An Int32 variable of the pump, with the value 7. *)
Definition speed : NodeSet.AttrNode :=
  NodeSet.mkAttrNode
    (mkNode (mkNodeId 2 (Numeric 10)) Variable_ (mkQualifiedName 2 "Speed")
            (mkLocalizedText (Some "Speed")) None (Some (mkNodeId 2 (Numeric 1)))
            [mkRef (ua_NodeId 40) true (ua_NodeId 63)]
            None (ua_NodeId 6) (-1) [] (VInt 7))
    default_attributes None.

(** A view, which [node_to_etree] does not export. *)
Definition view : NodeSet.AttrNode :=
  NodeSet.mkAttrNode
    (mkNode (mkNodeId 2 (Numeric 20)) Unspecified (mkQualifiedName 2 "View")
            (mkLocalizedText (Some "View")) None None [] None (ua_NodeId 24) (-1) [] VNone)
    default_attributes None.

(** An enumeration data type with two fields. *)
Definition colour : Node :=
  mkNode (mkNodeId 2 (Numeric 3001)) DataType (mkQualifiedName 2 "Colour")
         (mkLocalizedText (Some "Colour")) None None []
         (Some (EnumDefinition [mkEnumField "Red" 0; mkEnumField "Green" 1]))
         (ua_NodeId 24) (-1) [] VNone.

Definition namespace_array : list string :=
  ["http://opcfoundation.org/UA/"; "urn:server"; "urn:pumps"].

(** An exporter with two aliases and a root that has its namespace
    element. *)
Definition exporter_with_aliases : Serializer.Exporter :=
  Serializer.mkExporter
    (<[ua_NodeId 47 := "HasComponent"]> (<[ua_NodeId 6 := "Int32"]> ∅))
    (<[2 := 1]> {[0 := 0]})
    (mkElement "UANodeSet" [] None [mkElement "NamespaceUris" [] None []]).

End ExampleMore.

(** * Properties *)

Set Warnings "-clear-no-such-hyp".

(** ** Elements *)

Module ElementFacts.

Lemma dict_get_set d k v : dict_get (dict_set d k v) k = Some v.
Proof.
  induction d as [|[k' v'] d IH]; simpl.
  - by rewrite decide_True.
  - destruct (decide (k' = k)); simpl.
    + by rewrite decide_True.
    + by rewrite decide_False.
Qed.

Lemma dict_get_set_ne d k k' v : k ≠ k' → dict_get (dict_set d k v) k' = dict_get d k'.
Proof.
  intros Hne. induction d as [|[k0 v0] d IH]; simpl.
  - by rewrite decide_False.
  - destruct (decide (k0 = k)) as [->|]; simpl.
    + by rewrite !decide_False.
    + destruct (decide (k0 = k')); [done|apply IH].
Qed.

Lemma attrib_set_attrib e k v : attrib (set_attrib e k v) = dict_set (attrib e) k v.
Proof. by destruct e. Qed.
Lemma tag_set_attrib e k v : tag (set_attrib e k v) = tag e.
Proof. by destruct e. Qed.
Lemma text_set_attrib e k v : text (set_attrib e k v) = text e.
Proof. by destruct e. Qed.
Lemma children_set_attrib e k v : children (set_attrib e k v) = children e.
Proof. by destruct e. Qed.
Lemma attrib_set_text e s : attrib (set_text e s) = attrib e.
Proof. by destruct e. Qed.
Lemma tag_set_text e s : tag (set_text e s) = tag e.
Proof. by destruct e. Qed.
Lemma text_set_text e s : text (set_text e s) = Some s.
Proof. by destruct e. Qed.
Lemma children_set_text e s : children (set_text e s) = children e.
Proof. by destruct e. Qed.
Lemma children_append e c : children (append e c) = children e ++ [c].
Proof. by destruct e. Qed.
Lemma tag_append e c : tag (append e c) = tag e.
Proof. by destruct e. Qed.
Lemma attrib_append e c : attrib (append e c) = attrib e.
Proof. by destruct e. Qed.
Lemma text_append e c : text (append e c) = text e.
Proof. by destruct e. Qed.

Lemma add_children_nil el : add_children el [] = el.
Proof. destruct el. simpl. by rewrite app_nil_r. Qed.

Lemma add_children_app el k1 k2 :
  add_children (add_children el k1) k2 = add_children el (k1 ++ k2).
Proof. destruct el. simpl. by rewrite app_assoc. Qed.

Lemma append_add_children el e : append el e = add_children el [e].
Proof. by destruct el. Qed.

Lemma tag_add_children el kids : tag (add_children el kids) = tag el.
Proof. by destruct el. Qed.

End ElementFacts.

(** ** The namespace remapper *)

Module NamespacesFacts.
Import Namespaces.

Lemma elem_of_append_new idxs i j :
  j ∈ append_new idxs i ↔ j ∈ idxs ∨ (j = i ∧ i ≠ 0).
Proof.
  unfold append_new. case_decide as H.
  - rewrite elem_of_app, list_elem_of_singleton. naive_solver.
  - split; [auto|]. intros [?|[-> ?]]; [done|].
    destruct (decide (i ∈ idxs)); [done|]. exfalso. apply H. done.
Qed.

Lemma NoDup_append_new idxs i : NoDup idxs → NoDup (append_new idxs i).
Proof.
  intros Hnd. unfold append_new. case_decide as H; [|done].
  apply NoDup_app. split_and!; [done| |apply NoDup_singleton].
  intros x Hx Hx'. apply list_elem_of_singleton in Hx' as ->. naive_solver.
Qed.

Lemma elem_of_foldl_append_new l idxs j :
  j ∈ foldl append_new idxs l ↔ j ∈ idxs ∨ (j ∈ l ∧ j ≠ 0).
Proof.
  revert idxs. induction l as [|i l IH]; intros idxs; simpl.
  - set_solver.
  - rewrite IH, elem_of_append_new, elem_of_cons. naive_solver.
Qed.

Lemma NoDup_foldl_append_new l idxs :
  NoDup idxs → NoDup (foldl append_new idxs l).
Proof.
  revert idxs. induction l as [|i l IH]; intros idxs Hnd; simpl; [done|].
  apply IH, NoDup_append_new, Hnd.
Qed.

Lemma elem_of_list_set l j : j ∈ list_set l ↔ j ∈ l.
Proof. unfold list_set. rewrite elem_of_elements, elem_of_list_to_set. done. Qed.

Lemma elem_of_harvest_from nodes idxs j :
  j ∈ harvest_from idxs nodes ↔
  j ∈ idxs ∨ (j ≠ 0 ∧ ∃ node, node ∈ nodes ∧ j ∈ node_idxs node).
Proof.
  revert idxs. induction nodes as [|n nodes IH]; intros idxs; simpl.
  - split; [auto|]. intros [?|(_ & ? & H & _)]; [done|]. by apply elem_of_nil in H.
  - unfold harvest_from in *. simpl. rewrite IH, elem_of_foldl_append_new, elem_of_list_set.
    split.
    + intros [[?|[? ?]]|(? & node & ? & ?)]; [by left| |].
      * right. split; [done|]. exists n. split; [left|done].
      * right. split; [done|]. exists node. split; [by right|done].
    + intros [?|(? & node & Hin & ?)]; [by left; left|].
      apply elem_of_cons in Hin as [->|Hin]; [left; right; done|].
      right. eauto.
Qed.

Lemma NoDup_harvest_from nodes idxs :
  NoDup idxs → NoDup (harvest_from idxs nodes).
Proof.
  revert idxs. induction nodes as [|n nodes IH]; intros idxs Hnd; simpl; [done|].
  apply IH, NoDup_foldl_append_new, Hnd.
Qed.

Lemma elem_of_node_idxs node j :
  j ∈ node_idxs node ↔
  j = NamespaceIndex (nodeid node) ∨
  j = qn_NamespaceIndex (read_browse_name node) ∨
  ∃ ref, ref ∈ get_references node ∧ j = NamespaceIndex (ref_NodeId ref).
Proof.
  unfold node_idxs. rewrite !elem_of_app, !list_elem_of_singleton, list_elem_of_fmap.
  naive_solver.
Qed.


Lemma filter_none {A} (P : A → Prop) `{∀ x, Decision (P x)} (l : list A) :
  (∀ x, x ∈ l → ¬ P x) → filter P l = [].
Proof.
  induction l as [|a l IH]; intros Hl; [done|].
  rewrite filter_cons_False; [|apply Hl; left].
  apply IH. intros x Hx. apply Hl. by right.
Qed.

Lemma make_idx_loop_None l len d k i :
  d !! i = None → i ∉ l ∨ len ≤ i → make_idx_loop len d k l !! i = None.
Proof.
  revert d k. induction l as [|a l IH]; intros d k Hd Hi; simpl; [done|].
  case_decide; [done|]. apply IH.
  - rewrite lookup_insert_ne; [done|]. intros ->. destruct Hi as [Hi|Hi]; [|lia].
    apply Hi. left.
  - destruct Hi as [Hi|Hi]; [left|by right]. intros ?. apply Hi. by right.
Qed.

Lemma make_idx_loop_mono l len d k i :
  is_Some (d !! i) → is_Some (make_idx_loop len d k l !! i).
Proof.
  revert d k. induction l as [|a l IH]; intros d k Hd; simpl; [done|].
  case_decide; [done|]. apply IH.
  destruct (decide (a = i)) as [->|].
  - rewrite lookup_insert_eq. eauto.
  - by rewrite lookup_insert_ne.
Qed.

Lemma make_idx_loop_Some l len d k i :
  StronglySorted le l → i ∈ l → i < len →
  is_Some (make_idx_loop len d k l !! i).
Proof.
  revert d k. induction l as [|a l IH]; intros d k Hs Hi Hlen; simpl.
  - by apply elem_of_nil in Hi.
  - apply StronglySorted_inv in Hs as [Hs Hall].
    case_decide as Ha.
    + exfalso. apply elem_of_cons in Hi as [->|Hi]; [lia|].
      rewrite Forall_forall in Hall. specialize (Hall _ Hi). lia.
    + apply elem_of_cons in Hi as [->|Hi].
      * apply make_idx_loop_mono. rewrite lookup_insert_eq. eauto.
      * by apply IH.
Qed.

(** What the loop does on a list in strictly ascending order: the
    entries below [len] get the next numbers, nothing else changes. *)
Lemma make_idx_loop_spec l len d k :
  StronglySorted lt l → (∀ i, i ∈ l → d !! i = None) →
  (∀ j i, in_range len l !! j = Some i →
          make_idx_loop len d k l !! i = Some (k + j + 1)) ∧
  (∀ i, i ∉ in_range len l → make_idx_loop len d k l !! i = d !! i).
Proof.
  unfold in_range.
  revert d k. induction l as [|a l IH]; intros d k Hs Hd; simpl.
  - split; [intros j i Hj; exfalso; revert Hj; by rewrite ?filter_nil, lookup_nil|done].
  - apply StronglySorted_inv in Hs as [Hs Hall].
    rewrite Forall_forall in Hall.
    destruct (decide (len ≤ a)) as [Ha|Ha];
      [rewrite filter_cons_False by lia|rewrite filter_cons_True by lia].
    + assert (filter (fun i => i < len) l = []) as ->.
      { apply filter_none. intros x Hx. specialize (Hall _ Hx). lia. }
      split; [intros j i Hj; by rewrite lookup_nil in Hj|done].
    + assert (∀ i, i ∈ l → <[a:=k + 1]> d !! i = None) as Hd'.
      { intros i Hi. rewrite lookup_insert_ne.
        - apply Hd. by right.
        - specialize (Hall _ Hi). lia. }
      destruct (IH (<[a:=k + 1]> d) (S k) Hs Hd') as [IH1 IH2].
      split.
      * intros [|j] i Hj; simpl in Hj.
        -- injection Hj as ->. rewrite IH2.
           ++ rewrite lookup_insert_eq. f_equal. lia.
           ++ rewrite list_elem_of_filter. intros [_ Hin].
              specialize (Hall _ Hin). lia.
        -- rewrite (IH1 _ _ Hj). f_equal. lia.
      * intros i Hi. rewrite not_elem_of_cons in Hi. destruct Hi as [Hne Hi].
        rewrite (IH2 _ Hi). by rewrite lookup_insert_ne.
Qed.

Lemma StronglySorted_le_lt (l : list nat) :
  StronglySorted le l → NoDup l → StronglySorted lt l.
Proof.
  induction 1 as [|a l Hs IH Hall]; intros Hnd; constructor.
  - apply IH. by apply NoDup_cons in Hnd as [_ ?].
  - apply NoDup_cons in Hnd as [Hnotin _].
    rewrite Forall_forall in Hall |- *. intros x Hx.
    specialize (Hall _ Hx). assert (a ≠ x) by (intros ->; done). lia.
Qed.

Lemma StronglySorted_lt_lookup (l : list nat) p q i j :
  StronglySorted lt l → l !! p = Some i → l !! q = Some j → p < q → i < j.
Proof.
  intros Hs. revert p q. induction Hs as [|a l Hs IH Hall]; intros p q Hp Hq Hpq.
  - by rewrite lookup_nil in Hp.
  - destruct q as [|q]; [lia|]. simpl in Hq. destruct p as [|p]; simpl in Hp.
    + injection Hp as ->. rewrite Forall_forall in Hall.
      apply Hall. by eapply list_elem_of_lookup_2.
    + eapply IH; eauto. lia.
Qed.

Lemma sorted_idxs (idxs : list nat) :
  NoDup idxs → StronglySorted lt (merge_sort Nat.le idxs).
Proof.
  intros Hnd. apply StronglySorted_le_lt.
  - apply (StronglySorted_merge_sort Nat.le).
  - by rewrite merge_sort_Permutation.
Qed.

Lemma in_range_sorted len (idxs : list nat) :
  in_range len (merge_sort Nat.le idxs) ≡ₚ in_range len idxs.
Proof. unfold in_range. by rewrite merge_sort_Permutation. Qed.

Lemma StronglySorted_filter_lt (P : nat → Prop) `{∀ x, Decision (P x)} l :
  StronglySorted lt l → StronglySorted lt (filter P l).
Proof.
  induction 1 as [|a l Hs IH Hall]; [constructor|].
  rewrite filter_cons. case_decide; [|done]. constructor; [done|].
  rewrite Forall_forall in Hall |- *. intros x Hx.
  apply list_elem_of_filter in Hx as [_ Hx]. by apply Hall.
Qed.

(** The index map of a list of distinct indices other than 0. *)
Lemma make_idx_dict_remaps idxs ns_array :
  NoDup idxs → 0 ∉ idxs →
  remaps (in_range (length ns_array) idxs) (_make_idx_dict idxs ns_array).
Proof.
  intros Hnd H0. unfold _make_idx_dict.
  generalize (length ns_array). intros len. set (l := merge_sort Nat.le idxs).
  assert (StronglySorted lt l) as Hs by by apply sorted_idxs.
  assert (0 ∉ l) as H0l by (unfold l; by rewrite merge_sort_Permutation).
  assert (∀ i, i ∈ l → ({[0 := 0]} : gmap nat nat) !! i = None) as Hd.
  { intros i Hi. apply lookup_singleton_ne. intros <-. done. }
  destruct (make_idx_loop_spec l len {[0 := 0]} 0 Hs Hd) as [Hin Hout].
  set (d := make_idx_loop len {[0 := 0]} 0 l) in *.
  set (keys := in_range len l) in *.
  assert (keys ≡ₚ in_range len idxs) as Hperm by apply in_range_sorted.
  assert (StronglySorted lt keys) as Hks by by apply StronglySorted_filter_lt.
  assert (0 ∉ keys) as H0k.
  { unfold keys, in_range. rewrite list_elem_of_filter. naive_solver. }
  assert (d !! 0 = Some 0) as Hd0.
  { rewrite (Hout 0 H0k). apply lookup_singleton_eq. }
  assert (∀ i x, d !! i = Some x →
            (i = 0 ∧ x = 0) ∨ (∃ j, keys !! j = Some i ∧ x = j + 1)) as Hchar.
  { intros i x Hx. destruct (decide (i ∈ keys)) as [Hi|Hi].
    - right. apply list_elem_of_lookup in Hi as [j Hj]. exists j. split; [done|].
      rewrite (Hin _ _ Hj) in Hx. injection Hx as <-. lia.
    - left. rewrite (Hout _ Hi) in Hx.
      apply lookup_singleton_Some in Hx as [<- <-]. done. }
  assert (∀ i, i ∈ in_range len idxs ↔ i ∈ keys) as Hmem.
  { intros i. by rewrite <- Hperm. }
  assert (length (in_range len idxs) = length keys) as Hlen.
  { by rewrite <- Hperm. }
  unfold remaps. rewrite Hlen. setoid_rewrite Hmem. split_and!.
  - done.
  - intros i. split.
    + intros [x Hx]. destruct (Hchar _ _ Hx) as [[-> _]|(j & Hj & _)]; [by left|].
      right. by eapply list_elem_of_lookup_2.
    + intros [->|Hi]; [eauto|].
      apply list_elem_of_lookup in Hi as [j Hj]. rewrite (Hin _ _ Hj). eauto.
  - intros x. split.
    + intros [i Hx]. destruct (Hchar _ _ Hx) as [[_ ->]|(j & Hj & ->)]; [lia|].
      apply lookup_lt_Some in Hj. lia.
    + intros Hx. destruct x as [|j]; [eauto|].
      destruct (lookup_lt_is_Some_2 keys j) as [i Hj]; [lia|].
      exists i. rewrite (Hin _ _ Hj). f_equal. lia.
  - intros i j x Hi Hj.
    destruct (Hchar _ _ Hi) as [[-> ->]|(p & Hp & ->)];
      destruct (Hchar _ _ Hj) as [[-> ?]|(q & Hq & ?)]; try done; try lia.
    assert (p = q) as -> by lia. congruence.
  - intros i j x y Hi Hj Hij.
    destruct (Hchar _ _ Hi) as [[-> ->]|(p & Hp & ->)];
      destruct (Hchar _ _ Hj) as [[-> ->]|(q & Hq & ->)]; try lia.
    destruct (decide (p < q)); [lia|]. exfalso.
    destruct (decide (p = q)) as [->|]; [assert (i = j) by congruence; lia|].
    assert (j < i); [|lia].
    eapply (StronglySorted_lt_lookup keys q p); eauto. lia.
Qed.


Lemma index_lt ns_array uri i : index ns_array uri = Some i → i < length ns_array.
Proof.
  unfold index. intros H. apply fmap_Some in H as ([j u] & Hf & ->).
  apply list_find_Some in Hf as (Hj & _). simpl. by eapply lookup_lt_Some.
Qed.

Lemma elem_of_add_idxs_from_uris uris ns_array idxs j :
  j ∈ _add_idxs_from_uris idxs uris ns_array ↔
  j ∈ idxs ∨ ∃ uri, uri ∈ uris ∧ index ns_array uri = Some j.
Proof.
  unfold _add_idxs_from_uris.
  revert idxs. induction uris as [|u uris IH]; intros idxs; simpl.
  - split; [auto|]. intros [?|(? & H & _)]; [done|]. by apply elem_of_nil in H.
  - rewrite IH. clear IH. split.
    + intros [Hj|(uri & ? & ?)].
      * destruct (index ns_array u) as [i|] eqn:Hi; [|by left].
        case_decide; [|by left].
        apply elem_of_app in Hj as [?|Hj]; [by left|].
        apply list_elem_of_singleton in Hj as ->. right. exists u.
        split; [apply elem_of_cons; by left|done].
      * right. exists uri. split; [by right|done].
    + intros [Hj|(uri & Hin & Hi)].
      * left. destruct (index ns_array u); [|done]. case_decide; [|done].
        apply elem_of_app. by left.
      * apply elem_of_cons in Hin as [->|Hin]; [|right; eauto].
        left. rewrite Hi. case_decide as Hd.
        -- apply elem_of_app. right. apply list_elem_of_singleton. done.
        -- destruct (decide (j ∈ idxs)); [done|]. contradiction.
Qed.

Lemma NoDup_add_idxs_from_uris uris ns_array idxs :
  NoDup idxs → NoDup (_add_idxs_from_uris idxs uris ns_array).
Proof.
  unfold _add_idxs_from_uris.
  revert idxs. induction uris as [|u uris IH]; intros idxs Hnd; simpl; [done|].
  apply IH. destruct (index ns_array u); [|done]. case_decide; [|done].
  apply NoDup_app. split_and!; [done| |apply NoDup_singleton].
  intros x Hx Hx'. apply list_elem_of_singleton in Hx' as ->. done.
Qed.

Lemma elem_of_get_ns_idxs_of_nodes nodes j :
  j ∈ _get_ns_idxs_of_nodes nodes ↔
  j ≠ 0 ∧ ∃ node, node ∈ nodes ∧ j ∈ node_idxs node.
Proof.
  change (_get_ns_idxs_of_nodes nodes) with (harvest_from [] nodes).
  rewrite elem_of_harvest_from. split; [|auto].
  intros [H|?]; [by apply elem_of_nil in H|done].
Qed.

Lemma NoDup_get_ns_idxs_of_nodes nodes : NoDup (_get_ns_idxs_of_nodes nodes).
Proof. apply (NoDup_harvest_from nodes []). constructor. Qed.

(** Every index to export is a valid index of the table or is not 0. *)
Lemma idxs_to_export_inv nodes uris ns_array i :
  i ∈ idxs_to_export nodes uris ns_array → i ≠ 0 ∨ i < length ns_array.
Proof.
  unfold idxs_to_export. intros Hi.
  assert (i ∈ _get_ns_idxs_of_nodes nodes → i ≠ 0) as Hh.
  { rewrite elem_of_get_ns_idxs_of_nodes. tauto. }
  destruct uris as [[|u us]|]; [left; auto| |left; auto].
  apply elem_of_add_idxs_from_uris in Hi as [?|(uri & _ & Hidx)]; [left; auto|].
  right. by eapply index_lt.
Qed.

Lemma make_idx_dict_dangling idxs ns_array i :
  i ≠ 0 → length ns_array ≤ i → _make_idx_dict idxs ns_array !! i = None.
Proof.
  intros Hi Hlen. unfold _make_idx_dict. apply make_idx_loop_None; [|by right].
  by apply lookup_singleton_ne.
Qed.

Lemma make_idx_dict_in_range idxs ns_array i :
  i ∈ idxs → i < length ns_array → is_Some (_make_idx_dict idxs ns_array !! i).
Proof.
  intros Hi Hlen. unfold _make_idx_dict. apply make_idx_loop_Some; [| |done].
  - apply (StronglySorted_merge_sort Nat.le).
  - by rewrite merge_sort_Permutation.
Qed.

Lemma foldM_lookup_ok (ns_array : list string) keys acc :
  (∀ i, i ∈ keys → i < length ns_array) →
  ∃ uris,
    foldM (fun acc i => uri ← or_raise IndexError (ns_array !! i); Ok (acc ++ [uri]))
          acc keys = Ok uris.
Proof.
  revert acc. induction keys as [|k keys IH]; intros acc Hk; simpl; [eauto|].
  destruct (lookup_lt_is_Some_2 ns_array k) as [u Hu]; [apply Hk; left|].
  rewrite Hu. simpl. apply IH. intros i Hi. apply Hk. by right.
Qed.

End NamespacesFacts.

Module NamespacesClaims.
Import Namespaces NamespacesFacts.

(** The namespace of the type of a reference is not harvested: the
    reference of [Example.objects_folder] has a type of namespace 2, and
    no index is found. *)
Lemma C2_reference_type_not_harvested :
  _get_ns_idxs_of_nodes [Example.objects_folder] = [] ∧
  ¬ harvest_as_stated [Example.objects_folder] (_get_ns_idxs_of_nodes [Example.objects_folder]).
Proof.
  assert (_get_ns_idxs_of_nodes [Example.objects_folder] = []) as E by (vm_compute; reflexivity).
  split; [exact E|]. rewrite E. intros [_ H].
  assert (2 ∈ @nil nat) as Hin; [|by apply elem_of_nil in Hin].
  apply H. split; [done|]. exists Example.objects_folder. split; [left|].
  right. right. eexists. split; [left|]. left. reflexivity.
Qed.

(** C2, as the code has it: the harvested indices are, without duplicates and
    without 0, the namespace indices of the nodes' ids, of their browse
    names and of the targets of their references. *)
Theorem C2_harvested_indices (nodes : list Node) :
  NoDup (_get_ns_idxs_of_nodes nodes) ∧
  ∀ i, i ∈ _get_ns_idxs_of_nodes nodes ↔
    i ≠ 0 ∧ ∃ node, node ∈ nodes ∧
      (i = NamespaceIndex (nodeid node) ∨
       i = qn_NamespaceIndex (read_browse_name node) ∨
       ∃ ref, ref ∈ get_references node ∧ i = NamespaceIndex (ref_NodeId ref)).
Proof.
  split; [apply NoDup_get_ns_idxs_of_nodes|].
  intros i. rewrite elem_of_get_ns_idxs_of_nodes.
  by setoid_rewrite elem_of_node_idxs.
Qed.

(** An index that is not below the length of the namespace table is
    not a key of the index map. *)
Lemma C4_dangling_index_not_mapped :
  NoDup [5] ∧ (0 ∉ [5]) ∧ (¬ remaps [5] (_make_idx_dict [5] ["a"; "b"])).
Proof.
  split_and!.
  - apply NoDup_singleton.
  - by intros ?%list_elem_of_singleton.
  - intros (_ & Hdom & _).
    assert (is_Some (_make_idx_dict [5] ["a"; "b"] !! 5)) as [x Hx].
    { apply Hdom. right. left. }
    vm_compute in Hx. discriminate.
Qed.

(** C4, as the code has it: for distinct indices other than 0, the index map sends
    0 to 0 and is a bijection from 0 and the indices below the length of
    the namespace table onto 0..N, N the number of these indices, and it
    is strictly increasing. *)
Theorem C4_index_map_bijection (idxs : list nat) (ns_array : list string) :
  NoDup idxs → 0 ∉ idxs →
  remaps (in_range (length ns_array) idxs) (_make_idx_dict idxs ns_array).
Proof. apply make_idx_dict_remaps. Qed.

(** The indices 5, 2 and 7 with a table of six namespaces. *)
Lemma C4_index_map_bijection_witness :
  remaps (in_range 6 [5; 2; 7]) (_make_idx_dict [5; 2; 7] ["a"; "b"; "c"; "d"; "e"; "f"]).
Proof.
  apply (C4_index_map_bijection [5; 2; 7] ["a"; "b"; "c"; "d"; "e"; "f"]).
  - apply (bool_decide_unpack _). vm_compute. exact I.
  - apply (bool_decide_unpack _). vm_compute. exact I.
Defined.

(** C9: [_add_namespaces] returns; an index to export that is not below
    the length of the namespace table is not a key of the index map, and
    one that is below it is a key. *)
Theorem C9_dangling_index_excluded (nodes : list Node)
    (uris : option (list string)) (ns_array : list string) :
  ∃ ns_to_export,
    _add_namespaces nodes uris ns_array
      = Ok (_make_idx_dict (idxs_to_export nodes uris ns_array) ns_array,
            ns_to_export) ∧
    ∀ i, i ∈ idxs_to_export nodes uris ns_array →
      (length ns_array ≤ i →
         _make_idx_dict (idxs_to_export nodes uris ns_array) ns_array !! i = None) ∧
      (i < length ns_array →
         is_Some (_make_idx_dict (idxs_to_export nodes uris ns_array) ns_array !! i)).
Proof.
  unfold _add_namespaces.
  set (idxs := idxs_to_export nodes uris ns_array).
  set (d := _make_idx_dict idxs ns_array).
  destruct (foldM_lookup_ok ns_array (filter (fun i => i ≠ 0) (sorted_keys d)) [])
    as [exported Hexp].
  { intros i Hi. apply list_elem_of_filter in Hi as [Hi0 Hi].
    unfold sorted_keys in Hi. rewrite merge_sort_Permutation in Hi.
    apply elem_of_elements, elem_of_dom in Hi.
    destruct (decide (i < length ns_array)); [done|].
    unfold d in Hi. rewrite make_idx_dict_dangling in Hi by lia.
    by destruct Hi. }
  exists exported. split.
  - rewrite Hexp. reflexivity.
  - intros i Hi. split.
    + intros Hlen. apply make_idx_dict_dangling; [|done].
      destruct (idxs_to_export_inv _ _ _ _ Hi); [done|lia].
    + intros Hlen. by apply make_idx_dict_in_range.
Qed.

(** The requested URI of namespace 0 puts index 0 among the indices, and
    the map then sends 0 to 1. *)
Example requested_uri_of_namespace_0 :
  _make_idx_dict (idxs_to_export [] (Some ["a"]) ["a"; "b"]) ["a"; "b"] !! 0 = Some 1.
Proof. vm_compute. reflexivity. Qed.

End NamespacesClaims.

(** ** Base64 *)

Module Base64Facts.
Import Base64.

Lemma char_of_inv (n : N) :
  (n < 64)%N → index_of (char_of n) = Some n ∧ char_of n ≠ pad.
Proof.
  intros Hn.
  assert (Forall (fun k => index_of (char_of (N.of_nat k)) = Some (N.of_nat k)
                           ∧ char_of (N.of_nat k) ≠ pad) (seq 0 64)) as H.
  { apply (bool_decide_unpack _). vm_compute. exact I. }
  rewrite Forall_forall in H. specialize (H (N.to_nat n)).
  rewrite N2Nat.id in H. apply H. apply elem_of_seq. lia.
Qed.

Lemma sextets3_lt (a b c : N) :
  (a < 256)%N → (b < 256)%N → (c < 256)%N →
  let '(s1, s2, s3, s4) := sextets3 a b c in
  (s1 < 64 ∧ s2 < 64 ∧ s3 < 64 ∧ s4 < 64)%N.
Proof.
  intros Ha Hb Hc. unfold sextets3.
  zify. Z.to_euclidean_division_equations. lia.
Qed.

Lemma bytes3_sextets3 (a b c : N) :
  (a < 256)%N → (b < 256)%N → (c < 256)%N →
  let '(s1, s2, s3, s4) := sextets3 a b c in
  bytes3 s1 s2 s3 s4 = (a, b, c).
Proof.
  intros Ha Hb Hc. unfold sextets3, bytes3.
  f_equal; [f_equal|]; zify; Z.to_euclidean_division_equations; lia.
Qed.

Lemma bytes3_sextets3_1 (a : N) :
  (a < 256)%N →
  let '(s1, s2, _, _) := sextets3 a 0 0 in
  (bytes3 s1 s2 0 0).1.1 = a.
Proof.
  intros Ha. unfold sextets3, bytes3. simpl.
  zify; Z.to_euclidean_division_equations; lia.
Qed.

Lemma bytes3_sextets3_2 (a b : N) :
  (a < 256)%N → (b < 256)%N →
  let '(s1, s2, s3, _) := sextets3 a b 0 in
  (bytes3 s1 s2 s3 0).1 = (a, b).
Proof.
  intros Ha Hb. unfold sextets3, bytes3. simpl.
  f_equal; zify; Z.to_euclidean_division_equations; lia.
Qed.

Lemma to_N_lt (x : byte) : (Byte.to_N x < 256)%N.
Proof. pose proof (Byte.to_N_bounded x). lia. Qed.


(** Lists three elements at a time. *)
Lemma list_ind3 {A} (P : list A → Prop) :
  P [] → (∀ a, P [a]) → (∀ a b, P [a; b]) →
  (∀ a b c l, P l → P (a :: b :: c :: l)) →
  ∀ l, P l.
Proof.
  intros H0 H1 H2 H3 l.
  assert (∀ n (l : list A), length l ≤ n → P l) as H; [|by apply (H (length l))].
  clear l. induction n as [|n IH]; intros l Hl.
  - destruct l; [done|simpl in Hl; lia].
  - destruct l as [|a [|b [|c l]]]; [done..|].
    apply H3, IH. simpl in Hl. lia.
Qed.

Lemma decode_encode_chars (bs : list byte) :
  decode_chars (encode_chars bs) = Some bs.
Proof.
  induction bs as [|a|a b|a b c rest IH] using list_ind3.
  - reflexivity.
  - pose proof (to_N_lt a) as Ha.
    pose proof (sextets3_lt (Byte.to_N a) 0 0 Ha eq_refl eq_refl) as Hlt.
    pose proof (bytes3_sextets3_1 (Byte.to_N a) Ha) as Hb.
    unfold encode_chars.
    destruct (sextets3 (Byte.to_N a) 0 0) as [[[s1 s2] s3] s4].
    destruct Hlt as (H1 & H2 & _).
    unfold decode_chars.
    destruct (char_of_inv s1 H1) as [-> _]. destruct (char_of_inv s2 H2) as [-> _].
    simpl. unfold bytes3 in Hb. simpl in Hb. rewrite Hb.
    by rewrite Byte.of_to_N.
  - pose proof (to_N_lt a) as Ha. pose proof (to_N_lt b) as Hb.
    pose proof (sextets3_lt (Byte.to_N a) (Byte.to_N b) 0 Ha Hb eq_refl) as Hlt.
    pose proof (bytes3_sextets3_2 (Byte.to_N a) (Byte.to_N b) Ha Hb) as Hbs.
    unfold encode_chars.
    destruct (sextets3 (Byte.to_N a) (Byte.to_N b) 0) as [[[s1 s2] s3] s4].
    destruct Hlt as (H1 & H2 & H3 & _).
    unfold decode_chars.
    destruct (char_of_inv s1 H1) as [-> _]. destruct (char_of_inv s2 H2) as [-> _].
    destruct (char_of_inv s3 H3) as [-> Hp3].
    simpl. rewrite decide_False by (intros [? _]; done).
    unfold bytes3 in Hbs. simpl in Hbs. injection Hbs as -> ->.
    by rewrite !Byte.of_to_N.
  - pose proof (to_N_lt a) as Ha. pose proof (to_N_lt b) as Hb.
    pose proof (to_N_lt c) as Hc.
    pose proof (sextets3_lt _ _ _ Ha Hb Hc) as Hlt.
    pose proof (bytes3_sextets3 _ _ _ Ha Hb Hc) as Hbs.
    cbn [encode_chars].
    destruct (sextets3 (Byte.to_N a) (Byte.to_N b) (Byte.to_N c)) as [[[s1 s2] s3] s4].
    destruct Hlt as (H1 & H2 & H3 & H4).
    cbn [decode_chars].
    destruct (char_of_inv s1 H1) as [-> _]. destruct (char_of_inv s2 H2) as [-> _].
    destruct (char_of_inv s3 H3) as [-> Hp3]. destruct (char_of_inv s4 H4) as [-> Hp4].
    simpl. rewrite decide_False by (intros [? _]; done).
    rewrite decide_False by (intros [? _]; done).
    unfold bytes3 in Hbs. injection Hbs as -> -> ->.
    rewrite !Byte.of_to_N. simpl. by rewrite IH.
Qed.

(** Decoding the text of [b64encode] gives the bytes back. *)
Lemma b64decode_b64encode (bs : list byte) : b64decode (b64encode bs) = Some bs.
Proof.
  unfold b64decode, b64encode.
  rewrite list_ascii_of_string_of_list_ascii. apply decode_encode_chars.
Qed.

End Base64Facts.

(** ** The value codec *)

Module CodecFacts.
Import Base64 Codec Base64Facts ElementFacts.

Section facts.
Context (env : Env).

Lemma value_to_etree_VList vs el type_name dtype :
  _value_to_etree env (VList vs) el type_name dtype =
  (builtin ← is_builtin dtype;
   list_el ← foldM (fun list_el nval => _value_to_etree env nval list_el type_name dtype)
             (Element_new (if builtin : bool then "uax:ListOf" +:+ type_name
                           else "uax:ListOfExtensionObject")) vs;
   Ok (append el list_el)).
Proof. reflexivity. Qed.

(** [_value_to_etree] only adds children to [el], and which children
    does not depend on [el]. *)
Lemma value_to_etree_frame val el type_name dtype :
  _value_to_etree env val el type_name dtype =
  (kids ← value_children env val type_name dtype; Ok (add_children el kids)).
Proof.
  unfold value_children.
  destruct val; try (simpl; by rewrite add_children_nil).
  8: { rewrite !value_to_etree_VList.
       destruct (is_builtin dtype) as [builtin|]; [|reflexivity]. cbn -[foldM].
       destruct (foldM _ _ vs); [|reflexivity]. cbn.
       by rewrite append_add_children. }
  all: cbn -[is_builtin val_to_etree_body foldM]; unfold extobj_to_etree_body.
  all: destruct (get_base_data_type env dtype) as [base|]; [|reflexivity].
  all: cbn -[is_builtin val_to_etree_body foldM].
  all: destruct (decide (base = _)).
  all: cbn -[is_builtin val_to_etree_body foldM].
  all: try (destruct (or_raise KeyError (ObjectIdNames env _)); [|reflexivity]).
  all: cbn -[is_builtin val_to_etree_body foldM].
  all: destruct (is_builtin _) as [[|]|]; try reflexivity.
  all: cbn -[is_builtin val_to_etree_body foldM].
  all: try (destruct (or_raise KeyError (ObjectIdNames_get env _)); [|reflexivity]).
  all: try (destruct (or_raise KeyError (ObjectIdNames env _)); [|reflexivity]).
  all: cbn -[is_builtin val_to_etree_body foldM].
  all: try (destruct (val_to_etree_body _ _ _ _ _); [|reflexivity]).
  all: try (destruct (foldM _ _ members); [|reflexivity]).
  all: cbn.
  all: by rewrite append_add_children.
Qed.

(** A loop of calls that only add children adds the children of every
    call, in the order of the list. *)
Lemma foldM_collect {A} (f : Element → A → result Element)
    (g : A → result (list Element)) (l : list A) (el : Element) :
  (∀ el x, f el x = (kids ← g x; Ok (add_children el kids))) →
  foldM f el l = (kids ← collect g l; Ok (add_children el kids)).
Proof.
  intros Hf. revert el. induction l as [|x l IH]; intros el; simpl.
  - by rewrite add_children_nil.
  - rewrite Hf. destruct (g x) as [ys|]; [|reflexivity]. simpl.
    rewrite IH. destruct (collect g l) as [zs|]; [|reflexivity]. simpl.
    by rewrite add_children_app.
Qed.

Lemma is_builtin_numeric z :
  is_builtin (mkNodeId 0 (Numeric z)) = Ok (z <=? 21)%Z.
Proof. reflexivity. Qed.

Lemma is_builtin_other_namespace dtype :
  NamespaceIndex dtype ≠ 0 → is_builtin dtype = Ok false.
Proof. intros H. unfold is_builtin. by rewrite decide_False. Qed.

(** C5, as the code has it: an array of a type whose identifier is a
    number, or whose namespace is not 0, is written as one wrapper
    element, [ListOf] and the type name for a type of namespace 0 with
    identifier at most 21 and [ListOfExtensionObject] for a type of
    namespace 0 with a greater identifier or of another namespace; the
    children of the wrapper are what the elements of the array write, in
    the order of the array, and the wrapper of an empty array has no
    children. *)
Theorem C5_array_wrapper (vs : list Value) (el : Element) (type_name : string)
    (dtype : NodeId) :
  _value_to_etree env (VList vs) el type_name dtype =
    (builtin ← is_builtin dtype;
     kids ← collect (fun v => value_children env v type_name dtype) vs;
     Ok (append el (mkElement (if builtin : bool then "uax:ListOf" +:+ type_name
                               else "uax:ListOfExtensionObject") [] None kids)))
  ∧ (∀ z, dtype = mkNodeId 0 (Numeric z) →
          is_builtin dtype = Ok (bool_decide (z ≤ 21)%Z))
  ∧ (NamespaceIndex dtype ≠ 0 → is_builtin dtype = Ok false)
  ∧ (∀ builtin, is_builtin dtype = Ok builtin →
       _value_to_etree env (VList []) el type_name dtype =
       Ok (append el (mkElement (if builtin : bool then "uax:ListOf" +:+ type_name
                                 else "uax:ListOfExtensionObject") [] None []))).
Proof.
  split_and!.
  - rewrite value_to_etree_VList.
    destruct (is_builtin dtype) as [builtin|]; [|reflexivity]. cbn -[foldM].
    rewrite (foldM_collect _ (fun v => value_children env v type_name dtype)).
    + by destruct (collect _ vs).
    + intros. apply value_to_etree_frame.
  - intros z ->. rewrite is_builtin_numeric. f_equal.
    destruct (Z.leb_spec z 21).
    + by rewrite bool_decide_eq_true_2.
    + rewrite bool_decide_eq_false_2; [done|lia].
  - apply is_builtin_other_namespace.
  - intros builtin Hb. rewrite value_to_etree_VList, Hb. reflexivity.
Qed.

(** C8: a Boolean leaf has the text [true] or [false] by the truth value
    of the value; a ByteString leaf has the base64 text of the bytes,
    from which the bytes are decoded back, and [None] is written as the
    base64 text of no bytes. *)
Theorem C8_boolean_and_bytestring_leaf :
  (∀ val el,
     _val_to_etree env val el (ua_NodeId ObjectIds_.Boolean) =
     Ok (set_text el (if truthy val then "true" else "false")))
  ∧ (∀ b el,
       _val_to_etree env (VBytes b) el (ua_NodeId ObjectIds_.ByteString) =
       Ok (set_text el (b64encode b))
       ∧ b64decode (b64encode b) = Some b)
  ∧ (∀ el,
       _val_to_etree env VNone el (ua_NodeId ObjectIds_.ByteString) =
       Ok (set_text el (b64encode []))).
Proof.
  split_and!.
  - intros val el. reflexivity.
  - intros b el. split; [reflexivity|apply b64decode_b64encode].
  - intros el. reflexivity.
Qed.

(** A loop whose turns add one child each, with a tag given by the item:
    the children added are tagged in the order of the items. *)
Lemma foldM_tags {A} (f : Element → A → result Element) (name : A → string) l :
  (∀ el a el', f el a = Ok el' → ∃ m, el' = append el m ∧ tag m = name a) →
  ∀ el el', foldM f el l = Ok el' →
    tag el' = tag el ∧ tag <$> children el' = (tag <$> children el) ++ (name <$> l).
Proof.
  intros Hf. induction l as [|a l IH]; intros el el' H; simpl in H.
  - injection H as <-. by rewrite app_nil_r.
  - destruct (f el a) as [el1|] eqn:Ha; [|done]. simpl in H.
    destruct (Hf _ _ _ Ha) as (m & -> & Hm).
    destruct (IH _ _ H) as [Ht Hc]. rewrite Ht, Hc, tag_append, children_append.
    rewrite fmap_app, <- app_assoc. simpl. by rewrite Hm.
Qed.

Lemma member_to_etree_append v el name dt el' :
  member_to_etree env v el name dt = Ok el' → ∃ m, el' = append el m.
Proof.
  destruct v; simpl;
    match goal with
    | |- (?c ≫= _) = _ → _ => destruct c as [m|]; simpl; [|done]
    end; intros H; injection H as <-; eauto.
Qed.

Lemma foldM_member_tag (members : list (string * string * Value))
    (conv : string → string) el el' :
  foldM (fun el '(name, vtype, v) =>
           dt ← NodeId_of_typename env (conv vtype);
           member_to_etree env v el name dt) el members = Ok el' →
  tag el' = tag el.
Proof.
  revert el. induction members as [|[[name vtype] v] members IH]; intros el H; simpl in H.
  - by injection H as <-.
  - destruct (NodeId_of_typename env (conv vtype)) as [dt|]; [|done]. simpl in H.
    destruct (member_to_etree env v el name dt) as [el1|] eqn:Hm; [|done]. simpl in H.
    apply member_to_etree_append in Hm as [m ->].
    rewrite (IH _ H). apply tag_append.
Qed.

Lemma val_to_etree_body_tag val el dtype el' :
  val_to_etree_body env (member_to_etree env) val el dtype = Ok el' → tag el' = tag el.
Proof.
  unfold val_to_etree_body. repeat case_decide.
  - destruct val; try done. intros Hr. injection Hr as <-. apply tag_append.
  - intros Hr. injection Hr as <-. apply tag_append.
  - intros Hr. injection Hr as <-. apply tag_set_text.
  - destruct val; try done; simpl; intros Hr; injection Hr as <-; apply tag_set_text.
  - destruct val; try (intros Hr; injection Hr as <-; by rewrite ?tag_set_text).
    + destruct (utf8_decode env b); simpl; [|done].
      intros Hr; injection Hr as <-; by rewrite ?tag_set_text.
    + apply (foldM_member_tag members (fun x => x)).
Qed.

Lemma member_to_etree_tag v el name dt el' :
  member_to_etree env v el name dt = Ok el' →
  ∃ m, el' = append el m ∧ tag m = "uax:" +:+ name.
Proof.
  assert (∀ (r : result Element),
            (∀ m, r = Ok m → tag m = "uax:" +:+ name) →
            (m ← r; Ok (append el m)) = Ok el' →
            ∃ m, el' = append el m ∧ tag m = "uax:" +:+ name) as Hbind.
  { intros [m|] Hr H; simpl in H; [|done]. injection H as <-. eauto. }
  assert (∀ val, (∀ m, val_to_etree_body env (member_to_etree env) val
                         (Element_new ("uax:" +:+ name)) dt = Ok m →
                       tag m = "uax:" +:+ name)) as Hbody.
  { intros val m Hm. by apply val_to_etree_body_tag in Hm. }
  destruct v; try (apply Hbind, Hbody).
  apply Hbind. intros m Hm.
  assert (∀ el0 m0,
            foldM (fun member_el v =>
                     type_name ← or_raise KeyError (ObjectIdNames_get env (Identifier_ dt));
                     _value_to_etree env v member_el type_name dt) el0 vs = Ok m0 →
            tag m0 = tag el0) as Hl.
  { clear. induction vs as [|v vs IH]; intros el0 m0 H; simpl in H.
    - by injection H as <-.
    - destruct (or_raise KeyError (ObjectIdNames_get env (Identifier_ dt))) as [tn|] eqn:Htn;
        [|done].
      simpl in H. rewrite value_to_etree_frame in H.
      destruct (value_children env v tn dt) as [kids|]; [|done]. simpl in H.
      rewrite (IH _ _ H). apply tag_add_children. }
  by apply Hl in Hm.
Qed.

(** [_extobj_to_etree] writes the members of the value in the order of
    its [ua_types], one element for every member. *)
Lemma extobj_members_in_declared_order members val_el name dtype r :
  _extobj_to_etree env (VStruct members) val_el name dtype = Ok r →
  ∃ struct_el,
    r = append val_el
          (mkElement "uax:ExtensionObject" [] None
             [mkElement "uax:TypeId" [] None
                [mkElement "uax:Identifier" [] (Some (NodeId_to_string env dtype)) []];
              mkElement "uax:Body" [] None [struct_el]])
    ∧ tag struct_el = "uax:" +:+ name
    ∧ tag <$> children struct_el = (fun m => "uax:" +:+ m.1.1) <$> members.
Proof.
  unfold _extobj_to_etree, extobj_to_etree_body.
  destruct (foldM _ _ members) as [struct_el|] eqn:Hs; simpl; [|done].
  intros H. injection H as <-. exists struct_el. split; [done|].
  apply (foldM_tags _ (fun m : string * string * Value => "uax:" +:+ m.1.1)) in Hs.
  - done.
  - intros el [[n vtype] v] el'. simpl.
    destruct (NodeId_of_typename env (strip_ListOf vtype)) as [dt|]; [|done]. simpl.
    apply member_to_etree_tag.
Qed.

End facts.





(** An array of a type of namespace 0 whose identifier is a string: the
    comparison of the identifier with 21 raises, and no wrapper is
    written. *)
Lemma C5_string_identifier_raises :
  is_builtin (mkNodeId 0 (StringId "Pumps")) = Raise TypeError
  ∧ _value_to_etree Example.env (VList []) (Element_new "Value") "Pumps"
      (mkNodeId 0 (StringId "Pumps")) = Raise TypeError
  ∧ _value_to_etree Example.env (VList []) (Element_new "Value") "Pumps"
      (mkNodeId 0 (StringId "Pumps"))
    ≠ Ok (append (Element_new "Value")
            (mkElement "uax:ListOfExtensionObject" [] None [])).
Proof. split_and!; [reflexivity|reflexivity|discriminate]. Qed.

End CodecFacts.

(** ** The example environment *)

Module ExampleFacts.

Lemma key_lt_spec a1 a2 a3 b1 b2 b3 :
  Example.key_lt (a1, a2, a3) (b1, b2, b3) = true ↔
  a1 < b1 ∨ (a1 = b1 ∧ ((a2 < b2)%Z ∨ (a2 = b2 ∧ (a3 < b3)%positive))).
Proof.
  unfold Example.key_lt.
  rewrite orb_true_iff, andb_true_iff, orb_true_iff, andb_true_iff.
  rewrite Nat.ltb_lt, Nat.eqb_eq, Z.ltb_lt, Z.eqb_eq, Pos.ltb_lt. done.
Qed.

Lemma NodeId_key_inj a b : Example.NodeId_key a = Example.NodeId_key b → a = b.
Proof.
  destruct a as [na ia], b as [nb ib]. unfold Example.NodeId_key. simpl.
  intros H.
  assert (H1 := f_equal (fun k : nat * Z * positive => k.1.1) H).
  assert (H2 := f_equal (fun k : nat * Z * positive => k.1.2) H).
  assert (H3 := f_equal snd H). clear H.
  destruct ia, ib; cbn [fst snd] in H1, H2, H3; subst; try lia; try done;
    apply Pos.add_reg_l, (inj encode) in H3; by rewrite H3.
Qed.

Lemma strict_total_NodeId_lt : Serializer.strict_total (NodeId_lt Example.env).
Proof.
  split_and!.
  - intros a. simpl. unfold Example.NodeId_lt. destruct (Example.NodeId_key a) as [[a1 a2] a3].
    destruct (Example.key_lt _ _) eqn:H; [|done]. apply key_lt_spec in H. lia.
  - intros a b c. simpl. unfold Example.NodeId_lt.
    destruct (Example.NodeId_key a) as [[a1 a2] a3], (Example.NodeId_key b) as [[b1 b2] b3],
      (Example.NodeId_key c) as [[c1 c2] c3].
    rewrite !key_lt_spec. lia.
  - intros a b Hne. simpl. unfold Example.NodeId_lt.
    assert (Example.NodeId_key a ≠ Example.NodeId_key b) as Hk by (intros H; by apply NodeId_key_inj in H).
    destruct (Example.NodeId_key a) as [[a1 a2] a3], (Example.NodeId_key b) as [[b1 b2] b3].
    rewrite !key_lt_spec.
    destruct (decide (a1 = b1)) as [->|]; [|lia].
    destruct (decide (a2 = b2)) as [->|]; [|lia].
    destruct (decide (a3 = b3)) as [->|]; [done|lia].
Qed.

End ExampleFacts.

(** ** The node serializer and the alias table *)

Module SerializerFacts.
Import Serializer ElementFacts.

Section facts.
Context (env : Env).

(** *** References *)

Lemma foldl_add_ref_el d refs refs_el aliases :
  foldl (add_ref_el env d) (refs_el, aliases) refs =
  (foldl (fun el ref => append el (reference_el env d ref)) refs_el refs,
   register_all ((fun ref => (ReferenceTypeId ref, ref_name env (ReferenceTypeId ref)))
                   <$> refs) aliases).
Proof.
  revert refs_el aliases. induction refs as [|ref refs IH]; intros; simpl; [done|].
  by rewrite IH.
Qed.

Lemma children_foldl_append {A} (f : A → Element) l el :
  children (foldl (fun el x => append el (f x)) el l) = children el ++ (f <$> l).
Proof.
  revert el. induction l as [|x l IH]; intros el; simpl.
  - by rewrite app_nil_r.
  - rewrite IH, children_append, <- app_assoc. done.
Qed.

Lemma tag_foldl_append {A} (f : A → Element) l el :
  tag (foldl (fun el x => append el (f x)) el l) = tag el.
Proof.
  revert el. induction l as [|x l IH]; intros el; simpl; [done|].
  by rewrite IH, tag_append.
Qed.

Lemma text_foldl_append {A} (f : A → Element) l el :
  text (foldl (fun el x => append el (f x)) el l) = text el.
Proof.
  revert el. induction l as [|x l IH]; intros el; simpl; [done|].
  by rewrite IH, text_append.
Qed.

Lemma attrib_foldl_append {A} (f : A → Element) l el :
  attrib (foldl (fun el x => append el (f x)) el l) = attrib el.
Proof.
  revert el. induction l as [|x l IH]; intros el; simpl; [done|].
  by rewrite IH, attrib_append.
Qed.

Lemma register_all_cons k v regs (aliases : gmap NodeId string) :
  register_all ((k, v) :: regs) aliases = register_all regs (<[k := v]> aliases).
Proof. reflexivity. Qed.

Lemma register_refs_keep refs (aliases : gmap NodeId string) k :
  aliases !! k = Some (ref_name env k) →
  register_all ((fun ref => (ReferenceTypeId ref, ref_name env (ReferenceTypeId ref)))
                  <$> refs) aliases !! k = Some (ref_name env k).
Proof.
  revert aliases. induction refs as [|r refs IH]; intros aliases Hk; [done|].
  rewrite fmap_cons, register_all_cons. apply IH.
  destruct (decide (ReferenceTypeId r = k)) as [->|].
  - by rewrite lookup_insert_eq.
  - by rewrite lookup_insert_ne.
Qed.

(** The registrations of a list of references leave, for the type of each
    of them, its [ref_name]. *)
Lemma register_refs_lookup refs (aliases : gmap NodeId string) ref :
  ref ∈ refs →
  register_all ((fun ref => (ReferenceTypeId ref, ref_name env (ReferenceTypeId ref)))
                  <$> refs) aliases !! ReferenceTypeId ref
  = Some (ref_name env (ReferenceTypeId ref)).
Proof.
  revert aliases. induction refs as [|r refs IH]; intros aliases Hin.
  - by apply elem_of_nil in Hin.
  - rewrite fmap_cons, register_all_cons. apply elem_of_cons in Hin as [->|Hin].
    + apply register_refs_keep. by rewrite lookup_insert_eq.
    + by apply IH.
Qed.

Lemma reference_el_spec d ref :
  tag (reference_el env d ref) = "Reference"
  ∧ dict_get (attrib (reference_el env d ref)) "ReferenceType"
      = Some (ref_name env (ReferenceTypeId ref))
  ∧ dict_get (attrib (reference_el env d ref)) "IsForward"
      = (if IsForward ref then None else Some "false")
  ∧ text (reference_el env d ref) = Some (_node_to_string env d (ref_NodeId ref))
  ∧ children (reference_el env d ref) = [].
Proof.
  unfold reference_el. destruct (IsForward ref); simpl; rewrite ?decide_True by done;
    split_and!; reflexivity.
Qed.


Lemma add_ref_els_eq self parent_el obj :
  _add_ref_els env self parent_el obj =
  (append parent_el
     (mkElement "References" [] None
        (reference_el env (_addr_idx_to_xml_idx self) <$> get_references obj)),
   register_all ((fun ref => (ReferenceTypeId ref, ref_name env (ReferenceTypeId ref)))
                   <$> get_references obj) (aliases self)).
Proof.
  unfold _add_ref_els. rewrite foldl_add_ref_el. f_equal. f_equal.
  pose proof (children_foldl_append (reference_el env (_addr_idx_to_xml_idx self))
                (get_references obj) (Element_new "References")) as Hc.
  pose proof (tag_foldl_append (reference_el env (_addr_idx_to_xml_idx self))
                (get_references obj) (Element_new "References")) as Ht.
  pose proof (attrib_foldl_append (reference_el env (_addr_idx_to_xml_idx self))
                (get_references obj) (Element_new "References")) as Ha.
  pose proof (text_foldl_append (reference_el env (_addr_idx_to_xml_idx self))
                (get_references obj) (Element_new "References")) as Hx.
  destruct (foldl _ _ _). simpl in *. by subst.
Qed.

(** C3, as the code has it: a reference whose type identifier is not in the id
    table gets a [Reference] element whose [ReferenceType] is the string
    form of the type id as it stands, and that string is registered as
    the alias of the type id; the text is the remapped string of the
    target and [IsForward] is [false] exactly for an inverse reference. *)
Theorem C3_reference_element (self : Exporter) (parent_el : Element) (obj : Node)
    (i : nat) (ref : ReferenceDescription) :
  get_references obj !! i = Some ref →
  ObjectIdNames_get env (Identifier_ (ReferenceTypeId ref)) = None →
  ∃ refs_el ref_el,
    (_add_ref_els env self parent_el obj).1 = append parent_el refs_el
    ∧ tag refs_el = "References"
    ∧ length (children refs_el) = length (get_references obj)
    ∧ children refs_el !! i = Some ref_el
    ∧ tag ref_el = "Reference"
    ∧ dict_get (attrib ref_el) "ReferenceType"
        = Some (NodeId_to_string env (ReferenceTypeId ref))
    ∧ (_add_ref_els env self parent_el obj).2 !! ReferenceTypeId ref
        = Some (NodeId_to_string env (ReferenceTypeId ref))
    ∧ text ref_el
        = Some (_node_to_string env (_addr_idx_to_xml_idx self) (ref_NodeId ref))
    ∧ dict_get (attrib ref_el) "IsForward"
        = (if IsForward ref then None else Some "false").
Proof.
  intros Hi Hun. rewrite add_ref_els_eq. simpl.
  assert (ref_name env (ReferenceTypeId ref) = NodeId_to_string env (ReferenceTypeId ref))
    as Hname by (unfold ref_name; by rewrite Hun).
  destruct (reference_el_spec (_addr_idx_to_xml_idx self) ref) as (Ht & Hty & Hfw & Hx & _).
  eexists _, (reference_el env (_addr_idx_to_xml_idx self) ref).
  split_and!; try done.
  - simpl. by rewrite length_fmap.
  - simpl. by rewrite list_lookup_fmap, Hi.
  - by rewrite Hty, Hname.
  - rewrite register_refs_lookup; [by rewrite Hname|].
    by eapply list_elem_of_lookup_2.
Qed.

(** *** Data type definitions *)

Lemma structure_field_el_spec field :
  tag (structure_field_el env field) = "Field"
  ∧ dict_get (attrib (structure_field_el env field)) "Name" = Some (sf_Name field)
  ∧ dict_get (attrib (structure_field_el env field)) "Datatype"
      = Some (NodeId_to_string env (sf_DataType field))
  ∧ dict_get (attrib (structure_field_el env field)) "IsOptional"
      = (if sf_IsOptional field then Some "true" else None).
Proof.
  unfold structure_field_el.
  destruct (decide (sf_ValueRank field ≠ (-1)%Z)), (sf_ArrayDimensions field),
    (sf_IsOptional field); simpl; split_and!; reflexivity.
Qed.

Lemma definition_el_structure bname Fields :
  definition_el env bname (StructureDefinition Fields) =
  mkElement "Definition" [("Name", qn_Name bname)] None
            (structure_field_el env <$> Fields).
Proof.
  unfold definition_el, _structure_fields_to_etree.
  pose proof (children_foldl_append (structure_field_el env) Fields
                (set_attrib (Element_new "Definition") "Name" (qn_Name bname))) as Hc.
  pose proof (tag_foldl_append (structure_field_el env) Fields
                (set_attrib (Element_new "Definition") "Name" (qn_Name bname))) as Ht.
  pose proof (attrib_foldl_append (structure_field_el env) Fields
                (set_attrib (Element_new "Definition") "Name" (qn_Name bname))) as Ha.
  pose proof (text_foldl_append (structure_field_el env) Fields
                (set_attrib (Element_new "Definition") "Name" (qn_Name bname))) as Hx.
  destruct (foldl _ _ _). simpl in *. by subst.
Qed.

(** C6, as the code has it: a DataType node with a structure definition gets a
    [Definition] child with one [Field] child for every member of the
    definition, in order; an optional member is a [Field] too, with
    [IsOptional] set to [true]. *)
Theorem C6_definition_fields (self : Exporter) (obj : Node)
    (Fields : list StructureField) :
  read_DataTypeDefinition obj = Some (StructureDefinition Fields) →
  ∃ obj_el def_el,
    children (etree (add_etree_datatype env self obj))
      = children (etree self) ++ [obj_el]
    ∧ tag obj_el = "UADataType"
    ∧ def_el ∈ children obj_el
    ∧ tag def_el = "Definition"
    ∧ dict_get (attrib def_el) "Name" = Some (qn_Name (read_browse_name obj))
    ∧ length (children def_el) = length Fields
    ∧ ∀ i field, Fields !! i = Some field →
        ∃ field_el,
          children def_el !! i = Some field_el
          ∧ tag field_el = "Field"
          ∧ dict_get (attrib field_el) "Name" = Some (sf_Name field)
          ∧ dict_get (attrib field_el) "IsOptional"
              = (if sf_IsOptional field then Some "true" else None).
Proof.
  intros Hdef. unfold add_etree_datatype. rewrite Hdef, add_ref_els_eq.
  rewrite definition_el_structure. cbn [etree].
  eexists _, (mkElement "Definition" [("Name", qn_Name (read_browse_name obj))] None
                (structure_field_el env <$> Fields)).
  split_and!.
  - by rewrite children_append.
  - rewrite !tag_append. unfold _add_node_common.
    repeat case_match; rewrite ?tag_append; unfold _add_sub_el;
      rewrite ?tag_append, ?tag_set_attrib; reflexivity.
  - rewrite children_append, children_append.
    apply elem_of_app. left. apply elem_of_app. right. left.
  - done.
  - reflexivity.
  - simpl. by rewrite length_fmap.
  - intros i field Hi. exists (structure_field_el env field).
    destruct (structure_field_el_spec field) as (? & ? & ? & ?).
    split_and!; try done. simpl. by rewrite list_lookup_fmap, Hi.
Qed.


(** *** The alias table *)

Lemma register_all_lookup regs (m0 : gmap NodeId string) k v :
  register_all regs m0 !! k = Some v ↔
  (∃ pre post, regs = pre ++ (k, v) :: post ∧ (k ∉ post.*1))
  ∨ ((k ∉ regs.*1) ∧ m0 !! k = Some v).
Proof.
  revert m0. induction regs as [|[k0 v0] regs IH]; intros m0.
  - simpl. split.
    + intros H. right. split; [apply not_elem_of_nil|done].
    + intros [(pre & post & Heq & _)|[_ H]]; [|done].
      by destruct pre.
  - rewrite register_all_cons, IH. split.
    + intros [(pre & post & -> & Hpost)|[Hnot Hk]].
      * left. exists ((k0, v0) :: pre), post. done.
      * destruct (decide (k0 = k)) as [->|Hne].
        -- rewrite lookup_insert_eq in Hk. injection Hk as ->.
           left. exists [], regs. done.
        -- rewrite lookup_insert_ne in Hk by done. right. split; [|done].
           simpl. rewrite not_elem_of_cons. done.
    + intros [(pre & post & Heq & Hpost)|[Hnot Hk]].
      * destruct pre as [|p pre]; simpl in Heq.
        -- injection Heq as -> -> ->. right. split; [done|].
           by rewrite lookup_insert_eq.
        -- injection Heq as <- ->. left. eauto.
      * simpl in Hnot. rewrite not_elem_of_cons in Hnot. destruct Hnot as [Hne Hnot].
        right. split; [done|]. by rewrite lookup_insert_ne.
Qed.

Section order.
Context (Hlt : strict_total (NodeId_lt env)).

Lemma NodeId_lt_asym a b : NodeId_lt env a b = true → NodeId_lt env b a = false.
Proof.
  destruct Hlt as (Hirr & Htr & _). intros Hab.
  destruct (NodeId_lt env b a) eqn:Hba; [|done].
  by rewrite <- (Hirr a), (Htr a b a).
Qed.

Lemma NodeId_le_total : Total (NodeId_le env).
Proof.
  intros a b. unfold NodeId_le.
  destruct (NodeId_lt env b a) eqn:Hba; [|by left].
  right. by apply NodeId_lt_asym.
Qed.

Lemma NodeId_le_trans : Transitive (NodeId_le env).
Proof.
  destruct Hlt as (Hirr & Htr & Htot).
  intros a b c Hab Hbc. unfold NodeId_le in *.
  destruct (NodeId_lt env c a) eqn:Hca; [|done].
  destruct (decide (a = b)) as [->|Hne]; [congruence|].
  destruct (Htot a b Hne) as [H|H]; [|congruence].
  by rewrite <- Hbc, (Htr c a b).
Qed.

Lemma ordered_keys_spec (m : gmap NodeId string) :
  (∀ k, k ∈ ordered_keys env m ↔ is_Some (m !! k))
  ∧ StronglySorted (fun a b => NodeId_lt env a b = true) (ordered_keys env m).
Proof.
  unfold ordered_keys. split.
  - intros k. rewrite merge_sort_Permutation, elem_of_elements, elem_of_dom. done.
  - pose proof (@StronglySorted_merge_sort _ (NodeId_le env) _ NodeId_le_trans
                  NodeId_le_total (elements (dom m))) as Hs.
    assert (NoDup (merge_sort (NodeId_le env) (elements (dom m)))) as Hnd.
    { rewrite merge_sort_Permutation. apply NoDup_elements. }
    induction Hs as [|a l Hs IH Hall]; constructor.
    + apply IH. by apply NoDup_cons in Hnd as [_ ?].
    + apply NoDup_cons in Hnd as [Hnotin _].
      rewrite Forall_forall in Hall |- *. intros x Hx. specialize (Hall _ Hx).
      destruct Hlt as (_ & _ & Htot).
      destruct (Htot a x) as [H|H]; [by intros ->|done|].
      unfold NodeId_le in Hall. congruence.
Qed.

End order.

Lemma aliases_loop_ok (m : gmap NodeId string) keys el :
  (∀ k, k ∈ keys → is_Some (m !! k)) →
  ∃ kids,
    foldM (fun aliases_el nodeid =>
             name ← or_raise KeyError (m !! nodeid);
             let ref_el := set_attrib (Element_new "Alias") "Alias" name in
             let ref_el := set_text ref_el (NodeId_to_string env nodeid) in
             Ok (append aliases_el ref_el)) el keys
    = Ok (add_children el kids)
    ∧ length kids = length keys
    ∧ ∀ i k, keys !! i = Some k →
        ∃ name, m !! k = Some name
          ∧ kids !! i = Some (mkElement "Alias" [("Alias", name)]
                                (Some (NodeId_to_string env k)) []).
Proof.
  match goal with |- context [foldM ?F _ _] => set (body := F) end.
  revert el. induction keys as [|k keys IH]; intros el Hk.
  - exists []. simpl. split_and!; [by destruct el; simpl; rewrite app_nil_r|done|].
    intros i k Hi. by rewrite lookup_nil in Hi.
  - destruct (Hk k) as [name Hname]; [left|].
    destruct (IH (append el (mkElement "Alias" [("Alias", name)]
                               (Some (NodeId_to_string env k)) [])))
      as (kids & Heq & Hlen & Hkids).
    { intros k' Hk'. apply Hk. by right. }
    exists (mkElement "Alias" [("Alias", name)] (Some (NodeId_to_string env k)) [] :: kids).
    split_and!.
    + assert (foldM body el (k :: keys)
              = foldM body (append el (mkElement "Alias" [("Alias", name)]
                                         (Some (NodeId_to_string env k)) [])) keys) as ->.
      { assert (body el k = Ok (append el (mkElement "Alias" [("Alias", name)]
                                             (Some (NodeId_to_string env k)) []))) as Hb
          by (unfold body; by rewrite Hname).
        cbn [foldM]. by rewrite Hb. }
      rewrite Heq. destruct el. simpl. by rewrite <- app_assoc.
    + simpl. by rewrite Hlen.
    + intros [|i] k' Hi; simpl in Hi.
      * injection Hi as <-. eauto.
      * by apply Hkids.
Qed.

Lemma add_variable_common_aliases self node el self' el' :
  add_variable_common env self node el = Ok (self', el') →
  aliases self' = aliases self
  ∨ ∃ name, aliases self' = register_all [(read_data_type node, name)] (aliases self).
Proof.
  unfold add_variable_common.
  destruct (if decide (NamespaceIndex (read_data_type node) = 0)
            then ObjectIdNames_get env (Identifier_ (read_data_type node))
            else None) as [name|];
    (destruct (Codec.value_to_etree _ _ _ _ _) as [x|e]; simpl; [|done]);
    intros H; injection H as <- <-; simpl; eauto.
Qed.


End facts.

(** The reference of [Example.custom_node]: the attribute holds the
    string of the source namespace 2, and it is registered as alias,
    where the index map sends namespace 2 to 1. *)
Lemma C3_reference_type_not_remapped :
  ObjectIdNames_get Example.env (Identifier_ (ReferenceTypeId Example.custom_ref)) = None
  ∧ (_add_ref_els Example.env Example.exporter_2_to_1 (Element_new "UAObject")
       Example.custom_node).1
    = mkElement "UAObject" [] None
        [mkElement "References" [] None
           [mkElement "Reference"
              [("ReferenceType", "ns=2;i=1001"); ("IsForward", "false")]
              (Some "ns=1;i=5") []]]
  ∧ _node_to_string Example.env (_addr_idx_to_xml_idx Example.exporter_2_to_1)
      (ReferenceTypeId Example.custom_ref) = "ns=1;i=1001"
  ∧ (_add_ref_els Example.env Example.exporter_2_to_1 (Element_new "UAObject")
       Example.custom_node).2 !! ReferenceTypeId Example.custom_ref
    = Some "ns=2;i=1001"
  ∧ aliases Example.exporter_2_to_1 !! ReferenceTypeId Example.custom_ref = None
  ∧ ¬ reference_as_stated Example.env Example.exporter_2_to_1 Example.custom_node.
Proof.
  assert (_add_ref_els Example.env Example.exporter_2_to_1 (Element_new "UAObject")
            Example.custom_node
          = (mkElement "UAObject" [] None
               [mkElement "References" [] None
                  [mkElement "Reference"
                     [("ReferenceType", "ns=2;i=1001"); ("IsForward", "false")]
                     (Some "ns=1;i=5") []]],
             <[ReferenceTypeId Example.custom_ref := "ns=2;i=1001"]> ∅)) as Heq
    by reflexivity.
  split_and!.
  - reflexivity.
  - by rewrite Heq.
  - reflexivity.
  - rewrite Heq. apply lookup_insert_eq.
  - apply lookup_empty.
  - intros H. destruct (H 0 Example.custom_ref) as (refs_el & ref_el & H1 & H2 & H3 & _);
      [reflexivity..|].
    rewrite Heq in H1. simpl in H1. injection H1 as <-.
    simpl in H2. injection H2 as <-. discriminate H3.
Qed.

(** The reference of [Example.custom_node]. *)
Lemma C3_reference_element_witness :
  ∃ refs_el ref_el,
    (_add_ref_els Example.env Example.exporter_2_to_1 (Element_new "UAObject")
       Example.custom_node).1 = append (Element_new "UAObject") refs_el
    ∧ tag refs_el = "References"
    ∧ length (children refs_el) = 1
    ∧ children refs_el !! 0 = Some ref_el
    ∧ tag ref_el = "Reference"
    ∧ dict_get (attrib ref_el) "ReferenceType" = Some "ns=2;i=1001"
    ∧ (_add_ref_els Example.env Example.exporter_2_to_1 (Element_new "UAObject")
         Example.custom_node).2 !! ReferenceTypeId Example.custom_ref
      = Some "ns=2;i=1001"
    ∧ text ref_el = Some "ns=1;i=5"
    ∧ dict_get (attrib ref_el) "IsForward" = Some "false".
Proof.
  apply (C3_reference_element Example.env Example.exporter_2_to_1
           (Element_new "UAObject") Example.custom_node 0 Example.custom_ref);
    reflexivity.
Defined.

(** The definition [Name: String, Value: Int32 (optional)] gives two
    [Field] children, the second one with [IsOptional]. *)
Lemma C6_optional_field_not_omitted :
  read_DataTypeDefinition Example.name_value_type
    = Some (StructureDefinition Example.name_value_fields)
  ∧ children (etree (add_etree_datatype Example.env XmlExporter_init
                       Example.name_value_type))
    = [mkElement "UADataType"
         [("NodeId", "ns=2;i=3000"); ("BrowseName", "2:NameValue")] None
         [mkElement "DisplayName" [] (Some "NameValue") [];
          mkElement "Definition" [("Name", "NameValue")] None
            [mkElement "Field" [("Name", "Name"); ("Datatype", "i=12")] None [];
             mkElement "Field" [("Name", "Value"); ("Datatype", "i=6");
                                ("IsOptional", "true")] None []];
          mkElement "References" [] None []]].
Proof. split; reflexivity. Qed.

(** The data type [Example.name_value_type]. *)
Lemma C6_definition_fields_witness :
  ∃ obj_el def_el,
    children (etree (add_etree_datatype Example.env XmlExporter_init
                       Example.name_value_type))
      = children (etree XmlExporter_init) ++ [obj_el]
    ∧ tag obj_el = "UADataType" ∧ def_el ∈ children obj_el ∧ tag def_el = "Definition"
    ∧ dict_get (attrib def_el) "Name" = Some "NameValue"
    ∧ length (children def_el) = 2
    ∧ ∀ i field, Example.name_value_fields !! i = Some field →
        ∃ field_el, children def_el !! i = Some field_el
          ∧ tag field_el = "Field"
          ∧ dict_get (attrib field_el) "Name" = Some (sf_Name field)
          ∧ dict_get (attrib field_el) "IsOptional"
              = (if sf_IsOptional field then Some "true" else None).
Proof.
  apply (C6_definition_fields Example.env XmlExporter_init Example.name_value_type
           Example.name_value_fields).
  reflexivity.
Defined.


End SerializerFacts.

(** ** Copies of NodeIds and names *)

Module StoreFacts.
Import Store.

Section facts.
Context (env : Env).

Lemma fresh_lookup_ne (h : gmap nat PyObject) l o :
  h !! l = Some o → l ≠ fresh (dom h).
Proof.
  intros Hl ->. apply (is_fresh (dom h)). apply elem_of_dom. eauto.
Qed.

(** C10: for a NodeId and a QualifiedName of the store,
    [_node_to_string] and [_bname_to_string] return (they do not raise)
    the string that the remapping of a copy gives: the string of the
    object itself when its namespace index is not a key of the index
    map, the store being then unchanged; and in every case each object
    of the store, the argument among them, is afterwards what it was. *)
Theorem C10_unmapped_index_kept_and_copy (d : gmap nat nat) (h : gmap nat PyObject)
    (l_n : nat) (n : NodeId) (l_q : nat) (q : QualifiedName) :
  h !! l_n = Some (ONodeId n) →
  h !! l_q = Some (OQualifiedName q) →
  (∃ h', _node_to_string env d h l_n = Ok (Serializer._node_to_string env d n, h')
         ∧ (d !! NamespaceIndex n = None →
            Serializer._node_to_string env d n = NodeId_to_string env n ∧ h' = h)
         ∧ (∀ xml_idx, d !! NamespaceIndex n = Some xml_idx →
            Serializer._node_to_string env d n
            = NodeId_to_string env (mkNodeId xml_idx (Identifier_ n)))
         ∧ ∀ l o, h !! l = Some o → h' !! l = Some o)
  ∧ (∃ h', _bname_to_string env d h l_q = Ok (Serializer._bname_to_string env d q, h')
         ∧ (d !! qn_NamespaceIndex q = None →
            Serializer._bname_to_string env d q = QualifiedName_to_string env q ∧ h' = h)
         ∧ (∀ xml_idx, d !! qn_NamespaceIndex q = Some xml_idx →
            Serializer._bname_to_string env d q
            = QualifiedName_to_string env (mkQualifiedName xml_idx (qn_Name q)))
         ∧ ∀ l o, h !! l = Some o → h' !! l = Some o).
Proof.
  intros Hn Hq. split.
  - unfold _node_to_string, Serializer._node_to_string. rewrite Hn. simpl.
    unfold remapped_copy. rewrite Hn. simpl.
    destruct (d !! NamespaceIndex n) as [xml_idx|] eqn:Hd.
    + unfold copy, set_NamespaceIndex. rewrite Hn. simpl.
      rewrite lookup_insert_eq. simpl. rewrite lookup_insert_eq. simpl.
      eexists. split_and!; [reflexivity|done|by intros ? [= ->]|].
      intros l o Hl. rewrite insert_insert_eq, lookup_insert_ne; [done|].
      apply not_eq_sym. by eapply fresh_lookup_ne.
    + simpl. rewrite Hn. simpl. eexists. split_and!; [reflexivity|done|done|done].
  - unfold _bname_to_string, Serializer._bname_to_string.
    unfold remapped_copy. rewrite Hq. simpl.
    destruct (d !! qn_NamespaceIndex q) as [xml_idx|] eqn:Hd.
    + unfold copy, set_NamespaceIndex. rewrite Hq. simpl.
      rewrite lookup_insert_eq. simpl. rewrite lookup_insert_eq. simpl.
      eexists. split_and!; [reflexivity|done|by intros ? [= ->]|].
      intros l o Hl. rewrite insert_insert_eq, lookup_insert_ne; [done|].
      apply not_eq_sym. by eapply fresh_lookup_ne.
    + simpl. rewrite Hq. simpl. eexists. split_and!; [reflexivity|done|done|done].
Qed.

End facts.

(** The NodeId and the QualifiedName of [Example.heap], with a map that
    sends namespace 2 to 1. *)
Lemma C10_unmapped_index_kept_and_copy_witness :
  (∃ h', _node_to_string Example.env (<[2 := 1]> {[0 := 0]}) Example.heap 0
         = Ok ("ns=1;i=5", h')
         ∧ ∀ l o, Example.heap !! l = Some o → h' !! l = Some o)
  ∧ (∃ h', _bname_to_string Example.env (<[2 := 1]> {[0 := 0]}) Example.heap 1
         = Ok ("1:Pump", h')
         ∧ ∀ l o, Example.heap !! l = Some o → h' !! l = Some o).
Proof.
  destruct (C10_unmapped_index_kept_and_copy Example.env (<[2 := 1]> {[0 := 0]})
              Example.heap 0 (mkNodeId 2 (Numeric 5)) 1 (mkQualifiedName 2 "Pump")
              eq_refl eq_refl)
    as [(h1 & H1 & _ & _ & H2) (h2 & H3 & _ & _ & H4)].
  split; [exists h1|exists h2]; split; assumption.
Defined.

(** A namespace index that the map does not have: the string of the
    object itself, and the store as it was. *)
Example node_to_string_unmapped :
  _node_to_string Example.env (<[2 := 1]> {[0 := 0]}) Example.heap 2
  = Ok ("ns=7;i=9", Example.heap).
Proof. reflexivity. Qed.

End StoreFacts.

(** * Further properties *)

(** ** The namespace remapper *)

Module NamespacesMore.
Import Namespaces NamespacesFacts.

Lemma merge_sort_perm_eq (l1 l2 : list nat) :
  l1 ≡ₚ l2 → merge_sort Nat.le l1 = merge_sort Nat.le l2.
Proof.
  intros Hp. apply (StronglySorted_unique Nat.le).
  - apply (StronglySorted_merge_sort _).
  - apply (StronglySorted_merge_sort _).
  - by rewrite !merge_sort_Permutation.
Qed.

(** The index map depends on which indices were found, not on the order
    in which they were found. *)
Theorem make_idx_dict_order_irrelevant (idxs idxs' : list nat)
    (ns_array : list string) :
  idxs ≡ₚ idxs' → _make_idx_dict idxs ns_array = _make_idx_dict idxs' ns_array.
Proof.
  intros Hp. unfold _make_idx_dict. by rewrite (merge_sort_perm_eq _ _ Hp).
Qed.

Lemma make_idx_dict_order_irrelevant_witness :
  _make_idx_dict [5; 2; 3] ["a"; "b"; "c"; "d"]
  = _make_idx_dict [3; 5; 2] ["a"; "b"; "c"; "d"].
Proof.
  apply (make_idx_dict_order_irrelevant [5; 2; 3] [3; 5; 2]).
  change [3; 5; 2] with ([3] ++ 5 :: [2]). apply Permutation_cons_app. apply perm_swap.
Defined.

Lemma StronglySorted_lt_unique (l1 l2 : list nat) :
  StronglySorted lt l1 → StronglySorted lt l2 → (∀ i, i ∈ l1 ↔ i ∈ l2) → l1 = l2.
Proof.
  intros H1 H2 Hel.
  assert (∀ l, StronglySorted lt l → NoDup l ∧ StronglySorted le l) as Hs.
  { intros l Hl. induction Hl as [|a l Hl [IH1 IH2] Hall].
    - split; constructor.
    - rewrite Forall_forall in Hall. split.
      + constructor; [|done]. intros Ha. specialize (Hall _ Ha). lia.
      + constructor; [done|]. apply Forall_forall. intros x Hx.
        specialize (Hall _ Hx). lia. }
  destruct (Hs _ H1) as [Hn1 Hl1], (Hs _ H2) as [Hn2 Hl2].
  apply (StronglySorted_unique le); [done..|].
  by apply NoDup_Permutation.
Qed.

Lemma foldM_lookup_spec (ns_array : list string) keys acc uris :
  foldM (fun acc i => uri ← or_raise IndexError (ns_array !! i); Ok (acc ++ [uri]))
        acc keys = Ok uris →
  length uris = length acc + length keys
  ∧ ∀ j i, keys !! j = Some i → uris !! (length acc + j) = ns_array !! i.
Proof.
  revert acc. induction keys as [|k keys IH]; intros acc H; simpl in H.
  - injection H as <-. split; [simpl; lia|]. intros j i Hj. by rewrite lookup_nil in Hj.
  - destruct (ns_array !! k) as [uri|] eqn:Hk; simpl in H; [|done].
    destruct (IH _ H) as [Hlen Hget]. rewrite length_app in Hlen, Hget. simpl in *.
    split; [lia|]. intros [|j] i Hj; simpl in Hj.
    + injection Hj as <-. rewrite Hk.
      assert (uris !! (length acc + 0) = Some uri) as ->; [|done].
      assert (∀ acc' uris', foldM (fun acc i => uri ← or_raise IndexError (ns_array !! i);
                                      Ok (acc ++ [uri])) acc' keys = Ok uris' →
                acc' `prefix_of` uris') as Hpre.
      { clear. induction keys as [|k keys IH]; intros acc' uris' H; simpl in H.
        - by injection H as <-.
        - destruct (ns_array !! k) as [uri|]; simpl in H; [|done].
          apply IH in H. etrans; [|done]. by apply prefix_app_r. }
      apply Hpre in H as [rest ->]. rewrite Nat.add_0_r, <- app_assoc.
      rewrite lookup_app_r by lia. by rewrite Nat.sub_diag.
    + rewrite <- (Hget j i Hj). f_equal. lia.
Qed.

Lemma NoDup_idxs_to_export nodes uris ns_array :
  NoDup (idxs_to_export nodes uris ns_array).
Proof.
  unfold idxs_to_export. destruct uris as [[|u us]|];
    try apply NoDup_get_ns_idxs_of_nodes.
  apply NoDup_add_idxs_from_uris, NoDup_get_ns_idxs_of_nodes.
Qed.

Lemma index_Some ns_array uri i :
  index ns_array uri = Some i ↔
  ns_array !! i = Some uri ∧ ∀ j, j < i → ns_array !! j ≠ Some uri.
Proof.
  unfold index. split.
  - intros H. destruct (list_find _ ns_array) as [[i' u]|] eqn:Hf; [|done].
    simpl in H. injection H as ->. apply list_find_Some in Hf as (Hi & -> & Hlt).
    split; [done|]. intros j Hj Hu. by apply (Hlt j uri).
  - intros [Hi Hlt].
    assert (list_find (fun u => u = uri) ns_array = Some (i, uri)) as ->; [|done].
    apply list_find_Some. split_and!; [done..|].
    intros j y Hy Hj ->. by apply (Hlt j).
Qed.

Lemma zero_in_idxs_to_export nodes uris ns_array :
  0 ∈ idxs_to_export nodes uris ns_array ↔
  ∃ us uri, uris = Some us ∧ uri ∈ us ∧ ns_array !! 0 = Some uri.
Proof.
  unfold idxs_to_export. split.
  - destruct uris as [[|u us]|].
    + intros H%elem_of_get_ns_idxs_of_nodes. by destruct H.
    + intros H%elem_of_add_idxs_from_uris.
      destruct H as [H%elem_of_get_ns_idxs_of_nodes|(uri & Hin & Hidx)]; [by destruct H|].
      apply index_Some in Hidx as [H0 _]. eauto.
    + intros H%elem_of_get_ns_idxs_of_nodes. by destruct H.
  - intros (us & uri & -> & Hin & H0). destruct us as [|u us]; [by apply elem_of_nil in Hin|].
    apply elem_of_add_idxs_from_uris. right. exists uri. split; [done|].
    apply index_Some. split; [done|]. intros j Hj. lia.
Qed.

(** [_add_namespaces], when no requested URI is the first entry of the
    namespace table: the list of URIs it hands on has one URI for every
    index of the map other than 0, and the index that the map sends to
    [k + 1] is the index of the URI at position [k]. *)
Theorem namespace_uris_follow_index_map (nodes : list Node)
    (uris : option (list string)) (ns_array : list string)
    (d : gmap nat nat) (ns_to_export : list string) :
  (∀ us uri, uris = Some us → uri ∈ us → ns_array !! 0 ≠ Some uri) →
  _add_namespaces nodes uris ns_array = Ok (d, ns_to_export) →
  d !! 0 = Some 0
  ∧ (∀ i x, d !! i = Some x → x ≤ length ns_to_export)
  ∧ (∀ k, k < length ns_to_export → ∃ i, d !! i = Some (S k))
  ∧ (∀ i k, d !! i = Some (S k) → ns_to_export !! k = ns_array !! i).
Proof.
  intros Huris. unfold _add_namespaces.
  set (idxs := idxs_to_export nodes uris ns_array).
  assert (0 ∉ idxs) as H0.
  { intros H. apply zero_in_idxs_to_export in H as (us & uri & -> & Hin & Hns).
    by apply (Huris us uri). }
  assert (NoDup idxs) as Hnd by apply NoDup_idxs_to_export.
  pose proof (make_idx_dict_remaps idxs ns_array Hnd H0) as (Hd0 & Hdom & Hran & Hinj & Hmono).
  set (d0 := _make_idx_dict idxs ns_array) in *.
  destruct (foldM _ _ _) as [exported|] eqn:Hexp; simpl; [|done].
  intros [= <- <-].
  apply foldM_lookup_spec in Hexp as [Hlen Hget]. simpl in Hlen, Hget.
  set (keys := filter (fun i => i ≠ 0) (sorted_keys d0)) in *.
  (* the keys are the indices in range, in ascending order *)
  assert (StronglySorted lt (merge_sort Nat.le idxs)) as Hsorted by by apply sorted_idxs.
  assert (keys = in_range (length ns_array) (merge_sort Nat.le idxs)) as Hkeys.
  { apply StronglySorted_lt_unique.
    - apply StronglySorted_filter_lt, sorted_idxs, NoDup_elements.
    - by apply StronglySorted_filter_lt.
    - intros i. unfold keys, sorted_keys, in_range.
      rewrite !list_elem_of_filter, !merge_sort_Permutation, elem_of_elements, elem_of_dom.
      rewrite Hdom. unfold in_range. rewrite list_elem_of_filter. split.
      + intros [Hi0 [->|[Hlt Hi]]]; [done|]. done.
      + intros [Hlt Hi]. split; [by intros ->|]. right. done. }
  assert (∀ j i, keys !! j = Some i → d0 !! i = Some (S j)) as Hkd.
  { intros j i Hj. rewrite Hkeys in Hj.
    destruct (make_idx_loop_spec (merge_sort Nat.le idxs) (length ns_array) {[0 := 0]} 0 Hsorted)
      as [Hspec _].
    { intros i' Hi'. rewrite merge_sort_Permutation in Hi'.
      apply lookup_singleton_ne. by intros <-. }
    unfold d0, _make_idx_dict. rewrite (Hspec j i Hj). f_equal. lia. }
  assert (length keys = length (in_range (length ns_array) idxs)) as Hlk.
  { rewrite Hkeys. by rewrite in_range_sorted. }
  split_and!.
  - done.
  - intros i x Hx. rewrite Hlen, Hlk. apply Hran. eauto.
  - intros k Hk. rewrite Hlen in Hk. destruct (lookup_lt_is_Some_2 keys k Hk) as [i Hi].
    exists i. by apply Hkd.
  - intros i k Hi.
    assert (S k ≤ length keys) as Hk.
    { rewrite Hlk. apply Hran. eauto. }
    destruct (lookup_lt_is_Some_2 keys k) as [i' Hi']; [lia|].
    pose proof (Hkd _ _ Hi') as Hd'. rewrite (Hinj _ _ _ Hi Hd').
    by apply Hget.
Qed.

Lemma namespace_uris_follow_index_map_witness :
  ∃ d ns_to_export,
    _add_namespaces [Example.custom_node] (Some ["c"; "x"]) ["a"; "b"; "c"; "d"]
    = Ok (d, ns_to_export)
    ∧ d !! 0 = Some 0
    ∧ (∀ i k, d !! i = Some (S k) → ns_to_export !! k = ["a"; "b"; "c"; "d"] !! i).
Proof.
  eexists _, _. split; [vm_compute; reflexivity|].
  edestruct (namespace_uris_follow_index_map [Example.custom_node] (Some ["c"; "x"])
               ["a"; "b"; "c"; "d"]) as (H1 & _ & _ & H4).
  - intros us uri [= <-] Hin [= <-].
    revert Hin. rewrite !elem_of_cons, elem_of_nil. naive_solver.
  - vm_compute. reflexivity.
  - split; assumption.
Defined.

Lemma add_namespaces_ok nodes uris ns_array :
  ∃ ns_to_export,
    _add_namespaces nodes uris ns_array
    = Ok (_make_idx_dict (idxs_to_export nodes uris ns_array) ns_array, ns_to_export).
Proof.
  unfold _add_namespaces.
  set (d := _make_idx_dict (idxs_to_export nodes uris ns_array) ns_array).
  destruct (foldM_lookup_ok ns_array (filter (fun i => i ≠ 0) (sorted_keys d)) [])
    as [exported Hexp].
  { intros i [Hi0 Hi]%list_elem_of_filter.
    unfold sorted_keys in Hi. rewrite merge_sort_Permutation in Hi.
    apply elem_of_elements, elem_of_dom in Hi.
    destruct (decide (i < length ns_array)); [done|].
    unfold d in Hi. rewrite make_idx_dict_dangling in Hi by lia. by destruct Hi. }
  exists exported. by rewrite Hexp.
Qed.

Lemma make_idx_loop_notin l len d k i :
  i ∉ l → make_idx_loop len d k l !! i = d !! i.
Proof.
  revert d k. induction l as [|a l IH]; intros d k Hi; simpl; [done|].
  apply not_elem_of_cons in Hi as [Hne Hi].
  destruct (decide (len ≤ a)); [done|].
  rewrite IH by done. by apply lookup_insert_ne.
Qed.

Lemma StronglySorted_lt_head_0 (l : list nat) :
  StronglySorted lt l → 0 ∈ l → ∃ rest, l = 0 :: rest ∧ 0 ∉ rest.
Proof.
  intros Hs Hin. destruct Hs as [|a l Hs Hall]; [by apply elem_of_nil in Hin|].
  rewrite Forall_forall in Hall.
  apply elem_of_cons in Hin as [<-|Hin].
  - exists l. split; [done|]. intros H. specialize (Hall _ H). lia.
  - specialize (Hall _ Hin). lia.
Qed.

(** When a requested URI is the first entry of the namespace table,
    [_add_namespaces] returns an index map that sends namespace 0 to 1. *)
Theorem requested_first_uri_renumbers_namespace_0 (nodes : list Node)
    (us : list string) (uri : string) (ns_array : list string) :
  uri ∈ us → ns_array !! 0 = Some uri →
  ∃ d ns_to_export,
    _add_namespaces nodes (Some us) ns_array = Ok (d, ns_to_export)
    ∧ d !! 0 = Some 1.
Proof.
  intros Hin H0.
  destruct (add_namespaces_ok nodes (Some us) ns_array) as [ns_to_export Hok].
  eexists _, ns_to_export. split; [exact Hok|].
  set (idxs := idxs_to_export nodes (Some us) ns_array).
  assert (0 ∈ idxs) as Hz by (apply zero_in_idxs_to_export; eauto).
  assert (StronglySorted lt (merge_sort Nat.le idxs)) as Hs
    by apply sorted_idxs, NoDup_idxs_to_export.
  destruct (StronglySorted_lt_head_0 _ Hs) as (rest & Heq & Hrest).
  { by rewrite merge_sort_Permutation. }
  unfold _make_idx_dict. rewrite Heq. simpl.
  apply lookup_lt_Some in H0.
  destruct (decide (length ns_array ≤ 0)); [lia|].
  rewrite make_idx_loop_notin by done. apply lookup_insert_eq.
Qed.

Lemma requested_first_uri_renumbers_namespace_0_witness :
  ∃ d ns_to_export,
    _add_namespaces [] (Some ["b"; "a"]) ["a"; "b"] = Ok (d, ns_to_export)
    ∧ d !! 0 = Some 1.
Proof.
  apply (requested_first_uri_renumbers_namespace_0 [] ["b"; "a"] "a" ["a"; "b"]).
  - apply elem_of_cons. right. apply elem_of_cons. by left.
  - reflexivity.
Defined.

Lemma add_idxs_from_uris_prefix uris ns_array idxs :
  idxs `prefix_of` _add_idxs_from_uris idxs uris ns_array.
Proof.
  revert idxs. induction uris as [|uri uris IH]; intros idxs; simpl; [done|].
  destruct (index ns_array uri) as [i|]; [|apply IH].
  destruct (decide (i ∉ idxs)); [|apply IH].
  etrans; [|apply IH]. by apply prefix_app_r.
Qed.

(** [_add_idxs_from_uris] keeps the indices it is given, in their order
    and without new duplicates, and adds after them the index of the
    first occurrence of every requested URI that is in the namespace
    table; a URI that is not in the table adds nothing. *)
Theorem add_idxs_from_uris_spec (idxs : list nat) (uris ns_array : list string) :
  NoDup idxs →
  NoDup (_add_idxs_from_uris idxs uris ns_array)
  ∧ idxs `prefix_of` _add_idxs_from_uris idxs uris ns_array
  ∧ (∀ j, j ∈ _add_idxs_from_uris idxs uris ns_array ↔
          j ∈ idxs ∨ ∃ uri, uri ∈ uris ∧ ns_array !! j = Some uri
                            ∧ ∀ j', j' < j → ns_array !! j' ≠ Some uri)
  ∧ ((∀ uri, uri ∈ uris → uri ∉ ns_array) →
     _add_idxs_from_uris idxs uris ns_array = idxs).
Proof.
  intros Hnd. split_and!.
  - by apply NoDup_add_idxs_from_uris.
  - apply add_idxs_from_uris_prefix.
  - intros j. rewrite elem_of_add_idxs_from_uris. by setoid_rewrite index_Some.
  - intros Hnone. clear Hnd. revert idxs.
    induction uris as [|uri uris IH]; intros idxs; simpl; [done|].
    destruct (index ns_array uri) as [i|] eqn:Hi.
    + apply index_Some in Hi as [Hi _]. exfalso.
      apply (Hnone uri); [by left|]. by eapply list_elem_of_lookup_2.
    + apply IH. intros u Hu. apply Hnone. by right.
Qed.

Lemma add_idxs_from_uris_spec_witness :
  NoDup (_add_idxs_from_uris [2] ["c"; "x"; "c"] ["a"; "b"; "c"])
  ∧ _add_idxs_from_uris [2] ["x"] ["a"; "b"; "c"] = [2]
  ∧ _add_idxs_from_uris [3] ["b"; "x"] ["a"; "b"; "c"] = [3; 1].
Proof.
  destruct (add_idxs_from_uris_spec [2] ["c"; "x"; "c"] ["a"; "b"; "c"]) as (H1 & _).
  { apply NoDup_singleton. }
  split; [exact H1|]. split; reflexivity.
Defined.

End NamespacesMore.

(** ** The value codec *)

Module CodecMore.
Import Base64 Codec ElementFacts CodecFacts.

Section facts.
Context (env : Env).

(** [_value_to_etree] only adds children to the element it is given:
    tag, attributes, text and the children that are there stay, and the
    children added are the same for every element. *)
Theorem value_to_etree_only_adds_children (val : Value) (el el' : Element)
    (type_name : string) (dtype : NodeId) :
  _value_to_etree env val el type_name dtype = Ok el' →
  ∃ kids,
    el' = mkElement (tag el) (attrib el) (text el) (children el ++ kids)
    ∧ ∀ el2, _value_to_etree env val el2 type_name dtype
             = Ok (mkElement (tag el2) (attrib el2) (text el2) (children el2 ++ kids)).
Proof.
  rewrite value_to_etree_frame.
  destruct (value_children env val type_name dtype) as [kids|] eqn:Hk; [|done].
  simpl. intros [= <-]. exists kids. split; [by destruct el|].
  intros el2. rewrite value_to_etree_frame, Hk. simpl. by destruct el2.
Qed.

(** [value_to_etree] adds nothing for the value [None] and one [Value]
    child, without attributes and text, for another value. *)
Theorem value_to_etree_one_Value_child (el el' : Element) (dtype_name : string)
    (dtype : NodeId) (var : Value) :
  value_to_etree env el dtype_name dtype var = Ok el' →
  (var = VNone ∧ el' = el)
  ∨ (var ≠ VNone ∧ ∃ kids, el' = append el (mkElement "Value" [] None kids)).
Proof.
  unfold value_to_etree. intros H.
  destruct (match var with VNone => true | _ => false end) eqn:Hnone.
  - destruct var; try done. injection H as <-. by left.
  - right. split; [by intros ->|].
    assert ((val_el ← _value_to_etree env var (Element_new "Value") dtype_name dtype;
             Ok (append el val_el)) = Ok el') as H' by by destruct var.
    clear Hnone.
    clear H. rewrite value_to_etree_frame in H'.
    destruct (value_children env var dtype_name dtype) as [kids|]; [|done].
    simpl in H'. injection H' as <-. by exists kids.
Qed.

Lemma decide_ne_ua_NodeId (z z' : Z) {A} (x y : A) :
  z ≠ z' → (if decide (ua_NodeId z = ua_NodeId z') then x else y) = y.
Proof. intros Hne. rewrite decide_False; [done|]. intros [= ?]. done. Qed.

Lemma val_to_etree_body_plain (val : Value) (el : Element) (z : Z) :
  is_plain val = true →
  z ≠ ObjectIds_.NodeId_ → z ≠ ObjectIds_.Guid →
  z ≠ ObjectIds_.Boolean → z ≠ ObjectIds_.ByteString →
  val_to_etree_body env (member_to_etree env) val el (ua_NodeId z)
  = Ok (set_text el (py_str env val)).
Proof.
  intros Hp H1 H2 H3 H4. unfold val_to_etree_body.
  rewrite !decide_ne_ua_NodeId by done. by destruct val.
Qed.

(** A value written with [str]: when the base of the declared type is a
    built-in type other than NodeId, Guid, Boolean and ByteString, the
    value is one element named after the base type, with [str(val)] as
    text. *)
Theorem scalar_written_under_base_type_name (val : Value) (el : Element)
    (type_name : string) (dtype : NodeId) (z : Z) (name : string) :
  is_plain val = true →
  get_base_data_type env dtype = Ok (ua_NodeId z) →
  (z ≤ 21)%Z →
  z ≠ ObjectIds_.NodeId_ → z ≠ ObjectIds_.Guid →
  z ≠ ObjectIds_.Boolean → z ≠ ObjectIds_.ByteString →
  ObjectIdNames env z = Some name →
  _value_to_etree env val el type_name dtype
  = Ok (append el (mkElement ("uax:" +:+ name) [] (Some (py_str env val)) [])).
Proof.
  intros Hp Hbase Hz H1 H2 H3 H4 Hname.
  assert (_value_to_etree env val el type_name dtype =
          (dtype_base ← get_base_data_type env dtype;
           '(dtype_base, type_name) ←
             (if decide (dtype_base = ua_NodeId ObjectIds_.Enumeration) then
                n ← or_raise KeyError (ObjectIdNames env ObjectIds_.Int32);
                Ok (ua_NodeId ObjectIds_.Int32, n)
              else Ok (dtype_base, type_name));
           builtin ← is_builtin dtype_base;
           if builtin : bool then
             type_name ← or_raise KeyError (ObjectIdNames_get env (Identifier_ dtype_base));
             val_el ← val_to_etree_body env (member_to_etree env) val
                        (Element_new ("uax:" +:+ type_name)) dtype_base;
             Ok (append el val_el)
           else extobj_to_etree_body env (member_to_etree env) val el type_name dtype))
    as -> by by destruct val.
  rewrite Hbase. cbn -[val_to_etree_body is_builtin].
  rewrite decide_ne_ua_NodeId by (unfold ObjectIds_.Enumeration; lia).
  cbn -[val_to_etree_body is_builtin]. rewrite (is_builtin_numeric z : is_builtin (ua_NodeId z) = _).
  assert ((z <=? 21)%Z = true) as -> by lia.
  cbn -[val_to_etree_body]. rewrite Hname. cbn -[val_to_etree_body].
  by rewrite val_to_etree_body_plain.
Qed.

(** A value of a type whose base is Enumeration is written as an Int32:
    one element named by the id table's name of Int32, with [str(val)]
    as text. *)
Theorem enumeration_written_as_Int32 (val : Value) (el : Element)
    (type_name : string) (dtype : NodeId) (name : string) :
  is_plain val = true →
  get_base_data_type env dtype = Ok (ua_NodeId ObjectIds_.Enumeration) →
  ObjectIdNames env ObjectIds_.Int32 = Some name →
  _value_to_etree env val el type_name dtype
  = Ok (append el (mkElement ("uax:" +:+ name) [] (Some (py_str env val)) [])).
Proof.
  intros Hp Hbase Hname.
  assert (_value_to_etree env val el type_name dtype =
          (dtype_base ← get_base_data_type env dtype;
           '(dtype_base, type_name) ←
             (if decide (dtype_base = ua_NodeId ObjectIds_.Enumeration) then
                n ← or_raise KeyError (ObjectIdNames env ObjectIds_.Int32);
                Ok (ua_NodeId ObjectIds_.Int32, n)
              else Ok (dtype_base, type_name));
           builtin ← is_builtin dtype_base;
           if builtin : bool then
             type_name ← or_raise KeyError (ObjectIdNames_get env (Identifier_ dtype_base));
             val_el ← val_to_etree_body env (member_to_etree env) val
                        (Element_new ("uax:" +:+ type_name)) dtype_base;
             Ok (append el val_el)
           else extobj_to_etree_body env (member_to_etree env) val el type_name dtype))
    as -> by by destruct val.
  rewrite Hbase. cbn -[val_to_etree_body is_builtin].
  rewrite decide_True by done. rewrite Hname.
  cbn -[val_to_etree_body is_builtin].
  rewrite (is_builtin_numeric _ : is_builtin (ua_NodeId ObjectIds_.Int32) = _).
  cbn -[val_to_etree_body]. rewrite Hname. cbn -[val_to_etree_body].
  by rewrite val_to_etree_body_plain.
Qed.

Lemma foldM_raises {A B} (f : B → A → result B) (l : list A) (a : A) :
  a ∈ l → (∀ b, ∃ e, f b a = Raise e) → ∀ b, ∃ e, foldM f b l = Raise e.
Proof.
  intros Hin Hf. induction l as [|x l IH]; intros b; [by apply elem_of_nil in Hin|].
  simpl. apply elem_of_cons in Hin as [<-|Hin].
  - destruct (Hf b) as [e ->]. eauto.
  - destruct (f b x) as [b'|e]; simpl; [by apply IH|eauto].
Qed.

(** [_extobj_to_etree] raises for a structure with a member whose type
    name, without a leading [ListOf], is no attribute of
    [ua.ObjectIds]: it does not return. *)
Theorem extobj_unknown_member_type_raises
    (members : list (string * string * Value)) (m : string * string * Value)
    (val_el : Element) (name : string) (dtype : NodeId) :
  m ∈ members → ObjectIds env (strip_ListOf m.1.2) = None →
  ∃ e, _extobj_to_etree env (VStruct members) val_el name dtype = Raise e.
Proof.
  intros Hin Hnone. unfold _extobj_to_etree, extobj_to_etree_body.
  edestruct (foldM_raises
               (fun el '(name, vtype, v) =>
                  dt ← NodeId_of_typename env (strip_ListOf vtype);
                  member_to_etree env v el name dt) members m Hin) as [e ->].
  - intros b. destruct m as [[n vtype] v]. simpl in Hnone.
    unfold NodeId_of_typename. rewrite Hnone. simpl. eauto.
  - simpl. eauto.
Qed.

Lemma substring_all (s : string) : String.substring 0 (String.length s) s = s.
Proof. induction s as [|a s IH]; simpl; [done|]. by rewrite IH. Qed.

Lemma strip_ListOf_prefix (s : string) : strip_ListOf ("ListOf" +:+ s) = s.
Proof.
  unfold strip_ListOf.
  change ("ListOf" +:+ s)
    with (String "L" (String "i" (String "s" (String "t" (String "O" (String "f" s)))))).
  assert (String.prefix "ListOf"
            (String "L" (String "i" (String "s" (String "t" (String "O" (String "f" s))))))
          = true) as -> by (simpl; by destruct s).
  simpl. rewrite Nat.sub_0_r. apply substring_all.
Qed.

Lemma foldM_change_item {A B} (f : B → A → result B) (pre post : list A) (a a' : A) :
  (∀ b, f b a = f b a') →
  ∀ b, foldM f b (pre ++ a :: post) = foldM f b (pre ++ a' :: post).
Proof.
  intros Hf. induction pre as [|x pre IH]; intros b; simpl.
  - by rewrite Hf.
  - destruct (f b x) as [b'|]; simpl; [apply IH|done].
Qed.

(** A member declared as a list, [ListOfT], is written as a member of
    type [T] is: [_extobj_to_etree] takes the [ListOf] off the type
    name before it looks the type up. *)
Theorem extobj_ListOf_member_as_item_type
    (pre post : list (string * string * Value)) (name t : string) (v : Value)
    (val_el : Element) (sname : string) (dtype : NodeId) :
  String.prefix "ListOf" t = false →
  _extobj_to_etree env (VStruct (pre ++ (name, "ListOf" +:+ t, v) :: post))
    val_el sname dtype
  = _extobj_to_etree env (VStruct (pre ++ (name, t, v) :: post)) val_el sname dtype.
Proof.
  intros Ht. unfold _extobj_to_etree, extobj_to_etree_body.
  rewrite (foldM_change_item _ pre post (name, "ListOf" +:+ t, v) (name, t, v)); [done|].
  intros b. rewrite strip_ListOf_prefix. unfold strip_ListOf. by rewrite Ht.
Qed.

(** A member that is [None]: [member_to_etree] raises for a member of
    type NodeId, and for a type other than NodeId, Guid, Boolean and
    ByteString it writes the element of the member, empty. *)
Theorem member_None (el : Element) (name : string) (dtype : NodeId) :
  (dtype = ua_NodeId ObjectIds_.NodeId_ →
   member_to_etree env VNone el name dtype = Raise AttributeError)
  ∧ (dtype ≠ ua_NodeId ObjectIds_.NodeId_ → dtype ≠ ua_NodeId ObjectIds_.Guid →
     dtype ≠ ua_NodeId ObjectIds_.Boolean → dtype ≠ ua_NodeId ObjectIds_.ByteString →
     member_to_etree env VNone el name dtype
     = Ok (append el (mkElement ("uax:" +:+ name) [] None []))).
Proof.
  split.
  - intros ->. reflexivity.
  - intros H1 H2 H3 H4. simpl. unfold val_to_etree_body.
    by rewrite !decide_False by done.
Qed.

End facts.

Lemma value_to_etree_only_adds_children_witness :
  ∃ kids,
    ∀ el2, _value_to_etree Example.env (VList [VInt 1; VInt 2]) el2 "Int32" (ua_NodeId 6)
           = Ok (mkElement (tag el2) (attrib el2) (text el2) (children el2 ++ kids)).
Proof.
  destruct (value_to_etree_only_adds_children Example.env (VList [VInt 1; VInt 2])
              (Element_new "Value") _ "Int32" (ua_NodeId 6) eq_refl) as (kids & _ & H).
  by exists kids.
Defined.

Lemma value_to_etree_one_Value_child_witness :
  (VInt 7 = VNone ∧ mkElement "UAVariable" [] None
                      [mkElement "Value" [] None
                         [mkElement "uax:Int32" [] (Some "7") []]]
                    = Element_new "UAVariable")
  ∨ (VInt 7 ≠ VNone
     ∧ ∃ kids, mkElement "UAVariable" [] None
                 [mkElement "Value" [] None [mkElement "uax:Int32" [] (Some "7") []]]
               = append (Element_new "UAVariable") (mkElement "Value" [] None kids)).
Proof.
  apply (value_to_etree_one_Value_child Example.env (Element_new "UAVariable") _
           "Int32" (ua_NodeId 6) (VInt 7)).
  reflexivity.
Defined.

Lemma scalar_written_under_base_type_name_witness :
  _value_to_etree Example.env (VStr "on") (Element_new "Value") "String" (ua_NodeId 12)
  = Ok (mkElement "Value" [] None [mkElement "uax:String" [] (Some "on") []]).
Proof.
  apply (scalar_written_under_base_type_name Example.env (VStr "on") (Element_new "Value")
           "String" (ua_NodeId 12) 12 "String"); (reflexivity || done).
Defined.

Lemma enumeration_written_as_Int32_witness :
  _value_to_etree ExampleMore.env (VInt 2) (Element_new "Value") "ns=1;i=3001"
    (mkNodeId 2 (Numeric 3001))
  = Ok (mkElement "Value" [] None [mkElement "uax:Int32" [] (Some "2") []]).
Proof.
  apply (enumeration_written_as_Int32 ExampleMore.env (VInt 2) (Element_new "Value")
           "ns=1;i=3001" (mkNodeId 2 (Numeric 3001)) "Int32"); reflexivity.
Defined.

Lemma extobj_unknown_member_type_raises_witness :
  ∃ e, _extobj_to_etree Example.env
         (VStruct [("Name", "String", VStr "x"); ("Status", "PumpStatusType", VInt 1)])
         (Element_new "Value") "Pump" (mkNodeId 2 (Numeric 3002)) = Raise e.
Proof.
  apply (extobj_unknown_member_type_raises Example.env _
           ("Status", "PumpStatusType", VInt 1)).
  - apply elem_of_cons. right. apply elem_of_cons. by left.
  - reflexivity.
Defined.

Lemma extobj_ListOf_member_as_item_type_witness :
  _extobj_to_etree Example.env
    (VStruct [("Name", "String", VStr "x");
              ("ArrayDimensions", "ListOfUInt32", VList [VInt 2])])
    (Element_new "Value") "Argument" (ua_NodeId 296)
  = _extobj_to_etree Example.env
      (VStruct [("Name", "String", VStr "x");
                ("ArrayDimensions", "UInt32", VList [VInt 2])])
      (Element_new "Value") "Argument" (ua_NodeId 296).
Proof.
  apply (extobj_ListOf_member_as_item_type Example.env [("Name", "String", VStr "x")] []
           "ArrayDimensions" "UInt32" (VList [VInt 2])).
  reflexivity.
Defined.

Lemma extobj_members_in_declared_order_witness :
  ∃ struct_el,
    tag struct_el = "uax:Argument"
    ∧ tag <$> children struct_el
      = (fun m : string * string * Value => "uax:" +:+ m.1.1)
          <$> Example.members_description_first.
Proof.
  destruct (extobj_members_in_declared_order Example.env Example.members_description_first
              (Element_new "Value") "Argument" (ua_NodeId ObjectIds_.Argument) _ eq_refl)
    as (struct_el & _ & H1 & H2).
  by exists struct_el.
Defined.

End CodecMore.

(** ** The node serializer *)

Module SerializerMore.
Import Serializer ElementFacts SerializerFacts.

Section facts.
Context (env : Env).

Lemma add_sub_el_eq el name text :
  _add_sub_el el name text = append el (mkElement name [] text []).
Proof. reflexivity. Qed.

Lemma add_node_common_shape self nodetype node :
  ∃ a kids,
    _add_node_common env self nodetype node
    = mkElement nodetype a None
        (mkElement "DisplayName" [] (Text (read_display_name node)) [] :: kids)
    ∧ dict_get a "NodeId"
        = Some (_node_to_string env (_addr_idx_to_xml_idx self) (nodeid node))
    ∧ dict_get a "BrowseName"
        = Some (_bname_to_string env (_addr_idx_to_xml_idx self) (read_browse_name node))
    ∧ dict_get a "ParentNodeId"
        = (p ← get_parent node;
           if decide (read_node_class node ∈ [Object; Variable_; Method])
           then Some (_node_to_string env (_addr_idx_to_xml_idx self) p) else None)
    ∧ kids = match read_description node with
             | Some (mkLocalizedText (Some t)) =>
                 if decide (t = EmptyString) then []
                 else [mkElement "Description" [] (Some t) []]
             | _ => []
             end.
Proof.
  unfold _add_node_common.
  set (d := _addr_idx_to_xml_idx self).
  set (e0 := set_attrib (set_attrib (Element_new nodetype) "NodeId" _) "BrowseName" _).
  set (e1 := match get_parent node with
             | Some parent => if decide (read_node_class node ∈ [Object; Variable_; Method])
                              then set_attrib e0 "ParentNodeId" (_node_to_string env d parent)
                              else e0
             | None => e0
             end).
  assert (∃ a, e1 = mkElement nodetype a None []
               ∧ dict_get a "NodeId" = Some (_node_to_string env d (nodeid node))
               ∧ dict_get a "BrowseName" = Some (_bname_to_string env d (read_browse_name node))
               ∧ dict_get a "ParentNodeId"
                 = (p ← get_parent node;
                    if decide (read_node_class node ∈ [Object; Variable_; Method])
                    then Some (_node_to_string env d p) else None))
    as (a & -> & H1 & H2 & H3).
  { unfold e1, e0. destruct (get_parent node) as [p|]; simpl.
    - destruct (decide _); simpl; eexists; (split; [reflexivity|]); simpl; done.
    - eexists; (split; [reflexivity|]); simpl; done. }
  destruct (read_description node) as [[[t|]]|]; simpl.
  - destruct t as [|c t]; simpl.
    + by exists a, [].
    + by eexists a, _.
  - by exists a, [].
  - by exists a, [].
Qed.

(** [_add_node_common]: the element has the tag asked for and the
    remapped NodeId and browse name; [ParentNodeId] is written exactly
    for an Object, a Variable or a Method that has a parent, and a
    [Description] child exactly for a description with a text that is
    not empty. *)
Theorem add_node_common_spec (self : Exporter) (nodetype : string) (node : Node) :
  tag (_add_node_common env self nodetype node) = nodetype
  ∧ dict_get (attrib (_add_node_common env self nodetype node)) "NodeId"
      = Some (_node_to_string env (_addr_idx_to_xml_idx self) (nodeid node))
  ∧ dict_get (attrib (_add_node_common env self nodetype node)) "BrowseName"
      = Some (_bname_to_string env (_addr_idx_to_xml_idx self) (read_browse_name node))
  ∧ (is_Some (dict_get (attrib (_add_node_common env self nodetype node)) "ParentNodeId")
     ↔ is_Some (get_parent node) ∧ read_node_class node ∈ [Object; Variable_; Method])
  ∧ children (_add_node_common env self nodetype node) !! 0
      = Some (mkElement "DisplayName" [] (Text (read_display_name node)) [])
  ∧ ((∃ c, c ∈ children (_add_node_common env self nodetype node) ∧ tag c = "Description")
     ↔ ∃ t, read_description node = Some (mkLocalizedText (Some t)) ∧ t ≠ EmptyString).
Proof.
  destruct (add_node_common_shape self nodetype node) as (a & kids & -> & H1 & H2 & H3 & Hk).
  simpl. split_and!; try done.
  - rewrite H3. destruct (get_parent node) as [p|]; simpl.
    + destruct (decide _) as [Hc|Hc]; split.
      * eauto.
      * eauto.
      * by intros [??].
      * intros [_ ?]. done.
    + split; [by intros [??]|by intros [[??] _]].
  - rewrite Hk. split.
    + intros (c & Hc & Htag). apply elem_of_cons in Hc as [->|Hc]; [done|].
      destruct (read_description node) as [[[t|]]|]; try by apply elem_of_nil in Hc.
      destruct (decide (t = EmptyString)); [by apply elem_of_nil in Hc|]. eauto.
    + intros (t & -> & Hne). rewrite decide_False by done.
      eexists. split; [right; left|]. done.
Qed.

(** A reference whose type identifier is in the id table: whatever the
    namespace of the type, [ReferenceType] is the name of the table and
    that name is registered as the alias of the type id. *)
Theorem known_reference_type_by_name (self : Exporter) (parent_el : Element)
    (obj : Node) (i : nat) (ref : ReferenceDescription) (name : string) :
  get_references obj !! i = Some ref →
  ObjectIdNames_get env (Identifier_ (ReferenceTypeId ref)) = Some name →
  ∃ refs_el ref_el,
    (_add_ref_els env self parent_el obj).1 = append parent_el refs_el
    ∧ children refs_el !! i = Some ref_el
    ∧ dict_get (attrib ref_el) "ReferenceType" = Some name
    ∧ (_add_ref_els env self parent_el obj).2 !! ReferenceTypeId ref = Some name.
Proof.
  intros Hi Hname. rewrite add_ref_els_eq. simpl.
  eexists _, (reference_el env (_addr_idx_to_xml_idx self) ref).
  split; [reflexivity|]. simpl. split_and!.
  - by rewrite list_lookup_fmap, Hi.
  - destruct (reference_el_spec env (_addr_idx_to_xml_idx self) ref) as (_ & -> & _).
    unfold ref_name. by rewrite Hname.
  - rewrite register_refs_lookup by by eapply list_elem_of_lookup_2.
    unfold ref_name. by rewrite Hname.
Qed.

(** *** Variables *)

Lemma value_to_etree_keeps el el' dtype_name dtype var :
  Codec.value_to_etree env el dtype_name dtype var = Ok el' →
  tag el' = tag el ∧ attrib el' = attrib el ∧ text el' = text el
  ∧ ∃ kids, children el' = children el ++ kids ∧ length kids ≤ 1.
Proof.
  unfold Codec.value_to_etree. intros H.
  assert (el' = el ∨ ∃ val_el, el' = append el val_el) as [->|[val_el ->]].
  { destruct var; try (injection H as <-; by left);
      (destruct (Codec._value_to_etree _ _ _ _ _) as [val_el|]; simpl in H; [|done]);
      injection H as <-; eauto. }
  - split_and!; try done. exists []. split; [by rewrite app_nil_r|simpl; lia].
  - rewrite tag_append, attrib_append, text_append, children_append.
    split_and!; try done. eexists. split; [done|]. simpl. lia.
Qed.

(** The element of [add_variable_common] before the value is written. *)
Lemma add_variable_common_inv self node el self' el' :
  add_variable_common env self node el = Ok (self', el') →
  ∃ dtype_name el0,
    (dtype_name, aliases self')
    = match (if decide (NamespaceIndex (read_data_type node) = 0)
             then ObjectIdNames_get env (Identifier_ (read_data_type node)) else None) with
      | Some dtype_name =>
          (dtype_name, <[read_data_type node := dtype_name]> (aliases self))
      | None => (_node_to_string env (_addr_idx_to_xml_idx self) (read_data_type node),
                 aliases self)
      end
    ∧ _addr_idx_to_xml_idx self' = _addr_idx_to_xml_idx self
    ∧ etree self' = etree self
    ∧ tag el0 = tag el ∧ text el0 = text el ∧ children el0 = children el
    ∧ Codec.value_to_etree env (set_attrib el0 "DataType" dtype_name) dtype_name
        (read_data_type node) (read_data_value node) = Ok el'.
Proof.
  unfold add_variable_common.
  destruct (if decide (NamespaceIndex (read_data_type node) = 0)
            then ObjectIdNames_get env (Identifier_ (read_data_type node))
            else None) as [name|].
  all: match goal with
       | |- context [Codec.value_to_etree env (set_attrib ?e "DataType" ?n) _ _ _] =>
           set (el0 := e); destruct (Codec.value_to_etree env (set_attrib el0 "DataType" n)
                                       n (read_data_type node) (read_data_value node))
                             as [x|] eqn:Hv; simpl; [|done]
       end.
  all: intros [= <- <-]; simpl; eexists _, el0; split_and!; try done.
  all: unfold el0; destruct (decide (read_value_rank node ≠ (-1)%Z));
    destruct (read_ArrayDimensions node);
    by rewrite ?tag_set_attrib, ?text_set_attrib, ?children_set_attrib.
Qed.

(** [add_variable_common], when the value is written: the [DataType]
    attribute is the name of the id table for a type of namespace 0
    whose identifier is in the table, and that name becomes the alias of
    the type; for any other type it is the remapped string of the type
    and the aliases are as before.  The element keeps its tag and gets
    at most one more child. *)
Theorem add_variable_common_data_type (self : Exporter) (node : Node)
    (el : Element) (self' : Exporter) (el' : Element) :
  add_variable_common env self node el = Ok (self', el') →
  tag el' = tag el
  ∧ (∃ kids, children el' = children el ++ kids ∧ length kids ≤ 1)
  ∧ (∀ name,
       NamespaceIndex (read_data_type node) = 0 →
       ObjectIdNames_get env (Identifier_ (read_data_type node)) = Some name →
       dict_get (attrib el') "DataType" = Some name
       ∧ aliases self' = <[read_data_type node := name]> (aliases self))
  ∧ (NamespaceIndex (read_data_type node) ≠ 0
     ∨ ObjectIdNames_get env (Identifier_ (read_data_type node)) = None →
     dict_get (attrib el') "DataType"
       = Some (_node_to_string env (_addr_idx_to_xml_idx self) (read_data_type node))
     ∧ aliases self' = aliases self).
Proof.
  intros (dtype_name & el0 & Hal & _ & _ & Ht & _ & Hc & Hv)%add_variable_common_inv.
  apply value_to_etree_keeps in Hv as (Ht' & Ha' & _ & kids & Hk & Hlen).
  rewrite tag_set_attrib in Ht'. rewrite attrib_set_attrib in Ha'.
  rewrite children_set_attrib in Hk.
  split_and!.
  - congruence.
  - exists kids. split; [congruence|done].
  - intros name Hns Hname. rewrite decide_True, Hname in Hal by done.
    injection Hal as -> ->. by rewrite Ha', dict_get_set.
  - intros Hor.
    assert ((if decide (NamespaceIndex (read_data_type node) = 0)
             then ObjectIdNames_get env (Identifier_ (read_data_type node)) else None)
            = None) as Hnone.
    { destruct Hor as [Hne| ->]; [by rewrite decide_False|by destruct (decide _)]. }
    rewrite Hnone in Hal. injection Hal as -> ->. by rewrite Ha', dict_get_set.
Qed.

(** *** The alias element *)

(** [_add_alias_els] returns, whatever the order of the NodeIds is: the
    lookup of a key of the dict does not fail.  The [Aliases] element
    becomes the second child of the root, or the only one of a root
    without children; it has one [Alias] child for every entry of the
    dict, and the dict and the index map are as before. *)
Theorem add_alias_els_total (self : Exporter) :
  ∃ kids,
    _add_alias_els env self
    = Ok (mkExporter (aliases self) (_addr_idx_to_xml_idx self)
            (mkElement (tag (etree self)) (attrib (etree self)) (text (etree self))
               (take 1 (children (etree self)) ++ mkElement "Aliases" [] None kids
                  :: drop 1 (children (etree self)))))
    ∧ length kids = size (aliases self)
    ∧ ∀ kid, kid ∈ kids ↔
        ∃ k name, aliases self !! k = Some name
                  ∧ kid = mkElement "Alias" [("Alias", name)]
                            (Some (NodeId_to_string env k)) [].
Proof.
  unfold _add_alias_els.
  assert (ordered_keys env (aliases self) ≡ₚ elements (dom (aliases self))) as Hperm
    by apply merge_sort_Permutation.
  destruct (aliases_loop_ok env (aliases self) (ordered_keys env (aliases self))
              (Element_new "Aliases")) as (kids & Hloop & Hlen & Hkids).
  { intros k Hk. rewrite Hperm in Hk. by apply elem_of_elements, elem_of_dom in Hk. }
  assert (aliases_el env (aliases self) = Ok (mkElement "Aliases" [] None kids)) as ->
    by exact Hloop.
  exists kids. simpl. split_and!.
  - by destruct (etree self).
  - rewrite Hlen, Hperm. by rewrite <- size_dom.
  - intros kid. split.
    + intros [i Hi]%list_elem_of_lookup_1.
      destruct (lookup_lt_is_Some_2 (ordered_keys env (aliases self)) i) as [k Hk].
      { rewrite <- Hlen. by eapply lookup_lt_Some. }
      destruct (Hkids i k Hk) as (name & Hname & Hkid).
      exists k, name. split; [done|]. congruence.
    + intros (k & name & Hname & ->).
      assert (k ∈ ordered_keys env (aliases self)) as [i Hi]%list_elem_of_lookup_1.
      { rewrite Hperm. apply elem_of_elements, elem_of_dom. eauto. }
      destruct (Hkids i k Hi) as (name' & Hname' & Hkid).
      assert (name' = name) as -> by congruence.
      by eapply list_elem_of_lookup_2.
Qed.

(** *** Data types *)

Lemma definition_el_enum bname Fields :
  definition_el env bname (EnumDefinition Fields)
  = mkElement "Definition" [("Name", qn_Name bname)] None
      ((fun field => mkElement "Field" [("Name", ef_Name field);
                                       ("Value", pretty (ef_Value field))] None [])
         <$> Fields).
Proof.
  unfold definition_el, _enum_fields_to_etree.
  set (f := fun field => mkElement "Field" [("Name", ef_Name field);
                                           ("Value", pretty (ef_Value field))] None []).
  set (el0 := set_attrib (Element_new "Definition") "Name" (qn_Name bname)).
  change (foldl _ el0 Fields) with (foldl (fun el x => append el (f x)) el0 Fields).
  pose proof (children_foldl_append f Fields el0) as Hc.
  pose proof (tag_foldl_append f Fields el0) as Ht.
  pose proof (attrib_foldl_append f Fields el0) as Ha.
  pose proof (text_foldl_append f Fields el0) as Hx.
  destruct (foldl _ el0 Fields). simpl in *. by subst.
Qed.

(** A DataType node with an enumeration definition gets a [Definition]
    child named after the browse name, with one [Field] for every field
    of the definition, in order, that has the name and the value of the
    field as attributes. *)
Theorem datatype_enum_definition (self : Exporter) (obj : Node)
    (Fields : list EnumField) :
  read_DataTypeDefinition obj = Some (EnumDefinition Fields) →
  ∃ obj_el,
    children (etree (add_etree_datatype env self obj)) = children (etree self) ++ [obj_el]
    ∧ tag obj_el = "UADataType"
    ∧ mkElement "Definition" [("Name", qn_Name (read_browse_name obj))] None
        ((fun field => mkElement "Field" [("Name", ef_Name field);
                                         ("Value", pretty (ef_Value field))] None [])
           <$> Fields)
      ∈ children obj_el.
Proof.
  intros Hdef. unfold add_etree_datatype.
  rewrite Hdef, add_ref_els_eq, definition_el_enum. cbn [etree].
  eexists. rewrite children_append. split; [reflexivity|].
  rewrite !tag_append, !children_append.
  destruct (add_node_common_shape self "UADataType" obj) as (a & kids & -> & _).
  split; [done|]. cbn [children]. apply elem_of_app. left. apply elem_of_cons. right.
  apply elem_of_app. right. by left.
Qed.

(** A DataType node whose definition attribute holds no value gets no
    [Definition] child: its children are the display name, the
    description if there is one, and the references. *)
Theorem datatype_without_definition (self : Exporter) (obj : Node) :
  read_DataTypeDefinition obj = None →
  ∃ obj_el,
    children (etree (add_etree_datatype env self obj)) = children (etree self) ++ [obj_el]
    ∧ tag obj_el = "UADataType"
    ∧ ∀ c, c ∈ children obj_el → tag c ≠ "Definition".
Proof.
  intros Hdef. unfold add_etree_datatype. rewrite Hdef, add_ref_els_eq. cbn [etree].
  eexists. rewrite children_append. split; [reflexivity|].
  rewrite !tag_append, !children_append.
  destruct (add_node_common_shape self "UADataType" obj) as (a & kids & -> & _ & _ & _ & ->).
  split; [done|]. cbn [children]. intros c Hc.
  apply elem_of_cons in Hc as [->|Hc]; [done|].
  apply elem_of_app in Hc as [Hc|Hc].
  - destruct (read_description obj) as [[[t|]]|]; try by apply elem_of_nil in Hc.
    destruct (decide _); [by apply elem_of_nil in Hc|].
    by apply list_elem_of_singleton in Hc as ->.
  - by apply list_elem_of_singleton in Hc as ->.
Qed.

End facts.

Lemma known_reference_type_by_name_witness :
  ∃ refs_el ref_el,
    (_add_ref_els Example.env Example.exporter_2_to_1 (Element_new "UAVariable")
       (NodeSet.node ExampleMore.speed)).1 = append (Element_new "UAVariable") refs_el
    ∧ children refs_el !! 0 = Some ref_el
    ∧ dict_get (attrib ref_el) "ReferenceType" = Some "HasTypeDefinition"
    ∧ (_add_ref_els Example.env Example.exporter_2_to_1 (Element_new "UAVariable")
         (NodeSet.node ExampleMore.speed)).2 !! ua_NodeId 40 = Some "HasTypeDefinition".
Proof.
  apply (known_reference_type_by_name Example.env Example.exporter_2_to_1
           (Element_new "UAVariable") (NodeSet.node ExampleMore.speed) 0
           (mkRef (ua_NodeId 40) true (ua_NodeId 63)) "HasTypeDefinition"); reflexivity.
Defined.

Lemma add_variable_common_data_type_witness :
  ∃ self' el',
    add_variable_common Example.env Example.exporter_2_to_1 (NodeSet.node ExampleMore.speed)
      (Element_new "UAVariable") = Ok (self', el')
    ∧ tag el' = "UAVariable"
    ∧ dict_get (attrib el') "DataType" = Some "Int32"
    ∧ aliases self' = <[ua_NodeId 6 := "Int32"]> (aliases Example.exporter_2_to_1).
Proof.
  eexists _, _. split; [reflexivity|].
  edestruct (add_variable_common_data_type Example.env Example.exporter_2_to_1
               (NodeSet.node ExampleMore.speed) (Element_new "UAVariable")) as (H1 & _ & H3 & _);
    [reflexivity|].
  destruct (H3 "Int32" eq_refl eq_refl) as [H4 H5].
  split_and!; [exact H1|exact H4|exact H5].
Defined.

Lemma datatype_enum_definition_witness :
  ∃ obj_el,
    children (etree (add_etree_datatype Example.env XmlExporter_init ExampleMore.colour))
      = [obj_el]
    ∧ tag obj_el = "UADataType"
    ∧ mkElement "Definition" [("Name", "Colour")] None
        [mkElement "Field" [("Name", "Red"); ("Value", "0")] None [];
         mkElement "Field" [("Name", "Green"); ("Value", "1")] None []]
      ∈ children obj_el.
Proof.
  apply (datatype_enum_definition Example.env XmlExporter_init ExampleMore.colour
           [mkEnumField "Red" 0; mkEnumField "Green" 1]).
  reflexivity.
Defined.

Lemma datatype_without_definition_witness :
  ∃ obj_el,
    children (etree (add_etree_datatype Example.env XmlExporter_init Example.custom_node))
      = [obj_el]
    ∧ tag obj_el = "UADataType"
    ∧ ∀ c, c ∈ children obj_el → tag c ≠ "Definition".
Proof.
  apply (datatype_without_definition Example.env XmlExporter_init Example.custom_node).
  reflexivity.
Defined.

End SerializerMore.

(** ** The node classes and the whole export *)

Module NodeSetFacts.
Import Serializer NodeSet ElementFacts SerializerFacts SerializerMore.

Section facts.
Context (env : Env).

Lemma Ok_not_Raise {A} (x : A) (e : exn) : Ok x = Raise e → False.
Proof. discriminate. Qed.

Lemma tag_if_set (b : bool) el k v :
  tag (if b then set_attrib el k v else el) = tag el.
Proof. destruct b; [apply tag_set_attrib|done]. Qed.

Lemma tag_if_keep (b : bool) el k v :
  tag (if b then el else set_attrib el k v) = tag el.
Proof. destruct b; [done|apply tag_set_attrib]. Qed.

Lemma tag_add_node_common self nodetype (n : Node) :
  tag (_add_node_common env self nodetype n) = nodetype.
Proof. by destruct (add_node_common_shape env self nodetype n) as (a & kids & -> & _). Qed.

Lemma register_all_keeps regs (m : gmap NodeId string) k :
  is_Some (m !! k) → is_Some (register_all regs m !! k).
Proof.
  revert m. induction regs as [|[k0 v0] regs IH]; intros m Hk; [done|].
  rewrite register_all_cons. apply IH.
  destruct (decide (k0 = k)) as [->|]; [by rewrite lookup_insert_eq|].
  by rewrite lookup_insert_ne.
Qed.

Lemma add_etree_object_added self (n : AttrNode) :
  added "UAObject" self (add_etree_object env self n).
Proof.
  unfold add_etree_object. rewrite add_ref_els_eq. split_and!; [done| |].
  - intros k Hk. by apply register_all_keeps.
  - eexists. split; [reflexivity|].
    by rewrite tag_append, tag_if_keep, tag_add_node_common.
Qed.

Lemma add_etree_object_type_added self (n : AttrNode) :
  added "UAObjectType" self (add_etree_object_type env self n).
Proof.
  unfold add_etree_object_type. rewrite add_ref_els_eq. split_and!; [done| |].
  - intros k Hk. by apply register_all_keeps.
  - eexists. split; [reflexivity|].
    by rewrite tag_append, tag_if_set, tag_add_node_common.
Qed.

Lemma add_etree_method_added self (n : AttrNode) :
  added "UAMethod" self (add_etree_method env self n).
Proof.
  unfold add_etree_method. rewrite add_ref_els_eq. split_and!; [done| |].
  - intros k Hk. by apply register_all_keeps.
  - eexists. split; [reflexivity|].
    by rewrite tag_append, !tag_if_set, tag_add_node_common.
Qed.

Lemma add_etree_reference_type_added self (n : AttrNode) :
  added "UAReferenceType" self (add_etree_reference_type env self n).
Proof.
  unfold add_etree_reference_type. rewrite add_ref_els_eq. split_and!; [done| |].
  - intros k Hk. by apply register_all_keeps.
  - eexists. split; [reflexivity|].
    destruct (read_InverseName n) as [[[t|]]|];
      by rewrite ?add_sub_el_eq, ?tag_append, tag_add_node_common.
Qed.

Lemma add_etree_datatype_added self (n : Node) :
  added "UADataType" self (add_etree_datatype env self n).
Proof.
  unfold add_etree_datatype. rewrite add_ref_els_eq. split_and!; [done| |].
  - intros k Hk. by apply register_all_keeps.
  - eexists. split; [reflexivity|].
    destruct (read_DataTypeDefinition n); by rewrite ?tag_append, tag_add_node_common.
Qed.

Lemma add_variable_common_keeps self (n : Node) el self' el' :
  add_variable_common env self n el = Ok (self', el') →
  tag el' = tag el
  ∧ _addr_idx_to_xml_idx self' = _addr_idx_to_xml_idx self
  ∧ ∀ k, is_Some (aliases self !! k) → is_Some (aliases self' !! k).
Proof.
  intros H. pose proof (add_variable_common_aliases env _ _ _ _ _ H) as Hal.
  apply add_variable_common_inv in H as (dtype_name & el0 & _ & Hd & _ & Ht & _ & _ & Hv).
  apply value_to_etree_keeps in Hv as (Ht' & _).
  rewrite tag_set_attrib in Ht'. split_and!; [congruence|done|].
  intros k Hk. destruct Hal as [->|[name ->]]; [done|].
  by apply (register_all_keeps [(_, _)]).
Qed.

Lemma add_etree_variable_added self (n : AttrNode) self' :
  add_etree_variable env self n = Ok self' → added "UAVariable" self self'.
Proof.
  unfold add_etree_variable. rewrite add_ref_els_eq.
  destruct (add_variable_common _ _ _ _) as [[self2 var_el]|] eqn:Hv; simpl; [|done].
  intros [= <-]. apply add_variable_common_keeps in Hv as (Ht & Hd & Hal).
  simpl in Hd, Hal. split_and!; [done| |].
  - intros k Hk. simpl. by apply Hal, register_all_keeps.
  - eexists. split; [reflexivity|].
    by rewrite !tag_if_set, Ht, tag_append, tag_add_node_common.
Qed.

Lemma add_etree_variable_type_added self (n : AttrNode) self' :
  add_etree_variable_type env self n = Ok self' → added "UAVariableType" self self'.
Proof.
  unfold add_etree_variable_type.
  destruct (add_variable_common _ _ _ _) as [[self1 var_el]|] eqn:Hv; simpl; [|done].
  rewrite add_ref_els_eq. intros [= <-].
  apply add_variable_common_keeps in Hv as (Ht & Hd & Hal).
  split_and!; [done| |].
  - intros k Hk. simpl. by apply register_all_keeps, Hal.
  - eexists. split; [reflexivity|].
    by rewrite tag_append, tag_if_set, Ht, tag_add_node_common.
Qed.

(** [node_to_etree], when it returns: for a node of one of the seven
    classes it exports, the root has one more child, tagged after the
    class; for a node of another class nothing changes.  The index map
    is as it was, and no alias is lost. *)
Theorem node_to_etree_adds_one_element (self : Exporter) (n : AttrNode)
    (self' : Exporter) :
  node_to_etree env self n = Ok self' →
  _addr_idx_to_xml_idx self' = _addr_idx_to_xml_idx self
  ∧ (∀ k, is_Some (aliases self !! k) → is_Some (aliases self' !! k))
  ∧ match class_tag (read_node_class n) with
    | Some t => ∃ node_el, etree self' = append (etree self) node_el ∧ tag node_el = t
    | None => self' = self
    end.
Proof.
  unfold node_to_etree. destruct (read_node_class n) eqn:Hc; simpl.
  - intros [= <-]. apply add_etree_object_added.
  - intros [= <-]. apply add_etree_object_type_added.
  - apply add_etree_variable_added.
  - apply add_etree_variable_type_added.
  - intros [= <-]. apply add_etree_reference_type_added.
  - intros [= <-]. apply add_etree_datatype_added.
  - intros [= <-]. apply add_etree_method_added.
  - intros [= <-]. done.
Qed.

(** *** The whole export *)

Lemma add_namespace_uri_els_eq self uris :
  _add_namespace_uri_els self uris
  = mkExporter (aliases self) (_addr_idx_to_xml_idx self)
      (mkElement (tag (etree self)) (attrib (etree self)) (text (etree self))
         (mkElement "NamespaceUris" [] None
            ((fun uri => mkElement "Uri" [] (Some uri) []) <$> uris)
          :: children (etree self))).
Proof.
  unfold _add_namespace_uri_els. f_equal.
  pose proof (children_foldl_append (fun uri => mkElement "Uri" [] (Some uri) []) uris
                (Element_new "NamespaceUris")) as Hc.
  pose proof (tag_foldl_append (fun uri => mkElement "Uri" [] (Some uri) []) uris
                (Element_new "NamespaceUris")) as Ht.
  pose proof (attrib_foldl_append (fun uri => mkElement "Uri" [] (Some uri) []) uris
                (Element_new "NamespaceUris")) as Ha.
  pose proof (text_foldl_append (fun uri => mkElement "Uri" [] (Some uri) []) uris
                (Element_new "NamespaceUris")) as Hx.
  change (foldl (fun nuris_el uri => _add_sub_el nuris_el "Uri" (Some uri))
            (Element_new "NamespaceUris") uris)
    with (foldl (fun el uri => append el (mkElement "Uri" [] (Some uri) []))
            (Element_new "NamespaceUris") uris).
  destruct (foldl _ _ uris) as [t a x c]. simpl in *. subst.
  destruct (etree self) as [t a x c]. simpl. done.
Qed.

Lemma foldM_node_to_etree (nodes : list AttrNode) self self' :
  foldM (node_to_etree env) self nodes = Ok self' →
  _addr_idx_to_xml_idx self' = _addr_idx_to_xml_idx self
  ∧ (∀ k, is_Some (aliases self !! k) → is_Some (aliases self' !! k))
  ∧ ∃ els, etree self' = add_children (etree self) els
           ∧ tag <$> els = omap (fun n : AttrNode => class_tag (read_node_class n)) nodes.
Proof.
  revert self. induction nodes as [|n nodes IH]; intros self H; simpl in H.
  - injection H as <-. split_and!; [done..|]. exists []. by rewrite add_children_nil.
  - destruct (node_to_etree env self n) as [self1|] eqn:Hn; simpl in H; [|done].
    apply IH in H as (Hd & Hal & els & Het & Htags).
    assert (_addr_idx_to_xml_idx self1 = _addr_idx_to_xml_idx self
            ∧ (∀ k, is_Some (aliases self !! k) → is_Some (aliases self1 !! k))
            ∧ match class_tag (read_node_class n) with
              | Some t => ∃ node_el, etree self1 = append (etree self) node_el
                                     ∧ tag node_el = t
              | None => self1 = self
              end) as (Hd1 & Hal1 & Hel1).
    { revert Hn. unfold node_to_etree. destruct (read_node_class n); simpl.
      - intros [= <-]. apply add_etree_object_added.
      - intros [= <-]. apply add_etree_object_type_added.
      - apply add_etree_variable_added.
      - apply add_etree_variable_type_added.
      - intros [= <-]. apply add_etree_reference_type_added.
      - intros [= <-]. apply add_etree_datatype_added.
      - intros [= <-]. apply add_etree_method_added.
      - intros [= <-]. done. }
    split_and!; [congruence|auto|].
    set (f := fun n : AttrNode => class_tag (read_node_class n)) in *.
    change (omap f (n :: nodes))
      with (match f n with Some y => y :: omap f nodes | None => omap f nodes end).
    change (f n) with (class_tag (read_node_class n)).
    destruct (class_tag (read_node_class n)) as [t|].
    + destruct Hel1 as (node_el & Hel1 & Ht). exists (node_el :: els).
      rewrite Het, Hel1, append_add_children, add_children_app.
      split; [done|]. by rewrite fmap_cons, Ht, Htags.
    + subst self1. by exists els.
Qed.

(** [build_etree], when it returns: the children of the root are the
    [NamespaceUris] element with one [Uri] for every namespace exported,
    the [Aliases] element with one child for every alias, the children
    that were there, and one element for every node of a class that is
    exported, in the order of the node list.  The index map is the one
    that [_add_namespaces] computes. *)
Theorem build_etree_layout (self : Exporter) (node_list : list AttrNode)
    (uris : option (list string)) (ns_array : list string) (self' : Exporter) :
  build_etree env self node_list uris ns_array = Ok self' →
  ∃ ns_to_export alias_els node_els,
    Namespaces._add_namespaces (node <$> node_list) uris ns_array
      = Ok (_addr_idx_to_xml_idx self', ns_to_export)
    ∧ tag (etree self') = tag (etree self)
    ∧ attrib (etree self') = attrib (etree self)
    ∧ children (etree self')
      = mkElement "NamespaceUris" [] None
          ((fun uri => mkElement "Uri" [] (Some uri) []) <$> ns_to_export)
        :: mkElement "Aliases" [] None alias_els
        :: children (etree self) ++ node_els
    ∧ length alias_els = size (aliases self')
    ∧ tag <$> node_els
      = omap (fun n : AttrNode => class_tag (read_node_class n)) node_list.
Proof.
  unfold build_etree, _add_namespaces.
  destruct (Namespaces._add_namespaces _ _ _) as [[d ns_to_export]|] eqn:Hns; simpl; [|done].
  rewrite add_namespace_uri_els_eq. simpl.
  destruct (foldM _ _ node_list) as [self2|] eqn:Hnodes; simpl; [|done].
  apply foldM_node_to_etree in Hnodes as (Hd & _ & node_els & Het & Htags).
  simpl in Hd, Het.
  unfold _add_alias_els.
  assert (ordered_keys env (aliases self2) ≡ₚ elements (dom (aliases self2))) as Hperm
    by apply merge_sort_Permutation.
  destruct (aliases_loop_ok env (aliases self2) (ordered_keys env (aliases self2))
              (Element_new "Aliases")) as (kids & Hloop & Hlen & _).
  { intros k Hk. rewrite Hperm in Hk. by apply elem_of_elements, elem_of_dom in Hk. }
  assert (aliases_el env (aliases self2) = Ok (mkElement "Aliases" [] None kids)) as ->
    by exact Hloop.
  simpl. intros [= <-]. simpl. exists ns_to_export, kids, node_els.
  rewrite Het, Hd. simpl. split_and!; try done.
  rewrite Hlen, Hperm. by rewrite <- size_dom.
Qed.

(** With the reads of the nodes given by their results, [build_etree]
    returns for a node list without Variable and VariableType nodes:
    the steps of the exporter itself, the index map, the lookup of the
    namespace URIs, the references and the sorted aliases, do not
    raise. *)
Theorem build_etree_without_variables_returns (self : Exporter)
    (node_list : list AttrNode) (uris : option (list string))
    (ns_array : list string) :
  (∀ n : AttrNode, n ∈ node_list → read_node_class n ≠ Variable_
                                   ∧ read_node_class n ≠ VariableType) →
  ∃ self', build_etree env self node_list uris ns_array = Ok self'.
Proof.
  intros Hcls. unfold build_etree, _add_namespaces.
  destruct (NamespacesMore.add_namespaces_ok (node <$> node_list) uris ns_array)
    as [ns_to_export ->].
  simpl. set (self1 := _add_namespace_uri_els _ _). clearbody self1.
  assert (∃ self2, foldM (node_to_etree env) self1 node_list = Ok self2) as [self2 ->].
  { revert self1. induction node_list as [|n nodes IH]; intros self1; simpl; [eauto|].
    destruct (Hcls n) as [Hv Hvt]; [by left|].
    assert (∃ s, node_to_etree env self1 n = Ok s) as [s ->].
    { unfold node_to_etree. destruct (read_node_class n); try done; eauto. }
    simpl. apply IH. intros n' Hn'. apply Hcls. by right. }
  simpl. unfold _add_alias_els.
  assert (ordered_keys env (aliases self2) ≡ₚ elements (dom (aliases self2))) as Hperm
    by apply merge_sort_Permutation.
  destruct (aliases_loop_ok env (aliases self2) (ordered_keys env (aliases self2))
              (Element_new "Aliases")) as (kids & Hloop & _).
  { intros k Hk. rewrite Hperm in Hk. by apply elem_of_elements, elem_of_dom in Hk. }
  assert (aliases_el env (aliases self2) = Ok (mkElement "Aliases" [] None kids)) as ->
    by exact Hloop.
  simpl. eauto.
Qed.

End facts.

Lemma node_to_etree_adds_one_element_witness :
  match node_to_etree Example.env Example.exporter_2_to_1 ExampleMore.speed with
  | Ok self' =>
      _addr_idx_to_xml_idx self' = _addr_idx_to_xml_idx Example.exporter_2_to_1
      ∧ (∀ k, is_Some (aliases Example.exporter_2_to_1 !! k) → is_Some (aliases self' !! k))
      ∧ match class_tag (read_node_class ExampleMore.speed) with
        | Some t => ∃ node_el, etree self' = append (etree Example.exporter_2_to_1) node_el
                               ∧ tag node_el = t
        | None => self' = Example.exporter_2_to_1
        end
  | Raise _ => False
  end.
Proof.
  destruct (node_to_etree Example.env Example.exporter_2_to_1 ExampleMore.speed)
    as [self'|e] eqn:H.
  - exact (node_to_etree_adds_one_element Example.env _ _ _ H).
  - vm_compute in H. exact (Ok_not_Raise _ _ H).
Defined.

Lemma build_etree_layout_witness :
  match build_etree Example.env XmlExporter_init
          [ExampleMore.pump; ExampleMore.view; ExampleMore.speed] None
          ExampleMore.namespace_array with
  | Ok self' =>
      ∃ ns_to_export alias_els node_els,
        Namespaces._add_namespaces
          (node <$> [ExampleMore.pump; ExampleMore.view; ExampleMore.speed]) None
          ExampleMore.namespace_array
          = Ok (_addr_idx_to_xml_idx self', ns_to_export)
        ∧ tag (etree self') = tag (etree XmlExporter_init)
        ∧ attrib (etree self') = attrib (etree XmlExporter_init)
        ∧ children (etree self')
          = mkElement "NamespaceUris" [] None
              ((fun uri => mkElement "Uri" [] (Some uri) []) <$> ns_to_export)
            :: mkElement "Aliases" [] None alias_els
            :: children (etree XmlExporter_init) ++ node_els
        ∧ length alias_els = size (aliases self')
        ∧ tag <$> node_els
          = omap (fun n : AttrNode => class_tag (read_node_class n))
              [ExampleMore.pump; ExampleMore.view; ExampleMore.speed]
  | Raise _ => False
  end.
Proof.
  destruct (build_etree Example.env XmlExporter_init
              [ExampleMore.pump; ExampleMore.view; ExampleMore.speed] None
              ExampleMore.namespace_array) as [self'|e] eqn:H.
  - exact (build_etree_layout Example.env _ _ _ _ _ H).
  - vm_compute in H. exact (Ok_not_Raise _ _ H).
Defined.

Lemma build_etree_without_variables_returns_witness :
  ∃ self', build_etree Example.env XmlExporter_init
             [ExampleMore.pump; ExampleMore.view] (Some ["urn:server"])
             ExampleMore.namespace_array = Ok self'.
Proof.
  apply (build_etree_without_variables_returns Example.env XmlExporter_init
           [ExampleMore.pump; ExampleMore.view]).
  intros n Hn. apply elem_of_cons in Hn as [->|Hn]; [done|].
  apply list_elem_of_singleton in Hn as ->. done.
Defined.

End NodeSetFacts.

(** ** Pretty printing *)

Module PrettyFacts.
Import Pretty.

Lemma Elem_ind_Forall (P : Elem → Prop) :
  (∀ t a x tl c, Forall P c → P (mkElem t a x tl c)) → ∀ e, P e.
Proof.
  intros H. fix IH 1. intros [t a x tl c]. apply H.
  induction c as [|e c IHc]; constructor; [apply IH|exact IHc].
Qed.

Lemma on_last_fmap_ext {A} (f g : A → A) (h k : A → A) (l : list A) :
  Forall (fun x => h x = k x) l →
  (∀ x, x ∈ l → f (h x) = g (k x)) →
  on_last f (h <$> l) = on_last g (k <$> l).
Proof.
  intros Hl Hfg. induction l as [|x l IH]; [done|].
  apply Forall_cons in Hl as [Hx Hl].
  destruct l as [|y l].
  - simpl. f_equal. apply Hfg. by left.
  - change (h x :: on_last f (h <$> y :: l) = k x :: on_last g (k <$> y :: l)).
    rewrite Hx. f_equal. apply IH; [done|]. intros z Hz. apply Hfg. by right.
Qed.

Lemma on_last_fmap {A B} (f : A → A) (g : B → B) (h : A → B) (l : list A) :
  (∀ x, h (f x) = g (h x)) → h <$> on_last f l = on_last g (h <$> l).
Proof.
  intros Hc. induction l as [|x [|y l] IH]; [done|by simpl; rewrite Hc|].
  change (h x :: (h <$> on_last f (y :: l)) = h x :: on_last g (h <$> y :: l)).
  by rewrite IH.
Qed.

Section facts.
Context (strip : string → string).
Context (Hws : strips_indentation strip).

Lemma blank_indentation level : blank strip (Some (newline +:+ spaces level)) = true.
Proof.
  unfold blank. destruct (Hws level) as [-> _].
  apply orb_true_iff. right. by apply bool_decide_eq_true_2.
Qed.

Lemma blank_indentation_2 level :
  blank strip (Some ((newline +:+ spaces level) +:+ "  ")) = true.
Proof.
  unfold blank. destruct (Hws level) as [_ ->].
  apply orb_true_iff. right. by apply bool_decide_eq_true_2.
Qed.

Lemma content_set_blank_tail i e :
  blank strip (Some i) = true → content strip (set_blank_tail strip i e) = content strip e.
Proof.
  intros Hi. destruct e as [t a x tl c]. simpl content at 2. unfold set_blank_tail.
  cbn [content]. destruct (blank strip tl) eqn:Htl; [by rewrite Hi|by rewrite Htl].
Qed.

(** [indent] changes white space only: the tags, the attributes, the
    children and every text and tail that is not empty or white space
    are those of the element it is given. *)
Theorem indent_keeps_content (e : Elem) (level : nat) :
  content strip (indent strip e level) = content strip e.
Proof.
  revert level. induction e as [t a x tl c IH] using Elem_ind_Forall. intros level.
  destruct c as [|c0 c].
  - cbn [indent content]. f_equal.
    destruct (negb (level =? 0) && blank strip tl) eqn:Hb; [|done].
    apply andb_true_iff in Hb as [_ Hb]. by rewrite blank_indentation, Hb.
  - cbn [indent]. cbn [content]. f_equal.
    + destruct (blank strip x) eqn:Hx; [by rewrite blank_indentation_2|by rewrite Hx].
    + destruct (blank strip tl) eqn:Htl; [by rewrite blank_indentation|by rewrite Htl].
    + rewrite (on_last_fmap _ (fun e => e) (content strip)).
      * assert (∀ A (l : list A), on_last (fun e => e) l = l) as Hid.
        { intros A l. induction l as [|y [|z l] IHl]; [done..|].
          change (y :: on_last (fun e => e) (z :: l) = y :: z :: l). by rewrite IHl. }
        rewrite Hid, <- list_fmap_compose. apply list_fmap_ext.
        intros i y Hy. simpl.
        rewrite Forall_forall in IH. apply IH. by eapply list_elem_of_lookup_2.
      * intros y. apply content_set_blank_tail, blank_indentation.
Qed.

Lemma indent_blank_tail_irrelevant t a x tl tl' c level :
  level ≠ 0 → blank strip tl = true → blank strip tl' = true →
  indent strip (mkElem t a x tl c) level = indent strip (mkElem t a x tl' c) level.
Proof.
  intros Hl Htl Htl'. destruct c as [|c0 c]; cbn [indent]; rewrite Htl, Htl'; [|done].
  by destruct level.
Qed.

Lemma on_last_twice (f h : Elem → Elem) (l : list Elem) :
  (∀ y, y ∈ l → h (h y) = h y) →
  (∀ y, y ∈ l → f (h (f (h y))) = f (h y)) →
  on_last f (h <$> on_last f (h <$> l)) = on_last f (h <$> l).
Proof.
  intros Hh Hf. induction l as [|y l IH]; [done|].
  destruct l as [|z l].
  - simpl. f_equal. apply Hf. by left.
  - change (on_last f (h <$> h y :: on_last f (h <$> z :: l))
            = h y :: on_last f (h <$> z :: l)).
    assert (∃ u us, on_last f (h <$> z :: l) = u :: us) as (u & us & Hu).
    { clear. revert z. induction l as [|w l IHl]; intros z; [by eexists _, _|].
      destruct (IHl w) as (u & us & Hu). exists (h z), (u :: us).
      change (h z :: on_last f (h <$> w :: l) = h z :: u :: us). by rewrite Hu. }
    rewrite Hu. change (h (h y) :: on_last f (h <$> u :: us) = h y :: u :: us).
    rewrite Hh by by left. f_equal. rewrite <- Hu. apply IH.
    + intros w Hw. apply Hh. by right.
    + intros w Hw. apply Hf. by right.
Qed.

(** Indenting a tree that [indent] has indented, at the same level,
    changes nothing. *)
Theorem indent_idempotent (e : Elem) (level : nat) :
  indent strip (indent strip e level) level = indent strip e level.
Proof.
  revert level. induction e as [t a x tl c IH] using Elem_ind_Forall. intros level.
  destruct c as [|c0 c].
  - cbn [indent]. f_equal.
    destruct (negb (level =? 0)) eqn:Hl; simpl; [|done].
    destruct (blank strip tl) eqn:Htl; [by rewrite blank_indentation|by rewrite Htl].
  - cbn [indent].
    set (i := newline +:+ spaces level).
    set (h := fun child => indent strip child (S level)).
    assert (∃ u us, on_last (set_blank_tail strip i) (h <$> c0 :: c) = u :: us)
      as (u & us & Hu).
    { clear. generalize c0. induction c as [|w l IHl]; intros z; [by eexists _, _|].
      destruct (IHl w) as (u & us & Hu). exists (h z), (u :: us).
      change (h z :: on_last (set_blank_tail strip i) (h <$> w :: l) = h z :: u :: us).
      by rewrite Hu. }
    rewrite Hu. cbn [indent]. fold i. fold h. rewrite <- Hu. f_equal.
    + destruct (blank strip x) eqn:Hx.
      * unfold i. by rewrite blank_indentation_2.
      * by rewrite Hx.
    + destruct (blank strip tl) eqn:Htl.
      * unfold i. by rewrite blank_indentation.
      * by rewrite Htl.
    + rewrite Forall_forall in IH. apply on_last_twice.
      * intros y Hy. by apply IH.
      * intros y Hy.
        pose proof (IH y Hy (S level)) as Hy2.
        change (indent strip y (S level)) with (h y) in Hy2.
        destruct (h y) as [t1 a1 x1 tl1 c1] eqn:Hhy.
        unfold h. cbn [set_blank_tail]. destruct (blank strip tl1) eqn:Htl1; [|rewrite Hy2; cbn [set_blank_tail]; by rewrite Htl1].
        rewrite (indent_blank_tail_irrelevant t1 a1 x1 (Some i) tl1 c1 (S level));
          [|done|apply blank_indentation|done].
        rewrite Hy2. cbn [set_blank_tail]. by rewrite Htl1.
Qed.

End facts.

Lemma lstrip_all_space (l : list ascii) :
  Forall (fun c => ExampleMore.is_space c = true) l → ExampleMore.lstrip l = [].
Proof.
  induction 1 as [|c l Hc Hl IH]; [done|]. simpl. by rewrite Hc.
Qed.

Lemma strip_all_space (s : string) :
  Forall (fun c => ExampleMore.is_space c = true) (list_ascii_of_string s) →
  ExampleMore.strip s = EmptyString.
Proof.
  intros H. unfold ExampleMore.strip. by rewrite (lstrip_all_space _ H).
Qed.

Lemma all_space_app (s1 s2 : string) :
  Forall (fun c => ExampleMore.is_space c = true) (list_ascii_of_string s1) →
  Forall (fun c => ExampleMore.is_space c = true) (list_ascii_of_string s2) →
  Forall (fun c => ExampleMore.is_space c = true) (list_ascii_of_string (s1 +:+ s2)).
Proof.
  intros H1 H2. induction s1 as [|c s1 IH]; [done|].
  simpl in *. apply Forall_cons in H1 as [Hc H1]. constructor; [done|by apply IH].
Qed.

Lemma all_space_spaces (level : nat) :
  Forall (fun c => ExampleMore.is_space c = true) (list_ascii_of_string (spaces level)).
Proof.
  induction level as [|n IH]; [constructor|].
  simpl. by repeat constructor.
Qed.

Lemma strips_indentation_strip : strips_indentation ExampleMore.strip.
Proof.
  intros level. split; apply strip_all_space.
  - apply all_space_app; [by repeat constructor|apply all_space_spaces].
  - apply all_space_app; [|by repeat constructor].
    apply all_space_app; [by repeat constructor|apply all_space_spaces].
Qed.

Lemma indent_keeps_content_witness :
  content ExampleMore.strip
    (indent ExampleMore.strip
       (of_Element (mkElement "UANodeSet" [] None
                      [mkElement "UAObject" [("NodeId", "i=85")] None
                         [mkElement "DisplayName" [] (Some "Objects") []]])) 0)
  = mkElem "UANodeSet" [] None None
      [mkElem "UAObject" [("NodeId", "i=85")] None None
         [mkElem "DisplayName" [] (Some "Objects") None []]].
Proof.
  rewrite (indent_keeps_content ExampleMore.strip strips_indentation_strip).
  reflexivity.
Defined.

Lemma indent_idempotent_witness :
  indent ExampleMore.strip
    (indent ExampleMore.strip
       (of_Element (mkElement "UANodeSet" [] None
                      [mkElement "UAObject" [("NodeId", "i=85")] None
                         [mkElement "DisplayName" [] (Some "Objects") []]])) 0) 0
  = indent ExampleMore.strip
      (of_Element (mkElement "UANodeSet" [] None
                     [mkElement "UAObject" [("NodeId", "i=85")] None
                        [mkElement "DisplayName" [] (Some "Objects") []]])) 0.
Proof.
  apply (indent_idempotent ExampleMore.strip strips_indentation_strip).
Defined.

End PrettyFacts.

(** ** The string helpers on the store *)

Module StoreMore.
Import Store StoreFacts.

Section facts.
Context (env : Env).

(** [_node_to_string] takes a Node too: the string is the one of the
    NodeId of the node, and the objects of the store are afterwards what
    they were.  For a QualifiedName, which has no [nodeid], it raises. *)
Theorem node_to_string_of_Node (d : gmap nat nat) (h : gmap nat PyObject)
    (l l_n l_q : nat) (n : NodeId) (q : QualifiedName) :
  h !! l = Some (ONode l_n) → h !! l_n = Some (ONodeId n) →
  h !! l_q = Some (OQualifiedName q) →
  (∃ h', _node_to_string env d h l = Ok (Serializer._node_to_string env d n, h')
         ∧ _node_to_string env d h l = _node_to_string env d h l_n
         ∧ ∀ l0 o, h !! l0 = Some o → h' !! l0 = Some o)
  ∧ _node_to_string env d h l_q = Raise AttributeError.
Proof.
  intros Hl Hn Hq. split.
  - unfold _node_to_string, Serializer._node_to_string. rewrite Hl, Hn. simpl.
    unfold remapped_copy. rewrite Hn. simpl.
    destruct (d !! NamespaceIndex n) as [xml_idx|] eqn:Hd.
    + unfold copy, set_NamespaceIndex. rewrite Hn. simpl.
      rewrite lookup_insert_eq. simpl. rewrite lookup_insert_eq. simpl.
      eexists. split_and!; [reflexivity|done|].
      intros l0 o Hl0. rewrite insert_insert_eq, lookup_insert_ne; [done|].
      apply not_eq_sym. by eapply fresh_lookup_ne.
    + simpl. rewrite Hn. simpl. eexists. split_and!; [reflexivity|done|done].
  - unfold _node_to_string. by rewrite Hq.
Qed.

End facts.

Lemma node_to_string_of_Node_witness :
  (∃ h', _node_to_string Example.env (<[2 := 1]> {[0 := 0]})
           (<[3 := ONode 0]> Example.heap) 3 = Ok ("ns=1;i=5", h')
         ∧ ∀ l0 o, <[3 := ONode 0]> Example.heap !! l0 = Some o → h' !! l0 = Some o)
  ∧ _node_to_string Example.env (<[2 := 1]> {[0 := 0]})
      (<[3 := ONode 0]> Example.heap) 1 = Raise AttributeError.
Proof.
  edestruct (node_to_string_of_Node Example.env (<[2 := 1]> {[0 := 0]})
               (<[3 := ONode 0]> Example.heap) 3 0 1 (mkNodeId 2 (Numeric 5))
               (mkQualifiedName 2 "Pump"))
    as [(h' & H1 & _ & H3) H4]; [vm_compute; reflexivity..|].
  split; [|exact H4]. exists h'. split; assumption.
Defined.

End StoreMore.

(** ** The alias registry *)

Module AliasRegistry.
Import Serializer NodeSet ElementFacts SerializerFacts SerializerMore NodeSetFacts.

Section facts.
Context (env : Env).

Lemma register_all_notin regs (m : gmap NodeId string) k :
  (∀ p, p ∈ regs → p.1 ≠ k) → register_all regs m !! k = m !! k.
Proof.
  revert m. induction regs as [|[k0 v0] regs IH]; intros m Hk; [done|].
  rewrite register_all_cons, IH.
  - apply lookup_insert_ne. apply (Hk (k0, v0)). by left.
  - intros p Hp. apply Hk. by right.
Qed.

Lemma register_all_same regs (m : gmap NodeId string) :
  (∀ p, p ∈ regs → m !! p.1 = Some p.2) → register_all regs m = m.
Proof.
  induction regs as [|[k0 v0] regs IH]; intros Hk; [done|].
  rewrite register_all_cons, insert_id by (apply (Hk (k0, v0)); by left).
  apply IH. intros p Hp. apply Hk. by right.
Qed.

(** The [Aliases] element of [_add_alias_els], for a strict total order
    of the NodeIds. *)
Lemma add_alias_els_sorted (self : Exporter) :
  strict_total (NodeId_lt env) →
  ∃ keys kids,
    _add_alias_els env self
    = Ok (mkExporter (aliases self) (_addr_idx_to_xml_idx self)
            (insert_child 1 (etree self) (mkElement "Aliases" [] None kids)))
    ∧ (∀ k, k ∈ keys ↔ is_Some (aliases self !! k))
    ∧ StronglySorted (fun a b => NodeId_lt env a b = true) keys
    ∧ length kids = length keys
    ∧ ∀ i k, keys !! i = Some k →
        ∃ name, aliases self !! k = Some name
          ∧ kids !! i = Some (mkElement "Alias" [("Alias", name)]
                                (Some (NodeId_to_string env k)) []).
Proof.
  intros Hlt. unfold _add_alias_els.
  destruct (ordered_keys_spec env Hlt (aliases self)) as [Hdom Hsorted].
  destruct (aliases_loop_ok env (aliases self) (ordered_keys env (aliases self))
              (Element_new "Aliases")) as (kids & Hloop & Hlen & Hkids).
  { intros k Hk. by apply Hdom. }
  assert (aliases_el env (aliases self) = Ok (mkElement "Aliases" [] None kids)) as ->
    by exact Hloop.
  by exists (ordered_keys env (aliases self)), kids.
Qed.

(** C7: the alias dict has one name for a NodeId.  [_add_ref_els] leaves
    every reference type of the node registered with its name, whatever
    name was there, and the other entries as they were; when the names
    are there already the dict is unchanged.  [add_variable_common] does
    the same with the data type.  [_add_alias_els] returns and inserts,
    as second child of the root, the [Aliases] element, which has one
    [Alias] child for every NodeId of the dict, in strictly ascending
    order of the NodeIds; and so does [build_etree] with the dict at the
    end of the run. *)
Theorem C7_alias_registry (self : Exporter) :
  strict_total (NodeId_lt env) →
  (∀ parent_el obj,
     (∀ ref, ref ∈ get_references obj →
        (_add_ref_els env self parent_el obj).2 !! ReferenceTypeId ref
        = Some (ref_name env (ReferenceTypeId ref)))
     ∧ (∀ k, (∀ ref, ref ∈ get_references obj → ReferenceTypeId ref ≠ k) →
        (_add_ref_els env self parent_el obj).2 !! k = aliases self !! k)
     ∧ ((∀ ref, ref ∈ get_references obj →
           aliases self !! ReferenceTypeId ref = Some (ref_name env (ReferenceTypeId ref))) →
        (_add_ref_els env self parent_el obj).2 = aliases self))
  ∧ (∀ node el self' el',
       add_variable_common env self node el = Ok (self', el') →
       (∀ k, k ≠ read_data_type node → aliases self' !! k = aliases self !! k)
       ∧ (∀ name,
            NamespaceIndex (read_data_type node) = 0 →
            ObjectIdNames_get env (Identifier_ (read_data_type node)) = Some name →
            aliases self' !! read_data_type node = Some name
            ∧ (aliases self !! read_data_type node = Some name →
               aliases self' = aliases self))
       ∧ (NamespaceIndex (read_data_type node) ≠ 0
          ∨ ObjectIdNames_get env (Identifier_ (read_data_type node)) = None →
          aliases self' = aliases self))
  ∧ (∃ keys kids,
       _add_alias_els env self
       = Ok (mkExporter (aliases self) (_addr_idx_to_xml_idx self)
               (insert_child 1 (etree self) (mkElement "Aliases" [] None kids)))
       ∧ (∀ k, k ∈ keys ↔ is_Some (aliases self !! k))
       ∧ StronglySorted (fun a b => NodeId_lt env a b = true) keys
       ∧ length kids = length keys
       ∧ ∀ i k, keys !! i = Some k →
           ∃ name, aliases self !! k = Some name
             ∧ kids !! i = Some (mkElement "Alias" [("Alias", name)]
                                   (Some (NodeId_to_string env k)) []))
  ∧ (∀ (node_list : list AttrNode) uris ns_array self',
       build_etree env self node_list uris ns_array = Ok self' →
       ∃ keys kids,
         children (etree self') !! 1 = Some (mkElement "Aliases" [] None kids)
         ∧ (∀ k, k ∈ keys ↔ is_Some (aliases self' !! k))
         ∧ StronglySorted (fun a b => NodeId_lt env a b = true) keys
         ∧ length kids = length keys
         ∧ ∀ i k, keys !! i = Some k →
             ∃ name, aliases self' !! k = Some name
               ∧ kids !! i = Some (mkElement "Alias" [("Alias", name)]
                                     (Some (NodeId_to_string env k)) [])).
Proof.
  intros Hlt. split_and!.
  - intros parent_el obj. rewrite add_ref_els_eq. cbn [snd]. split_and!.
    + intros ref Href. by apply register_refs_lookup.
    + intros k Hk. apply register_all_notin.
      intros p [ref [-> Href]]%list_elem_of_fmap. by apply Hk.
    + intros Hsame. apply register_all_same.
      intros p [ref [-> Href]]%list_elem_of_fmap. by apply Hsame.
  - intros node el self' el' H.
    apply add_variable_common_inv in H as (dtype_name & el0 & Hal & _).
    destruct (decide (NamespaceIndex (read_data_type node) = 0)) as [Hns|Hns];
      [destruct (ObjectIdNames_get env (Identifier_ (read_data_type node)))
         as [name0|] eqn:Hn|];
      injection Hal as -> Hal'; rewrite Hal'; split_and!.
    + intros k Hk. by apply lookup_insert_ne.
    + intros name _ [= <-]. split; [apply lookup_insert_eq|].
      intros Hold. by apply insert_id.
    + by intros [?|?].
    + done.
    + by intros name _ ?.
    + done.
    + done.
    + by intros name ?.
    + done.
  - by apply add_alias_els_sorted.
  - intros node_list uris ns_array self'. unfold build_etree, NodeSet._add_namespaces.
    destruct (Namespaces._add_namespaces _ _ _) as [[d ns_to_export]|]; simpl; [|done].
    rewrite add_namespace_uri_els_eq.
    destruct (foldM _ _ node_list) as [self2|] eqn:Hnodes; simpl; [|done].
    apply foldM_node_to_etree in Hnodes as (_ & _ & node_els & Het & _).
    simpl in Het.
    destruct (add_alias_els_sorted self2 Hlt) as (keys & kids & -> & Hrest).
    intros [= <-]. exists keys, kids. split; [|exact Hrest].
    simpl. by rewrite Het.
Qed.

End facts.

(** The exporter of the example with two aliases. *)
Lemma C7_alias_registry_witness :
  ∃ keys kids,
    _add_alias_els Example.env ExampleMore.exporter_with_aliases
    = Ok (mkExporter (aliases ExampleMore.exporter_with_aliases)
            (_addr_idx_to_xml_idx ExampleMore.exporter_with_aliases)
            (insert_child 1 (etree ExampleMore.exporter_with_aliases)
               (mkElement "Aliases" [] None kids)))
    ∧ (∀ k, k ∈ keys ↔ is_Some (aliases ExampleMore.exporter_with_aliases !! k))
    ∧ StronglySorted (fun a b => NodeId_lt Example.env a b = true) keys
    ∧ length kids = length keys.
Proof.
  destruct (C7_alias_registry Example.env ExampleMore.exporter_with_aliases
              ExampleFacts.strict_total_NodeId_lt)
    as (_ & _ & (keys & kids & H1 & H2 & H3 & H4 & _) & _).
  exists keys, kids. exact (conj H1 (conj H2 (conj H3 H4))).
Defined.

End AliasRegistry.
